(** * NachOS MP4 file system: a shallow embedding of [code/filesys/filesys.cc]

    The facade [FileSystem] (constructor, [Create], [CreateDirectory],
    [OpenDir], [Open], [Remove], the descriptor layer, [SplitPath] and
    [JoinPath]) is embedded from the C++ source.  The classes it calls
    ([Disk], [FileHeader], [OpenFile], [PersistentBitmap], [Directory]) live
    in files that are not part of the source tree at hand; they are modelled
    from the specification and marked as such. *)

From Stdlib Require Import ZArith List String Ascii Bool Lia.
From stdpp Require Import base tactics option list.

Open Scope Z_scope.

(** ** Results of running C++ code *)

(** A call either returns ([Done]), or has no defined result ([Undefined]:
    an array is indexed out of its bounds, a null pointer is dereferenced, an
    [ASSERT] fails), or the budget of rounds the model gives a loop or a
    recursion is exhausted ([OutOfFuel]).  Only the recursive [Remove] can
    end that way; the loops of the other operations are bounded by their
    data (lemmas [bounded_Create] and the like). *)
Inductive Outcome (A : Type) : Type :=
| Done (a : A)
| Undefined
| OutOfFuel.
Arguments Done {A} a.
Arguments Undefined {A}.
Arguments OutOfFuel {A}.

#[global] Instance Outcome_ret : MRet Outcome := fun A a => Done a.
#[global] Instance Outcome_bind : MBind Outcome := fun A B f m =>
  match m with
  | Done a => f a
  | Undefined => Undefined
  | OutOfFuel => OutOfFuel
  end.

Definition ASSERT (b : bool) : Outcome unit :=
  if b then Done tt else Undefined.

(** ** C arrays and character buffers *)

(** [a[i]] for a C array held as a list: defined only inside the bounds. *)
Definition index {A} (a : list A) (i : Z) : Outcome A :=
  if 0 <=? i then
    match a !! Z.to_nat i with
    | Some x => Done x
    | None => Undefined
    end
  else Undefined.

(** [a[i] = x]. *)
Definition store {A} (a : list A) (i : Z) (x : A) : Outcome (list A) :=
  if (0 <=? i) && (i <? Z.of_nat (length a)) then Done (<[Z.to_nat i := x]> a)
  else Undefined.

Definition NUL : ascii := Ascii.zero.
Definition slash : ascii := "/"%char.

(** Size of the path buffers ([char parent[1024]] and the like). *)
Definition PathMax : nat := 1024%nat.

Definition chars (s : string) : list ascii := list_ascii_of_string s.

(** The characters of a buffer before the first NUL, as far as the buffer
    goes. *)
Fixpoint until_nul (buf : list ascii) : list ascii :=
  match buf with
  | [] => []
  | c :: rest => if Ascii.eqb c NUL then [] else c :: until_nul rest
  end.

Definition has_nul (buf : list ascii) : bool :=
  existsb (fun c => Ascii.eqb c NUL) buf.

(** [strlen(buf + off)]: reading runs off the buffer when no NUL ends it. *)
Definition strlen (buf : list ascii) (off : nat) : Outcome Z :=
  if has_nul (drop off buf) then Done (Z.of_nat (length (until_nul (drop off buf))))
  else Undefined.

(** The C string that starts at [buf + off]. *)
Definition cstring (buf : list ascii) (off : nat) : Outcome string :=
  if has_nul (drop off buf) then Done (string_of_list_ascii (until_nul (drop off buf)))
  else Undefined.

(** [strncpy(dest, src, n)] into a buffer of [n] characters: at most [n]
    characters of [src], the rest of the buffer filled with NUL. *)
Definition strncpy (src : string) (n : nat) : list ascii :=
  let s := take n (until_nul (chars src)) in
  s ++ replicate (n - length s) NUL.

(** ** [FileSystem::SplitPath] (filesys.cc, lines 677-694) *)

(** The loop [while (idx >= 0 && parent[idx] != '/') --idx;], counting
    [n = idx + 1] down. *)
Fixpoint SplitPath_scan (parent : list ascii) (n : nat) : Z :=
  match n with
  | O => -1
  | S k =>
      match parent !! k with
      | Some c => if Ascii.eqb c slash then Z.of_nat k else SplitPath_scan parent k
      | None => SplitPath_scan parent k
      end
  end.

Definition SplitPath (fullpath : string) : Outcome (string * string) :=
  let parent := strncpy fullpath PathMax in
  len ← strlen parent 0;
  let idx := SplitPath_scan parent (Z.to_nat len) in
  parent ← store parent idx NUL;
  name ← cstring parent (Z.to_nat (idx + 1));
  len' ← strlen parent 0;
  parent' ← cstring parent 0;
  if len' =? 0 then Done ("/"%string, name) else Done (parent', name).

(** ** [FileSystem::JoinPath] (lines 696-704) *)

(** [strcat(dest, s)] in a buffer of [PathMax] characters. *)
Definition strcat (dest : list ascii) (s : string) : Outcome (list ascii) :=
  len ← strlen dest 0;
  let src := until_nul (chars s) in
  if Z.of_nat (length src) + len <? Z.of_nat (length dest) then
    Done (take (length dest)
               (take (Z.to_nat len) dest ++ src ++ [NUL]
                  ++ drop (Z.to_nat len + length src + 1) dest))
  else Undefined.

Definition JoinPath (parent name : string) : Outcome string :=
  let dest := strncpy parent PathMax in
  len ← strlen dest 0;
  last ← index dest (len - 1);
  dest ← (if Ascii.eqb last slash then Done dest else strcat dest "/");
  dest ← strcat dest name;
  cstring dest 0.

(** ** Geometry *)

(** The constants of [disk.h], [filehdr.h] and [directory.h] are not in the
    source tree; they take the values of the spec's end-to-end scenarios
    (S=128, B=128, NumDirect=29, N=9). *)

(** Modelled from the spec: the size of a sector in bytes, [B]. *)
Definition SectorSize : Z := 128.

(** Modelled from the spec: the number of sectors of the device, [S]. *)
Definition NumSectors : Z := 128.

(** Modelled from the spec: [sizeof(int)]. *)
Definition sizeof_int : Z := 4.

(** Modelled from the spec: [NumDirect = (B - 3 * sizeof(int)) / sizeof(int)],
    the number of entries of [dataSectors]. *)
Definition NumDirect : Z := Eval cbv in (SectorSize - 3 * sizeof_int) / sizeof_int.

(** Modelled from the spec: the maximal length of a name, [N]. *)
Definition FileNameMaxLen : nat := 9%nat.

(** Modelled from the spec: the bits of a byte. *)
Definition BitsInByte : Z := 8.

(** The [#define]s of filesys.cc (lines 58-65); [DirectoryFileSize], of
    line 66, is with the directories. *)
Definition FreeMapSector : Z := 0.
Definition DirectorySector : Z := 1.
Definition FreeMapFileSize : Z := Eval cbv in NumSectors / BitsInByte.
Definition NumDirEntries : Z := 64.

(** Modelled from the spec: the macro [divRoundUp] of [utility.h], the ceiling of
    [n / s], written with C's truncating division. *)
Definition divRoundUp (n s : Z) : Z :=
  Z.quot n s + (if 0 <? Z.rem n s then 1 else 0).

(** ** The block device *)

(** Modelled from the spec: the contents of a sector of the block device, [B] bytes. *)
Definition Sector : Type := list Z.

(** Modelled from the spec: the block device, an array of [S] sectors. *)
Definition Disk : Type := list Sector.

(** Modelled from the spec: [read_sector] of the block device; a sector
    number outside [0..S) has no defined result. *)
Definition ReadSector (d : Disk) (sectorNumber : Z) : Outcome Sector :=
  _ ← ASSERT ((0 <=? sectorNumber) && (sectorNumber <? NumSectors));
  index d sectorNumber.

(** Modelled from the spec: [write_sector] of the block device: the sector
    takes the first [B] bytes of the buffer. *)
Definition WriteSector (d : Disk) (sectorNumber : Z) (data : Sector) : Outcome Disk :=
  _ ← ASSERT ((0 <=? sectorNumber) && (sectorNumber <? NumSectors));
  store d sectorNumber (take (Z.to_nat SectorSize) (data ++ replicate (Z.to_nat SectorSize) 0)).

(** A disk with nothing on it. *)
Definition blank_disk : Disk :=
  replicate (Z.to_nat NumSectors) (replicate (Z.to_nat SectorSize) 0).

(** ** Serialised integers *)

(** Modelled from the spec: an [int] of the on-disk layouts (6), as four
    bytes, least significant first, in two's complement. *)
Definition encode_int (n : Z) : list Z :=
  [n mod 256; (n / 256) mod 256; (n / 65536) mod 256; (n / 16777216) mod 256].

(** Modelled from the spec: the [int] that four bytes of a sector hold. *)
Definition decode_int (bs : list Z) : Z :=
  let u := nth 0 bs 0 + 256 * nth 1 bs 0 + 65536 * nth 2 bs 0 + 16777216 * nth 3 bs 0 in
  if u <? 2147483648 then u else u - 4294967296.

(** Modelled from the spec: an array of [n] [int]s of a sector. *)
Fixpoint decode_ints (n : nat) (bs : list Z) : list Z :=
  match n with
  | O => []
  | S k => decode_int (take 4 bs) :: decode_ints k (drop 4 bs)
  end.

(** ** Free-sector bitmap *)

(** Modelled from the spec: the free-sector bitmap of [bitmap.h] and
    [pbitmap.h] (4.1), a logical array of [S] booleans. *)
Definition Bitmap : Type := list bool.

(** Modelled from the spec: [new(S)], all bits clear. *)
Definition Bitmap_new (numItems : Z) : Bitmap := replicate (Z.to_nat numItems) false.

(** Modelled from the spec: [mark(i)]; a bit outside the map has no defined result. *)
Definition Mark (which : Z) (map : Bitmap) : Outcome Bitmap := store map which true.

(** Modelled from the spec: [clear(i)]; a bit outside the map has no defined
    result. *)
Definition Clear (which : Z) (map : Bitmap) : Outcome Bitmap := store map which false.

(** Modelled from the spec: [test(i)]. *)
Definition Test (which : Z) (map : Bitmap) : Outcome bool := index map which.

(** Modelled from the spec: the scan of [find_and_set]: the index of the first
    clear bit, counted from [i]. *)
Fixpoint first_clear (map : Bitmap) (i : Z) : option Z :=
  match map with
  | [] => None
  | b :: rest => if b then first_clear rest (i + 1) else Some i
  end.

(** Modelled from the spec: [find_and_set]: the first clear bit is set and its
    index returned; -1 when there is none. *)
Definition FindAndSet (map : Bitmap) : Z * Bitmap :=
  match first_clear map 0 with
  | Some i => (i, <[Z.to_nat i := true]> map)
  | None => (-1, map)
  end.

(** Modelled from the spec: the byte that packs up to eight bits of the
    serialised bitmap, lowest bit first. *)
Fixpoint byte_of_bits (bits : list bool) : Z :=
  match bits with
  | [] => 0
  | b :: rest => Z.b2z b + 2 * byte_of_bits rest
  end.

(** Modelled from the spec: the serialised bitmap, [n] bytes. *)
Fixpoint bytes_of_bits (n : nat) (bits : list bool) : list Z :=
  match n with
  | O => []
  | S k => byte_of_bits (take 8 bits) :: bytes_of_bits k (drop 8 bits)
  end.

(** Modelled from the spec: the bits of a serialised bitmap. *)
Definition bits_of_bytes (bs : list Z) : list bool :=
  flat_map (fun b => map (Z.testbit b) [0; 1; 2; 3; 4; 5; 6; 7]) bs.

(** ** File headers *)

(** Modelled from the spec: the class [FileHeader] of [filehdr.h] (3, 6): one sector
    with [numBytes], [numSectors], [level] and [dataSectors[NumDirect]]. *)
Record FileHeader : Type := mkFileHeader {
  numBytes : Z;
  numSectors : Z;
  level : Z;
  dataSectors : list Z
}.

(** Modelled from the spec: [new FileHeader].  C++ leaves the fields of a new
    header indeterminate; the model fixes them to -1. *)
Definition FileHeader_new : FileHeader :=
  mkFileHeader (-1) (-1) (-1) (replicate (Z.to_nat NumDirect) (-1)).

Definition set_numBytes (v : Z) (h : FileHeader) : FileHeader :=
  mkFileHeader v (numSectors h) (level h) (dataSectors h).
Definition set_numSectors (v : Z) (h : FileHeader) : FileHeader :=
  mkFileHeader (numBytes h) v (level h) (dataSectors h).
Definition set_level (v : Z) (h : FileHeader) : FileHeader :=
  mkFileHeader (numBytes h) (numSectors h) v (dataSectors h).
Definition set_dataSectors (v : list Z) (h : FileHeader) : FileHeader :=
  mkFileHeader (numBytes h) (numSectors h) (level h) v.

(** Modelled from the spec: the fixed layout of a header in its sector (6). *)
Definition encode_header (h : FileHeader) : Sector :=
  encode_int (numBytes h) ++ encode_int (numSectors h) ++ encode_int (level h)
    ++ flat_map encode_int (dataSectors h).

(** Modelled from the spec: the header a sector holds. *)
Definition decode_header (s : Sector) : FileHeader :=
  mkFileHeader (decode_int (take 4 s)) (decode_int (take 4 (drop 4 s)))
               (decode_int (take 4 (drop 8 s)))
               (decode_ints (Z.to_nat NumDirect) (drop 12 s)).

(** Modelled from the spec: [fetch_from(sector)] of a file header. *)
Definition FileHeader_FetchFrom (sector : Z) (d : Disk) : Outcome FileHeader :=
  s ← ReadSector d sector; Done (decode_header s).

(** Modelled from the spec: [write_back(sector)] of a file header. *)
Definition FileHeader_WriteBack (h : FileHeader) (sector : Z) (d : Disk) : Outcome Disk :=
  WriteSector d sector (encode_header h).

(** Modelled from the spec: the [n] calls of [find_and_set] of [allocate]; it
    stops at the first that fails. *)
Fixpoint Allocate_loop (n : nat) (i : nat) (h : FileHeader) (freeMap : Bitmap)
  : bool * FileHeader * Bitmap :=
  match n with
  | O => (true, h, freeMap)
  | S k =>
      let '(s, freeMap') := FindAndSet freeMap in
      if s =? -1 then (false, h, freeMap')
      else Allocate_loop k (S i) (set_dataSectors (<[i := s]> (dataSectors h)) h) freeMap'
  end.

(** Modelled from the spec: [allocate(bitmap, bytes)] (4.2): [numBytes] and
    [numSectors = ceil(bytes/B)] are recorded and the sectors taken from the
    bitmap; the call fails when [numSectors > NumDirect] or when the bitmap
    runs out. *)
Definition Allocate (h : FileHeader) (freeMap : Bitmap) (fileSize : Z)
  : bool * FileHeader * Bitmap :=
  let n := divRoundUp fileSize SectorSize in
  let h := set_numSectors n (set_numBytes fileSize h) in
  if NumDirect <? n then (false, h, freeMap)
  else Allocate_loop (Z.to_nat n) 0 h freeMap.

(** Modelled from the spec: the entries [dataSectors[i..i+n)] of a header. *)
Fixpoint listed_from (h : FileHeader) (n : nat) (i : Z) : Outcome (list Z) :=
  match n with
  | O => Done []
  | S k => s ← index (dataSectors h) i; rest ← listed_from h k (i + 1); Done (s :: rest)
  end.

(** Modelled from the spec: the sectors a header lists,
    [dataSectors[0..numSectors)]. *)
Definition listed (h : FileHeader) : Outcome (list Z) :=
  listed_from h (Z.to_nat (numSectors h)) 0.

(** Modelled from the spec: the length of the file, [numBytes]. *)
Definition FileLength (h : FileHeader) : Z := numBytes h.

(** Modelled from the spec: [byte_to_sector(off)] (4.2): direct for a
    level-1 header; through the child header, loaded from disk, for a
    level-0 root. *)
Definition ByteToSector (h : FileHeader) (offset : Z) (d : Disk) : Outcome Z :=
  if level h =? 0 then
    childSector ← index (dataSectors h) (offset / (NumDirect * SectorSize));
    child ← FileHeader_FetchFrom childSector d;
    index (dataSectors child) ((offset mod (NumDirect * SectorSize)) / SectorSize)
  else index (dataSectors h) (offset / SectorSize).

(** ** Open files *)

(** Modelled from the spec: the class [OpenFile] of [openfile.h], the handle that
    reads and writes the bytes of a file through its header, which is loaded
    from the header sector when the file is opened. *)
Record OpenFile : Type := mkOpenFile {
  hdr : FileHeader;
  seekPosition : Z
}.

(** Modelled from the spec: [new OpenFile(sector)]. *)
Definition OpenFile_new (sector : Z) (d : Disk) : Outcome OpenFile :=
  h ← FileHeader_FetchFrom sector d; Done (mkOpenFile h 0).

(** Modelled from the spec: the contents of [n] consecutive sectors of the file,
    from its [i]-th sector on. *)
Fixpoint read_sectors (f : OpenFile) (n : nat) (i : Z) (d : Disk) : Outcome (list Z) :=
  match n with
  | O => Done []
  | S k =>
      s ← ByteToSector (hdr f) (i * SectorSize) d;
      data ← ReadSector d s;
      rest ← read_sectors f k (i + 1) d;
      Done (data ++ rest)
  end.

(** Modelled from the spec: [buf] written over [n] consecutive sectors of the
    file, from its [i]-th sector on. *)
Fixpoint write_sectors (f : OpenFile) (n : nat) (i : Z) (buf : list Z) (d : Disk)
  : Outcome Disk :=
  match n with
  | O => Done d
  | S k =>
      s ← ByteToSector (hdr f) (i * SectorSize) d;
      d' ← WriteSector d s (take (Z.to_nat SectorSize) buf);
      write_sectors f k (i + 1) (drop (Z.to_nat SectorSize) buf) d'
  end.

(** Modelled from the spec: [OpenFile::ReadAt]: up to [numBytes] bytes of the file
    from [position], as far as the file goes. *)
Definition ReadAt (f : OpenFile) (numBytes position : Z) (d : Disk) : Outcome (list Z) :=
  let fileLength := FileLength (hdr f) in
  if (numBytes <=? 0) || (fileLength <=? position) then Done []
  else
    let numBytes := if fileLength <? position + numBytes then fileLength - position
                    else numBytes in
    let firstSector := position / SectorSize in
    let lastSector := (position + numBytes - 1) / SectorSize in
    buf ← read_sectors f (Z.to_nat (1 + lastSector - firstSector)) firstSector d;
    Done (take (Z.to_nat numBytes) (drop (Z.to_nat (position - firstSector * SectorSize)) buf)).

(** Modelled from the spec: [OpenFile::WriteAt]: up to [numBytes] bytes of [from]
    written at [position], as far as the file goes; the sectors that are
    written in part keep their other bytes. *)
Definition WriteAt (f : OpenFile) (from : list Z) (numBytes position : Z) (d : Disk)
  : Outcome (Z * Disk) :=
  let fileLength := FileLength (hdr f) in
  if (numBytes <=? 0) || (fileLength <=? position) then Done (0, d)
  else
    let numBytes := if fileLength <? position + numBytes then fileLength - position
                    else numBytes in
    let firstSector := position / SectorSize in
    let lastSector := (position + numBytes - 1) / SectorSize in
    let n := Z.to_nat (1 + lastSector - firstSector) in
    buf ← read_sectors f n firstSector d;
    let off := Z.to_nat (position - firstSector * SectorSize) in
    let buf' := take off buf ++ take (Z.to_nat numBytes) from
                  ++ drop (off + Z.to_nat numBytes) buf in
    d' ← write_sectors f n firstSector buf' d;
    Done (numBytes, d').

(** Modelled from the spec: [OpenFile::Read], at the seek position, which moves
    on. *)
Definition OpenFile_Read (f : OpenFile) (numBytes : Z) (d : Disk)
  : Outcome (Z * list Z * OpenFile) :=
  data ← ReadAt f numBytes (seekPosition f) d;
  let result := Z.of_nat (length data) in
  Done (result, data, mkOpenFile (hdr f) (seekPosition f + result)).

(** Modelled from the spec: [OpenFile::Write], at the seek position, which
    moves on. *)
Definition OpenFile_Write (f : OpenFile) (from : list Z) (numBytes : Z) (d : Disk)
  : Outcome (Z * OpenFile * Disk) :=
  '(result, d') ← WriteAt f from numBytes (seekPosition f) d;
  Done (result, mkOpenFile (hdr f) (seekPosition f + result), d').

(** ** The bitmap as a file *)

(** Modelled from the spec: whole-object input: the bytes read replace the front of
    the bytes of the object in memory. *)
Definition overlay (read old : list Z) : list Z := read ++ drop (length read) old.

(** Modelled from the spec: the bitmap read from its file. *)
Definition PersistentBitmap_FetchFrom (map : Bitmap) (file : OpenFile) (d : Disk)
  : Outcome Bitmap :=
  let numBytes := Z.of_nat (length map) / BitsInByte in
  bs ← ReadAt file numBytes 0 d;
  Done (take (length map)
             (bits_of_bytes (overlay bs (bytes_of_bits (Z.to_nat numBytes) map)))).

(** Modelled from the spec: [load(file, S)], that is
    [new PersistentBitmap(file, numItems)]. *)
Definition PersistentBitmap_new (file : OpenFile) (numItems : Z) (d : Disk)
  : Outcome Bitmap :=
  PersistentBitmap_FetchFrom (Bitmap_new numItems) file d.

(** Modelled from the spec: [write_back(file)] of the bitmap. *)
Definition PersistentBitmap_WriteBack (map : Bitmap) (file : OpenFile) (d : Disk)
  : Outcome Disk :=
  let numBytes := Z.of_nat (length map) / BitsInByte in
  '(_, d') ← WriteAt file (bytes_of_bits (Z.to_nat numBytes) map) numBytes 0 d;
  Done d'.

(** ** Directories *)

(** Modelled from the spec: an entry of the class [Directory] of [directory.h]
    (3, 6): [inUse], [type] (set for a subdirectory), [sector] and [name]. *)
Record DirectoryEntry : Type := mkDirectoryEntry {
  inUse : bool;
  type : bool;
  sector : Z;
  name : string
}.

(** Modelled from the spec: the table of a directory, a fixed array of entries. *)
Definition Directory : Type := list DirectoryEntry.

(** Modelled from the spec: [sizeof(DirectoryEntry)] for the layout of (6),
    [inUse:bool, type:bool, sector:int, name:char[N]], as a C++ compiler
    lays it out: the two flags in a byte each, two bytes of padding that
    align [sector], the [int], the [N] bytes of the name, and the padding
    that makes the size a multiple of [sizeof(int)]. *)
Definition sizeof_DirectoryEntry : Z :=
  Eval cbv in
    ((sizeof_int + sizeof_int + Z.of_nat FileNameMaxLen + sizeof_int - 1) / sizeof_int)
    * sizeof_int.

(** The macro [DirectoryFileSize] of filesys.cc (line 66). *)
Definition DirectoryFileSize : Z := Eval cbv in sizeof_DirectoryEntry * NumDirEntries.

(** Modelled from the spec: [new Directory(size)], no entry in use. *)
Definition Directory_new (size : Z) : Directory :=
  replicate (Z.to_nat size) (mkDirectoryEntry false false 0 "").

(** Modelled from the spec: a character of a name as a byte. *)
Definition byte_of_char (c : ascii) : Z := Z.of_N (N_of_ascii c).

(** Modelled from the spec: a byte of a name as a character. *)
Definition char_of_byte (b : Z) : ascii := ascii_of_N (Z.to_N b).

(** Modelled from the spec: a name as the directory keeps and compares it: its
    first [FileNameMaxLen] characters (9, names are truncated). *)
Definition truncate (s : string) : string :=
  string_of_list_ascii (take FileNameMaxLen (until_nul (chars s))).

(** Modelled from the spec: the layout of an entry (6): the flags at bytes 0
    and 1, [sector] at byte 4, the name from byte 8 on; the name and the
    padding are filled with NUL. *)
Definition encode_entry (e : DirectoryEntry) : list Z :=
  let nm := map byte_of_char (chars (truncate (name e))) in
  [Z.b2z (inUse e); Z.b2z (type e); 0; 0] ++ encode_int (sector e)
    ++ nm ++ replicate (Z.to_nat sizeof_DirectoryEntry - 8 - length nm) 0.

(** Modelled from the spec: the entry that the bytes of a slot hold. *)
Definition decode_entry (bs : list Z) : DirectoryEntry :=
  mkDirectoryEntry (negb (nth 0 bs 0 =? 0)) (negb (nth 1 bs 0 =? 0))
    (decode_int (take 4 (drop 4 bs)))
    (string_of_list_ascii
       (until_nul (map char_of_byte (take FileNameMaxLen (drop 8 bs))))).

(** Modelled from the spec: a table of [n] entries read from bytes. *)
Fixpoint decode_entries (n : nat) (bs : list Z) : Directory :=
  match n with
  | O => []
  | S k => decode_entry (take (Z.to_nat sizeof_DirectoryEntry) bs)
             :: decode_entries k (drop (Z.to_nat sizeof_DirectoryEntry) bs)
  end.

(** Modelled from the spec: the serialised table. *)
Definition encode_directory (table : Directory) : list Z := flat_map encode_entry table.

(** Modelled from the spec: [fetch_from(file)] of a directory, whole-table
    input. *)
Definition Directory_FetchFrom (table : Directory) (file : OpenFile) (d : Disk)
  : Outcome Directory :=
  bs ← ReadAt file (Z.of_nat (length table) * sizeof_DirectoryEntry) 0 d;
  Done (decode_entries (length table) (overlay bs (encode_directory table))).

(** Modelled from the spec: [write_back(file)] of a directory, whole-table
    output. *)
Definition Directory_WriteBack (table : Directory) (file : OpenFile) (d : Disk)
  : Outcome Disk :=
  '(_, d') ← WriteAt file (encode_directory table)
                     (Z.of_nat (length table) * sizeof_DirectoryEntry) 0 d;
  Done d'.

(** Modelled from the spec: an entry in use whose name matches. *)
Definition name_matches (e : DirectoryEntry) (nm : string) : bool :=
  inUse e && String.eqb (truncate (name e)) (truncate nm).

(** Modelled from the spec: the linear scan of [find_index], counting from [i]. *)
Fixpoint FindIndex_from (table : Directory) (nm : string) (i : Z) : Z :=
  match table with
  | [] => -1
  | e :: rest => if name_matches e nm then i else FindIndex_from rest nm (i + 1)
  end.

(** Modelled from the spec: [find_index(name)]: the slot of the entry, or -1. *)
Definition FindIndex (table : Directory) (nm : string) : Z := FindIndex_from table nm 0.

(** Modelled from the spec: [find(name)]: the sector of the entry, or -1. *)
Definition Find (table : Directory) (nm : string) : Z :=
  let i := FindIndex table nm in
  if i =? -1 then -1
  else match table !! Z.to_nat i with
       | Some e => sector e
       | None => -1
       end.

(** Modelled from the spec: the first slot that is not in use. *)
Fixpoint first_free (table : Directory) (i : nat) : option nat :=
  match table with
  | [] => None
  | e :: rest => if inUse e then first_free rest (S i) else Some i
  end.

(** Modelled from the spec: [add] and [add_dir] (4.3): the entry goes in the
    first free slot; the call fails if the name is present or the table
    full. *)
Definition add_entry (table : Directory) (nm : string) (newSector : Z) (ty : bool)
  : bool * Directory :=
  if negb (FindIndex table nm =? -1) then (false, table)
  else match first_free table 0 with
       | Some i =>
           (true, <[i := mkDirectoryEntry true ty newSector (truncate nm)]> table)
       | None => (false, table)
       end.

(** Modelled from the spec: [add(name, sector)], [type] clear. *)
Definition Directory_Add (table : Directory) (nm : string) (newSector : Z) :=
  add_entry table nm newSector false.

(** Modelled from the spec: [add_dir(name, sector)], [type] set. *)
Definition Directory_AddDir (table : Directory) (nm : string) (newSector : Z) :=
  add_entry table nm newSector true.

(** Modelled from the spec: [remove(name)]: the [inUse] flag of the
    matching slot is cleared. *)
Definition Directory_Remove (table : Directory) (nm : string) : bool * Directory :=
  let i := FindIndex table nm in
  if i =? -1 then (false, table)
  else (true, alter (fun e => mkDirectoryEntry false (type e) (sector e) (name e))
                    (Z.to_nat i) table).

(** ** The file system object *)

(** The fields of [class FileSystem]: the two files kept open, and the table
    of 20 descriptors. *)
Record FileSystem : Type := mkFileSystem {
  freeMapFile : OpenFile;
  directoryFile : OpenFile;
  fileDescriptorTable : list (option OpenFile)
}.

Definition set_fileDescriptorTable (t : list (option OpenFile)) (fs : FileSystem)
  : FileSystem :=
  mkFileSystem (freeMapFile fs) (directoryFile fs) t.

(** [FileSystem::FileSystem(bool format)] (lines 81-150). *)
Definition FileSystem_new (format : bool) (d : Disk) : Outcome (FileSystem * Disk) :=
  if format then
    let freeMap := Bitmap_new NumSectors in
    let directory := Directory_new NumDirEntries in
    let mapHdr := set_level 1 FileHeader_new in
    let dirHdr := set_level 1 FileHeader_new in
    freeMap ← Mark FreeMapSector freeMap;
    freeMap ← Mark DirectorySector freeMap;
    let '(ok, mapHdr, freeMap) := Allocate mapHdr freeMap FreeMapFileSize in
    _ ← ASSERT ok;
    let '(ok, dirHdr, freeMap) := Allocate dirHdr freeMap DirectoryFileSize in
    _ ← ASSERT ok;
    d ← FileHeader_WriteBack mapHdr FreeMapSector d;
    d ← FileHeader_WriteBack dirHdr DirectorySector d;
    freeMapFile ← OpenFile_new FreeMapSector d;
    directoryFile ← OpenFile_new DirectorySector d;
    d ← PersistentBitmap_WriteBack freeMap freeMapFile d;
    d ← Directory_WriteBack directory directoryFile d;
    Done (mkFileSystem freeMapFile directoryFile (replicate 20 None), d)
  else
    freeMapFile ← OpenFile_new FreeMapSector d;
    directoryFile ← OpenFile_new DirectorySector d;
    Done (mkFileSystem freeMapFile directoryFile (replicate 20 None), d).

(** ** [FileSystem::OpenDir] (lines 345-371) *)

Fixpoint skip_delims (s : list ascii) : nat :=
  match s with
  | c :: rest => if Ascii.eqb c slash then S (skip_delims rest) else O
  | [] => O
  end.

Fixpoint span_token (s : list ascii) : nat :=
  match s with
  | c :: rest => if Ascii.eqb c slash || Ascii.eqb c NUL then O else S (span_token rest)
  | [] => O
  end.

(** [strtok(buf + pos, "/")] called with a pointer, as OpenDir calls it each
    time: the start and the length of the next token, if there is one; the
    delimiter that ends the token is overwritten with NUL. *)
Definition strtok (buf : list ascii) (pos : nat)
  : Outcome (option (nat * nat) * list ascii) :=
  if has_nul (drop pos buf) then
    let start := (pos + skip_delims (drop pos buf))%nat in
    c ← index buf (Z.of_nat start);
    if Ascii.eqb c NUL then Done (None, buf)
    else
      let len := span_token (drop start buf) in
      Done (Some (start, len), <[(start + len)%nat := NUL]> buf)
  else Undefined.

(** The loop [while (split != NULL)]; [pos] is where the next [strtok]
    starts.  Every round moves [pos] forward, so [PathMax] rounds are
    enough. *)
Fixpoint OpenDir_loop (fuel : nat) (path : list ascii) (pos : nat)
    (directory : Directory) (sector : Z) (d : Disk) : Outcome (option OpenFile) :=
  match fuel with
  | O => OutOfFuel
  | S k =>
      '(tok, path) ← strtok path pos;
      match tok with
      | None => f ← OpenFile_new sector d; Done (Some f)
      | Some (start, len) =>
          split ← cstring path start;
          let sector := Find directory split in
          if sector =? -1 then Done None
          else
            dirFile ← OpenFile_new sector d;
            directory ← Directory_FetchFrom directory dirFile d;
            OpenDir_loop k path (start + len + 1)%nat directory sector d
      end
  end.

Definition OpenDir (fs : FileSystem) (inpath : string) (d : Disk)
  : Outcome (option OpenFile) :=
  let path := strncpy inpath PathMax in
  directory ← Directory_FetchFrom (Directory_new NumDirEntries) (directoryFile fs) d;
  OpenDir_loop PathMax path 0 directory 1 d.

(** ** [FileSystem::Open], by name (lines 383-411) *)

Definition Open (fs : FileSystem) (name : string) (d : Disk) : Outcome (option OpenFile) :=
  let directory := Directory_new NumDirEntries in
  '(parent, filename) ← SplitPath name;
  dirFile ← OpenDir fs parent d;
  match dirFile with
  | None => Done None
  | Some dirFile =>
      directory ← Directory_FetchFrom directory dirFile d;
      let sector := Find directory filename in
      if 0 <=? sector then f ← OpenFile_new sector d; Done (Some f)
      else Done None
  end.

(** ** [FileSystem::Create] (lines 190-283) *)

(** The value of an [int] in the unsigned type of [sizeof].  [NumDirect] is
    written with [sizeof] (see Geometry), so [SectorSize * NumDirect] is
    unsigned, and line 192 converts [initialSize] before it divides.  The
    type is taken as wide as [int]; a wider one gives another count for a
    negative size, above [NumDirect] as well. *)
Definition to_unsigned (n : Z) : Z := if n <? 0 then n + 4294967296 else n.

(** Lines 225-232: one sector for each level-1 header. *)
Fixpoint Create_level1Sectors (n : nat) (i : Z) (level1Sector : list Z) (freeMap : Bitmap)
  : Outcome (bool * list Z * Bitmap) :=
  match n with
  | O => Done (true, level1Sector, freeMap)
  | S k =>
      let '(s, freeMap) := FindAndSet freeMap in
      level1Sector ← store level1Sector i s;
      if s =? -1 then Done (false, level1Sector, freeMap)
      else Create_level1Sectors k (i + 1) level1Sector freeMap
  end.

(** Lines 245-247: [hdr->dataSectors[i] = level1Sector[i]]. *)
Fixpoint Create_fill (n : nat) (i : Z) (level1Sector : list Z) (hdr : FileHeader)
  : Outcome FileHeader :=
  match n with
  | O => Done hdr
  | S k =>
      s ← index level1Sector i;
      ds ← store (dataSectors hdr) i s;
      Create_fill k (i + 1) level1Sector (set_dataSectors ds hdr)
  end.

(** Lines 252-260: the loop [while (remainFileSize > 0)].  Every round takes
    at least one byte, so [fuel = remainFileSize] rounds are enough. *)
Fixpoint Create_allocate (fuel : nat) (remainFileSize : Z) (level1HdrIdx : Z)
    (level1Hdr : list FileHeader) (freeMap : Bitmap) (success : bool)
  : Outcome (list FileHeader * Bitmap * bool) :=
  match fuel with
  | O => Done (level1Hdr, freeMap, success)
  | S k =>
      if 0 <? remainFileSize then
        let toRequest := if NumDirect * SectorSize <=? remainFileSize
                         then NumDirect * SectorSize else remainFileSize in
        let remainFileSize := remainFileSize - toRequest in
        h ← index level1Hdr level1HdrIdx;
        let '(ok, h, freeMap) := Allocate (set_level 1 h) freeMap toRequest in
        level1Hdr ← store level1Hdr level1HdrIdx h;
        Create_allocate k remainFileSize (level1HdrIdx + 1) level1Hdr freeMap
                        (if ok then success else false)
      else Done (level1Hdr, freeMap, success)
  end.

(** Lines 266-268: [level1Hdr[i].WriteBack(level1Sector[i])]. *)
Fixpoint Create_writeBack (n : nat) (i : Z) (level1Hdr : list FileHeader)
    (level1Sector : list Z) (d : Disk) : Outcome Disk :=
  match n with
  | O => Done d
  | S k =>
      h ← index level1Hdr i;
      s ← index level1Sector i;
      d ← FileHeader_WriteBack h s d;
      Create_writeBack k (i + 1) level1Hdr level1Sector d
  end.

Definition Create (fs : FileSystem) (name : string) (initialSize : Z) (d : Disk)
  : Outcome (bool * Disk) :=
  let NumOfLevel1Hdr := divRoundUp (to_unsigned initialSize) (SectorSize * NumDirect) in
  let level1Hdr := replicate (Z.to_nat NumDirect) FileHeader_new in
  let level1Sector := replicate (Z.to_nat NumDirect) (-1) in
  let directory := Directory_new NumDirEntries in
  '(parent, filename) ← SplitPath name;
  dirFile ← OpenDir fs parent d;
  match dirFile with
  | None => Done (false, d)
  | Some dirFile =>
      directory ← Directory_FetchFrom directory dirFile d;
      if negb (Find directory filename =? -1) then Done (false, d)
      else
        freeMap ← PersistentBitmap_new (freeMapFile fs) NumSectors d;
        let '(sector, freeMap) := FindAndSet freeMap in
        '(level1Flag, level1Sector, freeMap) ←
          Create_level1Sectors (Z.to_nat NumOfLevel1Hdr) 0 level1Sector freeMap;
        if (sector =? -1) || negb level1Flag then Done (false, d)
        else
          let '(added, directory) := Directory_Add directory filename sector in
          if negb added then Done (false, d)
          else
            let hdr := set_level 0 (set_numSectors NumOfLevel1Hdr
                                      (set_numBytes initialSize FileHeader_new)) in
            hdr ← Create_fill (Z.to_nat NumOfLevel1Hdr) 0 level1Sector hdr;
            '(level1Hdr, freeMap, success) ←
              Create_allocate (Z.to_nat initialSize) initialSize 0 level1Hdr freeMap true;
            if (success : bool) then
              d' ← FileHeader_WriteBack hdr sector d;
              d' ← Create_writeBack (Z.to_nat NumOfLevel1Hdr) 0 level1Hdr level1Sector d';
              d' ← Directory_WriteBack directory dirFile d';
              d' ← PersistentBitmap_WriteBack freeMap (freeMapFile fs) d';
              Done (true, d')
            else Done (false, d)
  end.

(** ** [FileSystem::CreateDirectory] (lines 285-343) *)

Definition CreateDirectory (fs : FileSystem) (name parent : string) (d : Disk)
  : Outcome (bool * Disk) :=
  let directory := Directory_new NumDirEntries in
  dirFile ← OpenDir fs parent d;
  match dirFile with
  | None => Done (false, d)
  | Some dirFile =>
      directory ← Directory_FetchFrom directory dirFile d;
      if negb (Find directory name =? -1) then Done (false, d)
      else
        freeMap ← PersistentBitmap_new (freeMapFile fs) NumSectors d;
        let '(sector, freeMap) := FindAndSet freeMap in
        if sector =? -1 then Done (false, d)
        else
          let '(added, directory) := Directory_AddDir directory name sector in
          if negb added then Done (false, d)
          else
            let dirHdr := set_level 1 FileHeader_new in
            let '(ok, dirHdr, freeMap) := Allocate dirHdr freeMap DirectoryFileSize in
            if negb ok then Done (false, d)
            else
              d' ← FileHeader_WriteBack dirHdr sector d;
              d' ← Directory_WriteBack directory dirFile d';
              d' ← PersistentBitmap_WriteBack freeMap (freeMapFile fs) d';
              let newDirectory := Directory_new NumDirEntries in
              newDirFile ← OpenFile_new sector d';
              d' ← Directory_WriteBack newDirectory newDirFile d';
              Done (true, d')
  end.

(** ** [FileSystem::Remove] (lines 427-520) *)

(** What [Remove] acts on: the disk, the console ([cout], one string per
    line), and a history variable, [clears], that records the argument of
    every call of [Bitmap::Clear], in order. *)
Record World : Type := mkWorld {
  disk : Disk;
  cout : list string;
  clears : list Z
}.

Definition set_disk (d : Disk) (w : World) : World := mkWorld d (cout w) (clears w).
Definition print (line : string) (w : World) : World :=
  mkWorld (disk w) (cout w ++ [line]) (clears w).

(** [freeMap->Clear(which)], recorded in the history. *)
Definition Clear_call (which : Z) (freeMap : Bitmap) (w : World) : Outcome (Bitmap * World) :=
  freeMap ← Clear which freeMap;
  Done (freeMap, mkWorld (disk w) (cout w) (clears w ++ [which])).

Fixpoint Clear_all (sectors : list Z) (freeMap : Bitmap) (w : World)
  : Outcome (Bitmap * World) :=
  match sectors with
  | [] => Done (freeMap, w)
  | s :: rest => '(freeMap, w) ← Clear_call s freeMap w; Clear_all rest freeMap w
  end.

(** Modelled from the spec: [FileHeader::Deallocate] of [filehdr.cc] (4.2), which
    clears every bit referenced by [dataSectors[0..numSectors)] and leaves the
    bit of the header's own sector alone. *)
Definition Deallocate (h : FileHeader) (freeMap : Bitmap) (w : World)
  : Outcome (Bitmap * World) :=
  sectors ← listed h;
  Clear_all sectors freeMap w.

(** Lines 472-476: the number of entries in use. *)
Fixpoint count_inUse (table : Directory) : Z :=
  match table with
  | [] => 0
  | e :: rest => if inUse e then 1 + count_inUse rest else count_inUse rest
  end.

(** Lines 487-493: remove every entry in use; what the calls return is
    dropped.  [remove] is the recursive call. *)
Fixpoint Remove_children (remove : string → World → Outcome (bool * World))
    (path : string) (table : Directory) (w : World) : Outcome World :=
  match table with
  | [] => Done w
  | e :: rest =>
      if inUse e then
        nextFilename ← JoinPath path (name e);
        '(_, w) ← remove nextFilename w;
        Remove_children remove path rest w
      else Remove_children remove path rest w
  end.

(** Lines 498-507: the data sectors of each level-1 header of a level-0
    root. *)
Fixpoint Remove_level1 (n : nat) (i : Z) (fileHdr : FileHeader) (freeMap : Bitmap)
    (w : World) : Outcome (Bitmap * World) :=
  match n with
  | O => Done (freeMap, w)
  | S k =>
      s ← index (dataSectors fileHdr) i;
      level1Hdr ← FileHeader_FetchFrom s (disk w);
      '(freeMap, w) ← Deallocate level1Hdr freeMap w;
      Remove_level1 k (i + 1) fileHdr freeMap w
  end.

(** Lines 498-519: free the file's sectors in [freeMap], drop its entry and
    flush both. *)
Definition Remove_finish (fs : FileSystem) (filename : string) (sector : Z)
    (fileHdr : FileHeader) (freeMap : Bitmap) (directory : Directory)
    (dirFile : OpenFile) (w : World) : Outcome (bool * World) :=
  '(freeMap, w) ←
    (if level fileHdr =? 0
     then Remove_level1 (Z.to_nat (numSectors fileHdr)) 0 fileHdr freeMap w
     else Done (freeMap, w));
  '(freeMap, w) ← Deallocate fileHdr freeMap w;
  '(freeMap, w) ← Clear_call sector freeMap w;
  let '(_, directory) := Directory_Remove directory filename in
  d ← PersistentBitmap_WriteBack freeMap (freeMapFile fs) (disk w);
  d ← Directory_WriteBack directory dirFile d;
  Done (true, set_disk d w).

Fixpoint Remove (fuel : nat) (fs : FileSystem) (name : string) (recur : bool) (w : World)
  : Outcome (bool * World) :=
  match fuel with
  | O => OutOfFuel
  | S fuel' =>
      let w := print ("Remove " ++ name) w in
      '(parent, filename) ← SplitPath name;
      let directory := Directory_new NumDirEntries in
      dirFile ← OpenDir fs parent (disk w);
      match dirFile with
      | None => Done (false, print ("Directory " ++ parent ++ " not found!") w)
      | Some dirFile =>
          directory ← Directory_FetchFrom directory dirFile (disk w);
          let sector := Find directory filename in
          let tableIdx := FindIndex directory filename in
          if sector =? -1 then Done (false, print ("File " ++ filename ++ " not found!") w)
          else
            fileHdr ← FileHeader_FetchFrom sector (disk w);
            freeMap ← PersistentBitmap_new (freeMapFile fs) NumSectors (disk w);
            entry ← index directory tableIdx;
            if type entry then
              nextDirFile ← OpenDir fs name (disk w);
              match nextDirFile with
              | None => Undefined
              | Some nextDirFile =>
                  nextDir ← Directory_FetchFrom (Directory_new NumDirEntries)
                                                nextDirFile (disk w);
                  let totalCount := count_inUse nextDir in
                  if negb recur && negb (totalCount =? 0)
                  then Done (false, print (filename ++ ": directory not empty!") w)
                  else
                    w ← Remove_children (fun n => Remove fuel' fs n recur) name nextDir w;
                    Remove_finish fs filename sector fileHdr freeMap directory dirFile w
              end
            else Remove_finish fs filename sector fileHdr freeMap directory dirFile w
      end
  end.

(** ** The descriptor layer (lines 638-675) *)

(** The loop [for (int i = 1; i < 20; ++i)] of [Open(char*, int)]. *)
Fixpoint Open_fd_scan (n : nat) (i : Z) (fp : option OpenFile)
    (table : list (option OpenFile)) : Outcome (Z * list (option OpenFile)) :=
  match n with
  | O => Done (-1, table)
  | S k =>
      slot ← index table i;
      match slot with
      | None => table ← store table i fp; Done (i, table)
      | Some _ => Open_fd_scan k (i + 1) fp table
      end
  end.

(** [FileSystem::Open(char* name, int unused)]. *)
Definition Open_fd (fs : FileSystem) (name : string) (d : Disk) : Outcome (Z * FileSystem) :=
  fp ← Open fs name d;
  '(id, table) ← Open_fd_scan 19 1 fp (fileDescriptorTable fs);
  Done (id, set_fileDescriptorTable table fs).

(** [FileSystem::Write]. *)
Definition Write (fs : FileSystem) (buffer : list Z) (size : Z) (fileid : Z) (d : Disk)
  : Outcome (Z * FileSystem * Disk) :=
  slot ← index (fileDescriptorTable fs) fileid;
  match slot with
  | None => Done (-1, fs, d)
  | Some f =>
      '(result, f, d) ← OpenFile_Write f buffer size d;
      Done (result, set_fileDescriptorTable
                      (<[Z.to_nat fileid := Some f]> (fileDescriptorTable fs)) fs, d)
  end.

(** [FileSystem::Read]; the bytes read are returned next to the count. *)
Definition Read (fs : FileSystem) (size : Z) (fileid : Z) (d : Disk)
  : Outcome (Z * list Z * FileSystem) :=
  slot ← index (fileDescriptorTable fs) fileid;
  match slot with
  | None => Done (-1, [], fs)
  | Some f =>
      '(result, data, f) ← OpenFile_Read f size d;
      Done (result, data, set_fileDescriptorTable
                            (<[Z.to_nat fileid := Some f]> (fileDescriptorTable fs)) fs)
  end.

(** [FileSystem::Close]; the third component is the handle given to
    [delete], if any. *)
Definition Close (fs : FileSystem) (fileid : Z)
  : Outcome (Z * FileSystem * option OpenFile) :=
  slot ← index (fileDescriptorTable fs) fileid;
  match slot with
  | None => Done (0, fs, None)
  | Some f =>
      table ← store (fileDescriptorTable fs) fileid None;
      Done (1, set_fileDescriptorTable table fs, Some f)
  end.

(** ** [FileSystem::RecursiveList] (lines 543-600) *)

(** [RecursiveList] reads the disk, writes to the console, one string per
    line as for [Remove], and keeps the member [isLast], an array of flags
    of which line 546 clears 1024.  [tab] stays below the range of [int]:
    the call at [tab + 4] is behind the write of [isLast[tab / 4 - 1]]. *)
Definition isLast_new : list bool := replicate 1024 false.

(** The escape sequences of lines 584 and 587. *)
Definition blue : string := String "027" "[1;34m".
Definition reset : string := String "027" "[0m".

(** Lines 570-576: the columns to the left of the connector. *)
Fixpoint RecursiveList_indent (n : nat) (j : Z) (isLast : list bool) : Outcome string :=
  match n with
  | O => Done ""%string
  | S k =>
      b ← index isLast j;
      rest ← RecursiveList_indent k (j + 1) isLast;
      Done ((if negb b then "│   " else "    ") ++ rest)%string
  end.

(** Lines 566-596: the loop over the table; [recurse] is the recursive call. *)
Fixpoint RecursiveList_entries
    (recurse : string → Z → list bool → list string → Outcome (list bool * list string))
    (listDirectoryName : string) (tab : Z) (table : Directory) (totalCount : Z)
    (isLast : list bool) (cout : list string) : Outcome (list bool * list string) :=
  match table with
  | [] => Done (isLast, cout)
  | e :: rest =>
      if inUse e then
        let totalCount := totalCount - 1 in
        indent ← RecursiveList_indent (Z.to_nat (Z.quot tab 4 - 1)) 0 isLast;
        let line := (indent ++ (if negb (totalCount =? 0)%Z then "├──" else "└──")
                       ++ (if type e then blue else "") ++ name e
                       ++ (if type e then "/" else "") ++ reset)%string in
        let cout := cout ++ [line] in
        if type e then
          nextDir ← JoinPath listDirectoryName (name e);
          isLast ← store isLast (Z.quot tab 4 - 1) (totalCount =? 0);
          '(isLast, cout) ← recurse nextDir (tab + 4) isLast cout;
          RecursiveList_entries recurse listDirectoryName tab rest totalCount isLast cout
        else RecursiveList_entries recurse listDirectoryName tab rest totalCount isLast cout
      else RecursiveList_entries recurse listDirectoryName tab rest totalCount isLast cout
  end.

(** The result is [isLast] and the console after the call. *)
Fixpoint RecursiveList (fuel : nat) (fs : FileSystem) (d : Disk)
    (listDirectoryName : string) (tab : Z) (isLast : list bool) (cout : list string)
  : Outcome (list bool * list string) :=
  match fuel with
  | O => OutOfFuel
  | S k =>
      let isLast := if tab =? 4 then isLast_new else isLast in
      dirFile ← OpenDir fs listDirectoryName d;
      match dirFile with
      | None => Done (isLast, cout)
      | Some dirFile =>
          directory ← Directory_FetchFrom (Directory_new NumDirEntries) dirFile d;
          RecursiveList_entries (RecursiveList k fs d) listDirectoryName tab directory
            (count_inUse directory) isLast cout
      end
  end.

(** ** Sequences of operations, and what the disk references *)

Inductive Op : Type :=
| OpCreate (name : string) (initialSize : Z)
| OpCreateDirectory (name parent : string)
| OpRemove (name : string) (recur : bool).

Definition run_op (fuel : nat) (fs : FileSystem) (op : Op) (w : World)
  : Outcome (bool * World) :=
  match op with
  | OpCreate name initialSize =>
      '(ok, d) ← Create fs name initialSize (disk w); Done (ok, set_disk d w)
  | OpCreateDirectory name parent =>
      '(ok, d) ← CreateDirectory fs name parent (disk w); Done (ok, set_disk d w)
  | OpRemove name recur => Remove fuel fs name recur w
  end.

(** Runs the operations in order; the flag tells whether every one of them
    returned TRUE. *)
Fixpoint run_ops (fuel : nat) (fs : FileSystem) (ops : list Op) (w : World)
  : Outcome (bool * World) :=
  match ops with
  | [] => Done (true, w)
  | op :: rest =>
      '(ok, w) ← run_op fuel fs op w;
      '(oks, w) ← run_ops fuel fs rest w;
      Done (ok && oks, w)
  end.

(** The indices of the bits that are set, counted from [i]. *)
Fixpoint set_bits (map : Bitmap) (i : Z) : list Z :=
  match map with
  | [] => []
  | b :: rest => if b then i :: set_bits rest (i + 1) else set_bits rest (i + 1)
  end.

(** The sectors set in the bitmap file. *)
Definition allocated (fs : FileSystem) (d : Disk) : Outcome (list Z) :=
  freeMap ← PersistentBitmap_new (freeMapFile fs) NumSectors d;
  Done (set_bits freeMap 0).

Fixpoint listed_children (sectors : list Z) (d : Disk) : Outcome (list Z) :=
  match sectors with
  | [] => Done []
  | s :: rest =>
      h ← FileHeader_FetchFrom s d;
      own ← listed h;
      others ← listed_children rest d;
      Done (own ++ others)
  end.

(** The sectors of the file whose header is in [sector]: the header, the
    sectors it lists and, for a level-0 root, the sectors its level-1 headers
    list. *)
Definition file_sectors (sector : Z) (d : Disk) : Outcome (list Z) :=
  h ← FileHeader_FetchFrom sector d;
  own ← listed h;
  below ← (if level h =? 0 then listed_children own d else Done []);
  Done (sector :: own ++ below).

(** The sectors referenced from the directory in [dirSector], through entries
    in use, down to [fuel] levels of directories. *)
Fixpoint referenced_from (fuel : nat) (dirSector : Z) (d : Disk) : Outcome (list Z) :=
  match fuel with
  | O => OutOfFuel
  | S k =>
      own ← file_sectors dirSector d;
      file ← OpenFile_new dirSector d;
      table ← Directory_FetchFrom (Directory_new NumDirEntries) file d;
      below ← (fix entries (table : Directory) : Outcome (list Z) :=
                 match table with
                 | [] => Done []
                 | e :: rest =>
                     here ← (if inUse e then
                               if type e then referenced_from k (sector e) d
                               else file_sectors (sector e) d
                             else Done []);
                     others ← entries rest;
                     Done (here ++ others)
                 end) table;
      Done (own ++ below)
  end.

(** Everything the disk references: the bitmap file and the tree under the
    root directory. *)
Definition referenced (fuel : nat) (d : Disk) : Outcome (list Z) :=
  map_file ← file_sectors FreeMapSector d;
  tree ← referenced_from fuel DirectorySector d;
  Done (map_file ++ tree).

(** ** A formatted disk, for the examples *)

Definition returned {A} (default : A) (o : Outcome A) : A :=
  match o with
  | Done a => a
  | _ => default
  end.

Definition no_FileSystem : FileSystem :=
  mkFileSystem (mkOpenFile FileHeader_new 0) (mkOpenFile FileHeader_new 0) [].

(** [FileSystem(TRUE)] on a blank disk. *)
Definition formatted : FileSystem * Disk :=
  returned (no_FileSystem, blank_disk) (FileSystem_new true blank_disk).
Definition fs0 : FileSystem := fst formatted.
Definition world0 : World := mkWorld (snd formatted) [] [].

Definition no_OpenFile : OpenFile := mkOpenFile FileHeader_new 0.

(** The handle a lookup returned. *)
Definition handle (o : Outcome (option OpenFile)) : OpenFile :=
  match o with
  | Done (Some f) => f
  | _ => no_OpenFile
  end.

(** The table of the directory [path]. *)
Definition table_of (fs : FileSystem) (path : string) (d : Disk) : Directory :=
  returned [] (Directory_FetchFrom (Directory_new NumDirEntries)
                                   (handle (OpenDir fs path d)) d).

(** The world after the operations [ops], run on the formatted disk. *)
Definition after (ops : list Op) : World :=
  returned world0 ('(_, w) ← run_ops 8 fs0 ops world0; Done w).

(** The file system object after [Open_fd] of [name]. *)
Definition opened (fs : FileSystem) (name : string) (d : Disk) : FileSystem :=
  returned fs ('(_, fs') ← Open_fd fs name d; Done fs').

(** The file system object after [n] calls of [Open_fd] of [name]. *)
Fixpoint opened_times (n : nat) (fs : FileSystem) (name : string) (d : Disk) : FileSystem :=
  match n with
  | O => fs
  | S k => opened_times k (opened fs name d) name d
  end.

(** ** Notions the properties are stated with *)

(** The call did not exhaust its budget. *)
Definition bounded {A} (o : Outcome A) : Prop := o ≠ OutOfFuel.

(** The share of the [k]-th level-1 header when [remain] bytes are left to
    place: a full header, but for the last one, which takes the rest. *)
Definition share (remain k : Z) : Z :=
  if k <? divRoundUp remain (NumDirect * SectorSize) - 1 then NumDirect * SectorSize
  else remain - (divRoundUp remain (NumDirect * SectorSize) - 1) * (NumDirect * SectorSize).

(** [l] does not hold the character [c]. *)
Definition without (c : ascii) (l : list ascii) : Prop :=
  Forall (λ x, Ascii.eqb x c = false) l.

(** The sectors [l] were taken from the bitmap between [freeMap] and
    [freeMap']: each was clear and is now set, none is listed twice, and no
    other bit has changed. *)
Definition taken (freeMap freeMap' : list bool) (l : list Z) : Prop :=
  NoDup l
  ∧ (∀ s, s ∈ l → 0 ≤ s ∧ freeMap !! Z.to_nat s = Some false
                  ∧ freeMap' !! Z.to_nat s = Some true)
  ∧ (∀ j : nat, Z.of_nat j ∉ l → freeMap' !! j = freeMap !! j)
  ∧ length freeMap' = length freeMap.

(** What [JoinPath] appends to the parent before the name. *)
Definition separator (p : list ascii) : list ascii :=
  match last p with
  | Some c => if Ascii.eqb c slash then [] else [slash]
  | None => [slash]
  end.

(** The pieces of a path between its slashes. *)
Fixpoint fields (s : list ascii) : list (list ascii) :=
  match s with
  | [] => [[]]
  | c :: rest =>
      if Ascii.eqb c slash then [] :: fields rest
      else match fields rest with
           | f :: more => (c :: f) :: more
           | [] => [[c]]
           end
  end.

(** The components of a path: the pieces between its slashes that are not
    empty, in order. *)
Definition components (path : list ascii) : list string :=
  map string_of_list_ascii
      (List.filter (λ f, negb (Nat.eqb (length f) 0)) (fields path)).

(** Looking the names up one after the other, each in the directory the one
    before it led to, starting from [directory], whose header is in [sector];
    the handle of the last one, and no handle when a name is not found. *)
Fixpoint walk (names : list string) (directory : Directory) (sector : Z) (d : Disk)
  : Outcome (option OpenFile) :=
  match names with
  | [] => f ← OpenFile_new sector d; Done (Some f)
  | nm :: rest =>
      let sector := Find directory nm in
      if sector =? -1 then Done None
      else
        dirFile ← OpenFile_new sector d;
        directory ← Directory_FetchFrom directory dirFile d;
        walk rest directory sector d
  end.

(** A directory tree as [RecursiveList] draws it: files, and folders with
    what they hold, in the order of the tables. *)
Inductive Tree : Type :=
| File (nm : string)
| Folder (nm : string) (children : Forest)
with Forest : Type :=
| Fnil
| Fcons (t : Tree) (rest : Forest).

Definition is_last (rest : Forest) : bool :=
  match rest with
  | Fnil => true
  | Fcons _ _ => false
  end.

(** The drawing of a forest: a line for each tree, with [└──] for the last
    tree of its forest and [├──] for the others; under a folder, its
    children, moved four columns to the right, with a bar in the first of
    them when the folder is not the last one. *)
Fixpoint render (indent : string) (f : Forest) : list string :=
  match f with
  | Fnil => []
  | Fcons t rest => render_tree indent (is_last rest) t ++ render indent rest
  end
with render_tree (indent : string) (last : bool) (t : Tree) : list string :=
  match t with
  | File nm => [(indent ++ (if last then "└──" else "├──") ++ nm ++ reset)%string]
  | Folder nm children =>
      (indent ++ (if last then "└──" else "├──") ++ blue ++ nm ++ "/" ++ reset)%string
        :: render (indent ++ (if last then "    " else "│   "))%string children
  end.

(** The entries [es], of the directory [path] of the disk, are the forest
    [f]: a file for an entry that is not a directory, a folder for one that
    is, with the entries in use of its table as children. *)
Fixpoint shows (fs : FileSystem) (d : Disk) (path : string) (es : list DirectoryEntry)
    (f : Forest) : Prop :=
  match f, es with
  | Fnil, [] => True
  | Fcons t rest, e :: es' => shows_tree fs d path e t ∧ shows fs d path es' rest
  | _, _ => False
  end
with shows_tree (fs : FileSystem) (d : Disk) (path : string) (e : DirectoryEntry)
    (t : Tree) : Prop :=
  match t with
  | File nm => type e = false ∧ name e = nm
  | Folder nm children =>
      type e = true ∧ name e = nm
      ∧ ∃ nextDir dirFile directory,
          JoinPath path nm = Done nextDir
          ∧ OpenDir fs nextDir d = Done (Some dirFile)
          ∧ Directory_FetchFrom (Directory_new NumDirEntries) dirFile d = Done directory
          ∧ shows fs d nextDir (List.filter inUse directory) children
  end.

(** The number of folders nested in one another. *)
Fixpoint height (f : Forest) : nat :=
  match f with
  | Fnil => 0
  | Fcons t rest => Nat.max (height_tree t) (height rest)
  end
with height_tree (t : Tree) : nat :=
  match t with
  | File _ => 0
  | Folder _ children => S (height children)
  end.

(** The columns that [isLast] stands for. *)
Fixpoint indent_of (flags : list bool) : string :=
  match flags with
  | [] => ""
  | b :: rest => ((if negb b then "│   " else "    ") ++ indent_of rest)%string
  end.

(** The number of bits of the bitmap that are clear. *)
Definition clear_bits (freeMap : list bool) : nat :=
  length (List.filter negb freeMap).

(** ** Notions for what is on the disk *)

(** Every sector of the disk holds [SectorSize] bytes. *)
Definition sized (d : Disk) : Prop :=
  Forall (λ s : Sector, length s = Z.to_nat SectorSize) d.

(** The file is read and written through a header that lists its data
    sectors itself, as the headers of the bitmap file and of the directories
    do. *)
Definition direct (f : OpenFile) : Prop := level (hdr f) ≠ 0.

(** The sectors that the header of the file lists are set in the bitmap. *)
Definition marked (freeMap : list bool) (f : OpenFile) : Prop :=
  ∀ s, s ∈ dataSectors (hdr f) → 0 ≤ s → freeMap !! Z.to_nat s = Some true.

(** The two files share no sector. *)
Definition apart (f g : OpenFile) : Prop :=
  ∀ s, 0 ≤ s → s ∈ dataSectors (hdr f) → s ∉ dataSectors (hdr g).

(** The values of an [int]. *)
Definition int_range (x : Z) : Prop := -2147483648 ≤ x < 2147483648.

(** A header whose fields are [int]s and whose table has [NumDirect]
    entries. *)
Definition header_ok (h : FileHeader) : Prop :=
  int_range (numBytes h) ∧ int_range (numSectors h) ∧ int_range (level h)
  ∧ length (dataSectors h) = Z.to_nat NumDirect
  ∧ Forall int_range (dataSectors h).

(** The bits of the sectors [l] were cleared between [freeMap] and
    [freeMap']: each is clear now, and no other bit has changed. *)
Definition freed (freeMap freeMap' : list bool) (l : list Z) : Prop :=
  (∀ s, s ∈ l → 0 ≤ s ∧ freeMap' !! Z.to_nat s = Some false)
  ∧ (∀ j : nat, Z.of_nat j ∉ l → freeMap' !! j = freeMap !! j)
  ∧ length freeMap' = length freeMap.

(** An entry as it is read back after it was written: [decode_entry] after
    [encode_entry]. *)
Definition stored (e : DirectoryEntry) : DirectoryEntry := decode_entry (encode_entry e).

(** Every sector that holds bytes of the file is a sector of the disk. *)
Definition on_disk (f : OpenFile) (d : Disk) : Prop :=
  ∀ k : nat, Z.of_nat k * SectorSize < FileLength (hdr f) →
    ∃ s, dataSectors (hdr f) !! k = Some s
         ∧ 0 ≤ s < NumSectors ∧ s < Z.of_nat (length d).

(** * Properties *)

(** ** Reasoning about outcomes *)

Lemma bind_Done {A B} (m : Outcome A) (f : A → Outcome B) (b : B) :
  m ≫= f = Done b → ∃ a, m = Done a ∧ f a = Done b.
Proof. destruct m; simpl; intros H; try discriminate. eauto. Qed.

Lemma ASSERT_Done (b : bool) (u : unit) : ASSERT b = Done u → b = true.
Proof. destruct b; simpl; [reflexivity | discriminate]. Qed.

(** Takes a hypothesis [_ = Done _] apart along the binds, matches and
    conditionals of the program on its left. *)
Ltac run_step :=
  match goal with
  | H : Done _ = Done _ |- _ => injection H as H; try subst
  | H : (_, _) = (_, _) |- _ => injection H as H; try subst
  | H : Undefined = Done _ |- _ => discriminate H
  | H : OutOfFuel = Done _ |- _ => discriminate H
  | H : mbind _ _ = Done _ |- _ =>
      let a := fresh "r" in let E := fresh "E" in
      apply bind_Done in H as (a & E & H)
  | H : (let '(_, _) := ?x in _) = Done _ |- _ =>
      let E := fresh "E" in destruct x eqn:E
  | H : (if ?b then _ else _) = Done _ |- _ =>
      let E := fresh "E" in destruct b eqn:E
  | H : match ?x with _ => _ end = Done _ |- _ =>
      let E := fresh "E" in destruct x eqn:E
  end.
Ltac run := repeat run_step.

(** ** C arrays *)

Lemma index_lookup {A} (a : list A) (i : Z) (x : A) :
  0 ≤ i → a !! Z.to_nat i = Some x → index a i = Done x.
Proof.
  intros Hi Hx. unfold index.
  destruct (Z.leb_spec 0 i); [| lia]. rewrite Hx. reflexivity.
Qed.

Lemma index_in_range {A} (a : list A) (i : Z) :
  0 ≤ i < Z.of_nat (length a) → ∃ x, a !! Z.to_nat i = Some x ∧ index a i = Done x.
Proof.
  intros Hi. destruct (lookup_lt_is_Some_2 a (Z.to_nat i)) as [x Hx]; [lia |].
  exists x. split; [exact Hx | apply index_lookup; [lia | exact Hx]].
Qed.

Lemma index_out_of_range {A} (a : list A) (i : Z) :
  ¬ (0 ≤ i < Z.of_nat (length a)) → index a i = Undefined.
Proof.
  intros Hi. unfold index. destruct (Z.leb_spec 0 i); [| reflexivity].
  rewrite lookup_ge_None_2; [reflexivity | lia].
Qed.

Lemma store_in_range {A} (a : list A) (i : Z) (x : A) :
  0 ≤ i < Z.of_nat (length a) → store a i x = Done (<[Z.to_nat i := x]> a).
Proof.
  intros Hi. unfold store.
  destruct (Z.leb_spec 0 i); [| lia]. destruct (Z.ltb_spec i (Z.of_nat (length a))); [| lia].
  reflexivity.
Qed.

Lemma index_Done {A} (a : list A) (i : Z) (x : A) :
  index a i = Done x → 0 ≤ i ∧ a !! Z.to_nat i = Some x.
Proof.
  unfold index. destruct (Z.leb_spec 0 i); [| discriminate].
  destruct (a !! Z.to_nat i); [| discriminate]. intros [= ->]. auto.
Qed.

Lemma store_Done {A} (a a' : list A) (i : Z) (x : A) :
  store a i x = Done a' → 0 ≤ i < Z.of_nat (length a) ∧ a' = <[Z.to_nat i := x]> a.
Proof.
  unfold store. destruct (Z.leb_spec 0 i), (Z.ltb_spec i (Z.of_nat (length a)));
    cbn [andb]; try discriminate. intros [= <-]. auto with lia.
Qed.

Lemma index_insert_ne {A} (a : list A) (i j : Z) (x : A) :
  0 ≤ i → i ≠ j → index (<[Z.to_nat i := x]> a) j = index a j.
Proof.
  intros Hi Hne. unfold index. destruct (Z.leb_spec 0 j); [| reflexivity].
  rewrite list_lookup_insert_ne by lia. reflexivity.
Qed.

Lemma index_insert_eq {A} (a : list A) (i : Z) (x : A) :
  0 ≤ i < Z.of_nat (length a) → index (<[Z.to_nat i := x]> a) i = Done x.
Proof.
  intros Hi. apply index_lookup; [lia |]. apply list_lookup_insert_eq. lia.
Qed.

(** ** Only [Remove] can exhaust its budget *)

(** The loops of every other operation are bounded by their data; their
    models never end in [OutOfFuel]. *)

Lemma bounded_bind {A B} (m : Outcome A) (f : A → Outcome B) :
  bounded m → (∀ a, bounded (f a)) → bounded (m ≫= f).
Proof. unfold bounded. destruct m; simpl; auto. Qed.

Lemma bounded_ASSERT b : bounded (ASSERT b).
Proof. unfold bounded, ASSERT. destruct b; discriminate. Qed.

Lemma bounded_index {A} (a : list A) i : bounded (index a i).
Proof.
  unfold bounded, index. destruct (0 <=? i); [| discriminate].
  destruct (a !! Z.to_nat i); discriminate.
Qed.

Lemma bounded_store {A} (a : list A) i x : bounded (store a i x).
Proof. unfold bounded, store. destruct (_ && _); discriminate. Qed.

Create HintDb bounded.

Ltac bounded_step :=
  match goal with
  | |- bounded (Done _) => discriminate
  | |- bounded Undefined => discriminate
  | |- bounded (mbind _ _) => apply bounded_bind; [| intros]
  | |- bounded (ASSERT _) => apply bounded_ASSERT
  | |- bounded (index _ _) => apply bounded_index
  | |- bounded (store _ _ _) => apply bounded_store
  | |- bounded (match ?x with _ => _ end) => destruct x
  | |- bounded _ => solve [auto with bounded]
  end.
Ltac bounded_tac := intros; repeat bounded_step.

Lemma bounded_strlen buf off : bounded (strlen buf off).
Proof. unfold strlen. bounded_tac. Qed.
Lemma bounded_cstring buf off : bounded (cstring buf off).
Proof. unfold cstring. bounded_tac. Qed.
#[local] Hint Resolve bounded_strlen bounded_cstring : bounded.

Lemma bounded_strcat dest s0 : bounded (strcat dest s0).
Proof. unfold strcat. bounded_tac. Qed.
#[local] Hint Resolve bounded_strcat : bounded.

Lemma bounded_SplitPath fullpath : bounded (SplitPath fullpath).
Proof. unfold SplitPath. bounded_tac. Qed.
Lemma bounded_JoinPath parent name : bounded (JoinPath parent name).
Proof. unfold JoinPath. bounded_tac. Qed.
Lemma bounded_ReadSector d i : bounded (ReadSector d i).
Proof. unfold ReadSector. bounded_tac. Qed.
Lemma bounded_WriteSector d i data : bounded (WriteSector d i data).
Proof. unfold WriteSector. bounded_tac. Qed.
#[local] Hint Resolve bounded_SplitPath bounded_JoinPath bounded_ReadSector
  bounded_WriteSector : bounded.

Lemma bounded_Mark which map : bounded (Mark which map).
Proof. unfold Mark. bounded_tac. Qed.
Lemma bounded_FileHeader_FetchFrom sector d : bounded (FileHeader_FetchFrom sector d).
Proof. unfold FileHeader_FetchFrom. bounded_tac. Qed.
Lemma bounded_FileHeader_WriteBack h sector d : bounded (FileHeader_WriteBack h sector d).
Proof. unfold FileHeader_WriteBack. bounded_tac. Qed.
#[local] Hint Resolve bounded_Mark bounded_FileHeader_FetchFrom
  bounded_FileHeader_WriteBack : bounded.

Lemma bounded_ByteToSector h offset d : bounded (ByteToSector h offset d).
Proof. unfold ByteToSector. bounded_tac. Qed.
Lemma bounded_OpenFile_new sector d : bounded (OpenFile_new sector d).
Proof. unfold OpenFile_new. bounded_tac. Qed.
#[local] Hint Resolve bounded_ByteToSector bounded_OpenFile_new : bounded.

Lemma bounded_read_sectors f n : ∀ i d, bounded (read_sectors f n i d).
Proof. induction n; cbn [read_sectors]; bounded_tac. Qed.
Lemma bounded_write_sectors f n : ∀ i buf d, bounded (write_sectors f n i buf d).
Proof. induction n; cbn [write_sectors]; bounded_tac. Qed.
#[local] Hint Resolve bounded_read_sectors bounded_write_sectors : bounded.

Lemma bounded_ReadAt f numBytes position d : bounded (ReadAt f numBytes position d).
Proof. unfold ReadAt. bounded_tac. Qed.
Lemma bounded_WriteAt f from numBytes position d :
  bounded (WriteAt f from numBytes position d).
Proof. unfold WriteAt. bounded_tac. Qed.
#[local] Hint Resolve bounded_ReadAt bounded_WriteAt : bounded.

Lemma bounded_PersistentBitmap_new file numItems d :
  bounded (PersistentBitmap_new file numItems d).
Proof. unfold PersistentBitmap_new, PersistentBitmap_FetchFrom. bounded_tac. Qed.
Lemma bounded_PersistentBitmap_WriteBack map file d :
  bounded (PersistentBitmap_WriteBack map file d).
Proof. unfold PersistentBitmap_WriteBack. bounded_tac. Qed.
Lemma bounded_Directory_FetchFrom table file d :
  bounded (Directory_FetchFrom table file d).
Proof. unfold Directory_FetchFrom. bounded_tac. Qed.
Lemma bounded_Directory_WriteBack table file d :
  bounded (Directory_WriteBack table file d).
Proof. unfold Directory_WriteBack. bounded_tac. Qed.
#[local] Hint Resolve bounded_PersistentBitmap_new bounded_PersistentBitmap_WriteBack
  bounded_Directory_FetchFrom bounded_Directory_WriteBack : bounded.

(** What [strtok] finds lies inside the buffer, and is not empty. *)
Lemma skip_delims_spec (l : list ascii) :
  has_nul l = true →
  ∃ c, l !! skip_delims l = Some c ∧ Ascii.eqb c slash = false
       ∧ has_nul (drop (skip_delims l) l) = true.
Proof.
  induction l as [| c l IH]; cbn [has_nul existsb skip_delims]; [discriminate |].
  intros H. destruct (Ascii.eqb c slash) eqn:Hc.
  - apply Ascii.eqb_eq in Hc as ->. cbn in H. apply IH in H. exact H.
  - exists c. cbn. auto.
Qed.

Lemma span_token_lt (l : list ascii) :
  has_nul l = true → (span_token l < length l)%nat.
Proof.
  induction l as [| c l IH]; cbn [has_nul existsb span_token length]; [discriminate |].
  intros H. destruct (Ascii.eqb c NUL) eqn:Hn.
  - rewrite orb_true_r. lia.
  - destruct (Ascii.eqb c slash); cbn [orb]; [lia |].
    cbn [orb] in H. apply IH in H. lia.
Qed.

Lemma strtok_token (buf buf' : list ascii) (pos start len : nat) :
  strtok buf pos = Done (Some (start, len), buf') →
  (pos ≤ start ∧ 1 ≤ len ∧ start + len < length buf)%nat ∧ length buf' = length buf.
Proof.
  unfold strtok. destruct (has_nul (drop pos buf)) eqn:Hnul; [| discriminate].
  destruct (skip_delims_spec _ Hnul) as (c & Hc & Hslash & Hnul').
  rewrite lookup_drop in Hc. rewrite drop_drop in Hnul'.
  rewrite (index_lookup _ _ c) by (try lia; rewrite Nat2Z.id; exact Hc).
  cbn [mbind Outcome_bind]. destruct (Ascii.eqb c NUL) eqn:Hc0; [discriminate |].
  intros [= <- <- <-]. rewrite length_insert.
  pose proof (span_token_lt _ Hnul') as Hlt. rewrite length_drop in Hlt.
  apply lookup_lt_Some in Hc as Hstart.
  split; [| reflexivity]. split; [lia |]. split; [| lia].
  rewrite (drop_S _ c) by exact Hc. cbn [span_token]. rewrite Hslash, Hc0. cbn [orb]. lia.
Qed.

Lemma bounded_strtok buf pos : bounded (strtok buf pos).
Proof. unfold strtok. bounded_tac. Qed.
#[local] Hint Resolve bounded_strtok : bounded.

(** Every round of the loop of [OpenDir] moves at least two characters on
    in the buffer: half its length in rounds is enough. *)
Lemma bounded_OpenDir_loop (fuel : nat) :
  ∀ path pos directory sector d,
    (pos ≤ length path)%nat → (length path - pos < 2 * fuel)%nat →
    bounded (OpenDir_loop fuel path pos directory sector d).
Proof.
  induction fuel as [| fuel IH]; intros path pos directory sector d Hpos Hfuel; [lia |].
  cbn [OpenDir_loop].
  destruct (strtok path pos) as [[tok path'] | |] eqn:Hstrtok; cbn [mbind Outcome_bind].
  - destruct tok as [[start len] |]; [| bounded_tac].
    apply strtok_token in Hstrtok as ((Hstart & Hlen & Hend) & Hsame).
    bounded_tac. apply IH; lia.
  - discriminate.
  - exfalso. exact (bounded_strtok path pos Hstrtok).
Qed.

Lemma bounded_OpenDir fs inpath d : bounded (OpenDir fs inpath d).
Proof.
  unfold OpenDir. bounded_tac. apply bounded_OpenDir_loop; [lia |].
  unfold strncpy, PathMax.
  rewrite length_app, length_replicate, length_take. lia.
Qed.
#[local] Hint Resolve bounded_OpenDir : bounded.

Lemma bounded_Open fs name d : bounded (Open fs name d).
Proof. unfold Open. bounded_tac. Qed.
#[local] Hint Resolve bounded_Open : bounded.

Lemma bounded_Create_level1Sectors n :
  ∀ i level1Sector freeMap, bounded (Create_level1Sectors n i level1Sector freeMap).
Proof. induction n; cbn [Create_level1Sectors]; bounded_tac. Qed.
Lemma bounded_Create_fill n :
  ∀ i level1Sector hdr, bounded (Create_fill n i level1Sector hdr).
Proof. induction n; cbn [Create_fill]; bounded_tac. Qed.
Lemma bounded_Create_allocate fuel :
  ∀ remain idx level1Hdr freeMap success,
    bounded (Create_allocate fuel remain idx level1Hdr freeMap success).
Proof. induction fuel; cbn [Create_allocate]; bounded_tac. Qed.
Lemma bounded_Create_writeBack n :
  ∀ i level1Hdr level1Sector d, bounded (Create_writeBack n i level1Hdr level1Sector d).
Proof. induction n; cbn [Create_writeBack]; bounded_tac. Qed.
#[local] Hint Resolve bounded_Create_level1Sectors bounded_Create_fill
  bounded_Create_allocate bounded_Create_writeBack : bounded.

(** [Create] and [CreateDirectory] return, or have no defined result. *)
Lemma bounded_Create fs name initialSize d : bounded (Create fs name initialSize d).
Proof. unfold Create. bounded_tac. Qed.

Lemma bounded_CreateDirectory fs name parent d :
  bounded (CreateDirectory fs name parent d).
Proof. unfold CreateDirectory. bounded_tac. Qed.

Lemma bounded_Open_fd_scan n : ∀ i fp table, bounded (Open_fd_scan n i fp table).
Proof. induction n; cbn [Open_fd_scan]; bounded_tac. Qed.
#[local] Hint Resolve bounded_Open_fd_scan : bounded.

Lemma bounded_Open_fd fs name d : bounded (Open_fd fs name d).
Proof. unfold Open_fd. bounded_tac. Qed.

(** ** C2: a failed [Create] leaves the disk alone *)

(** C2.  If [Create] returns FALSE, whatever the reason, the disk it leaves
    is the disk it found: the bitmap file and every directory file, the
    parent's among them, read as before the call. *)
Theorem Create_failure_atomic (fs : FileSystem) (name : string) (initialSize : Z)
    (d d' : Disk) :
  Create fs name initialSize d = Done (false, d') →
  d' = d
  ∧ allocated fs d' = allocated fs d
  ∧ ∀ table dirFile,
      Directory_FetchFrom table dirFile d' = Directory_FetchFrom table dirFile d.
Proof.
  intros H.
  assert (d' = d) as ->; [| auto].
  unfold Create in H. run; congruence.
Qed.

(** A second [Create] of [/a] fails (the name is there) and changes
    nothing. *)
Lemma Create_failure_atomic_witness :
  let d := disk (after [OpCreate "/a" 100]) in
  Create fs0 "/a" 100 d = Done (false, d)
  ∧ d = d
  ∧ allocated fs0 d = allocated fs0 d
  ∧ ∀ table dirFile,
      Directory_FetchFrom table dirFile d = Directory_FetchFrom table dirFile d.
Proof.
  intros d. split; [vm_compute; reflexivity |].
  apply (Create_failure_atomic fs0 "/a" 100 d d). vm_compute; reflexivity.
Defined.

(** ** C6: [Remove] without [recur] on a directory that is not empty *)

(** C6.  [name] resolves to an entry of its parent that is a directory,
    and that directory has an entry in use.  Then [Remove(name, FALSE)]
    prints "directory not empty", returns FALSE and changes nothing: the disk
    is the one it found (bitmap, parent directory and target directory with
    it) and no bit was cleared. *)
Theorem Remove_directory_not_empty (fuel : nat) (fs : FileSystem) (name : string)
    (w : World) (parent filename : string) (dirFile nextDirFile : OpenFile)
    (directory nextDir : Directory) (entry : DirectoryEntry)
    (fileHdr : FileHeader) (freeMap : Bitmap) :
  SplitPath name = Done (parent, filename) →
  OpenDir fs parent (disk w) = Done (Some dirFile) →
  Directory_FetchFrom (Directory_new NumDirEntries) dirFile (disk w) = Done directory →
  Find directory filename ≠ -1 →
  index directory (FindIndex directory filename) = Done entry →
  type entry = true →
  FileHeader_FetchFrom (Find directory filename) (disk w) = Done fileHdr →
  PersistentBitmap_new (freeMapFile fs) NumSectors (disk w) = Done freeMap →
  OpenDir fs name (disk w) = Done (Some nextDirFile) →
  Directory_FetchFrom (Directory_new NumDirEntries) nextDirFile (disk w) = Done nextDir →
  count_inUse nextDir ≠ 0 →
  ∃ w', Remove (S fuel) fs name false w = Done (false, w')
        ∧ disk w' = disk w
        ∧ clears w' = clears w
        ∧ cout w' = cout w ++ [("Remove " ++ name)%string;
                               (filename ++ ": directory not empty!")%string].
Proof.
  intros Hsplit Hparent Hdir Hfound Hentry Htype Hhdr Hmap Hnext Hnextdir Hcount.
  eexists. split.
  - cbn [Remove]. rewrite Hsplit. cbn [mbind Outcome_bind print disk].
    rewrite Hparent. cbn [mbind Outcome_bind]. rewrite Hdir. cbn [mbind Outcome_bind].
    destruct (Z.eqb_spec (Find directory filename) (-1)) as [? | _]; [contradiction |].
    rewrite Hhdr. cbn [mbind Outcome_bind]. rewrite Hmap. cbn [mbind Outcome_bind].
    rewrite Hentry. cbn [mbind Outcome_bind]. rewrite Htype.
    rewrite Hnext. cbn [mbind Outcome_bind]. rewrite Hnextdir. cbn [mbind Outcome_bind].
    destruct (Z.eqb_spec (count_inUse nextDir) 0) as [? | _]; [contradiction |].
    cbn [negb andb]. reflexivity.
  - cbn. rewrite <- app_assoc. auto.
Qed.

Lemma Remove_directory_not_empty_witness :
  let w := after [OpCreateDirectory "d" "/"; OpCreate "/d/x" 10] in
  ∃ w', Remove 1 fs0 "/d" false w = Done (false, w')
        ∧ disk w' = disk w
        ∧ clears w' = clears w
        ∧ cout w' = cout w ++ ["Remove /d"; "d: directory not empty!"]%string.
Proof.
  intros w.
  pose (root := table_of fs0 "/" (disk w)).
  apply (Remove_directory_not_empty 0 fs0 "/d" w "/" "d"
           (handle (OpenDir fs0 "/" (disk w))) (handle (OpenDir fs0 "/d" (disk w)))
           root (table_of fs0 "/d" (disk w))
           (returned (mkDirectoryEntry false false 0 "") (index root (FindIndex root "d")))
           (returned FileHeader_new (FileHeader_FetchFrom (Find root "d") (disk w)))
           (returned [] (PersistentBitmap_new (freeMapFile fs0) NumSectors (disk w))));
    vm_compute; (reflexivity || discriminate).
Defined.

(** ** The descriptor table *)

(** The scan of [Open_fd] stops at the first free slot, whatever [fp] is. *)
Lemma Open_fd_scan_lowest (fp : option OpenFile) (table : list (option OpenFile)) :
  ∀ (k n : nat) (i : Z),
    0 ≤ i → (k < n)%nat →
    (∀ j, (j < k)%nat → ∃ f, table !! (Z.to_nat i + j)%nat = Some (Some f)) →
    table !! (Z.to_nat i + k)%nat = Some None →
    Open_fd_scan n i fp table
    = Done (i + Z.of_nat k, <[(Z.to_nat i + k)%nat := fp]> table).
Proof.
  induction k as [| k IH]; intros n i Hi Hn Hbusy Hfree.
  - destruct n as [| n]; [lia |]. cbn [Open_fd_scan].
    rewrite Nat.add_0_r in Hfree |- *. rewrite Z.add_0_r.
    rewrite (index_lookup _ _ _ Hi Hfree). cbn [mbind Outcome_bind].
    rewrite store_in_range; [reflexivity |].
    apply lookup_lt_Some in Hfree. lia.
  - destruct n as [| n]; [lia |]. cbn [Open_fd_scan].
    destruct (Hbusy 0%nat) as [f Hf]; [lia |]. rewrite Nat.add_0_r in Hf.
    rewrite (index_lookup _ _ _ Hi Hf). cbn [mbind Outcome_bind].
    rewrite (IH n (i + 1)); [| lia | lia | |].
    + f_equal. f_equal; [lia |]. f_equal. lia.
    + intros j Hj. destruct (Hbusy (S j)) as [g Hg]; [lia |].
      exists g. rewrite <- Hg. f_equal. lia.
    + rewrite <- Hfree. f_equal. lia.
Qed.

(** C1.  The source stores [fp] and returns the slot without looking at
    [fp]: when [Open] fails (returns NULL) and slot [i] is the lowest free
    slot of [1..20), [Open_fd] returns [i], not -1.  The table is left as it
    was, the slot still empty. *)
Theorem Open_fd_failed_open (fs : FileSystem) (name : string) (d : Disk) (i : Z) :
  Open fs name d = Done None →
  1 ≤ i < 20 →
  (∀ j, 1 ≤ j < i → ∃ f, fileDescriptorTable fs !! Z.to_nat j = Some (Some f)) →
  fileDescriptorTable fs !! Z.to_nat i = Some None →
  Open_fd fs name d = Done (i, fs) ∧ i ≠ -1.
Proof.
  intros Hopen Hi Hbusy Hfree. split; [| lia].
  unfold Open_fd. rewrite Hopen. cbn [mbind Outcome_bind].
  rewrite (Open_fd_scan_lowest None _ (Z.to_nat (i - 1)) 19 1); [| lia | lia | |].
  - cbn [mbind Outcome_bind]. f_equal. f_equal; [lia |].
    destruct fs as [mf df table]. unfold set_fileDescriptorTable. cbn in *. f_equal.
    replace (Z.to_nat 1 + Z.to_nat (i - 1))%nat with (Z.to_nat i) by lia.
    apply list_insert_id. exact Hfree.
  - intros j Hj. destruct (Hbusy (1 + Z.of_nat j)) as [f Hf]; [lia |].
    exists f. rewrite <- Hf. f_equal. lia.
  - rewrite <- Hfree. f_equal. lia.
Qed.

Lemma Open_fd_failed_open_witness :
  Open fs0 "/nofile" (disk world0) = Done None
  ∧ Open_fd fs0 "/nofile" (disk world0) = Done (1, fs0) ∧ 1 ≠ -1.
Proof.
  split; [vm_compute; reflexivity |].
  apply (Open_fd_failed_open fs0 "/nofile" (disk world0) 1).
  - vm_compute; reflexivity.
  - lia.
  - intros j Hj. lia.
  - vm_compute; reflexivity.
Defined.

(** C8.  For a descriptor in [1..20): [Close] of an empty slot returns 0 and
    changes nothing; [Close] of a slot that holds a handle deletes that
    handle, empties the slot and returns 1, and a second [Close] of the same
    descriptor then returns 0. *)
Theorem Close_twice (fs : FileSystem) (fileid : Z) :
  length (fileDescriptorTable fs) = 20%nat →
  1 ≤ fileid < 20 →
  (fileDescriptorTable fs !! Z.to_nat fileid = Some None →
   Close fs fileid = Done (0, fs, None))
  ∧ (∀ f, fileDescriptorTable fs !! Z.to_nat fileid = Some (Some f) →
       ∃ fs', Close fs fileid = Done (1, fs', Some f)
              ∧ fileDescriptorTable fs'
                = <[Z.to_nat fileid := None]> (fileDescriptorTable fs)
              ∧ freeMapFile fs' = freeMapFile fs
              ∧ directoryFile fs' = directoryFile fs
              ∧ Close fs' fileid = Done (0, fs', None)).
Proof.
  intros Hlen Hid. split.
  - intros Hslot. unfold Close. rewrite (index_lookup _ _ None); [reflexivity | lia | exact Hslot].
  - intros f Hslot.
    exists (set_fileDescriptorTable (<[Z.to_nat fileid := None]> (fileDescriptorTable fs)) fs).
    repeat split.
    + unfold Close. rewrite (index_lookup _ _ (Some f)); [| lia | exact Hslot].
      cbn [mbind Outcome_bind]. rewrite store_in_range; [reflexivity | lia].
    + unfold Close. rewrite (index_lookup _ _ None); [reflexivity | lia |].
      cbn [set_fileDescriptorTable fileDescriptorTable].
      apply list_lookup_insert_eq. lia.
Qed.

Lemma Close_twice_witness :
  let d := disk (after [OpCreate "/a" 100]) in
  let fs := opened fs0 "/a" d in
  length (fileDescriptorTable fs) = 20%nat
  ∧ 1 ≤ 1 < 20
  ∧ fileDescriptorTable fs !! Z.to_nat 1 = Some (Some (handle (Open fs0 "/a" d)))
  ∧ ∃ fs', Close fs 1 = Done (1, fs', Some (handle (Open fs0 "/a" d)))
           ∧ fileDescriptorTable fs' = <[Z.to_nat 1 := None]> (fileDescriptorTable fs)
           ∧ freeMapFile fs' = freeMapFile fs
           ∧ directoryFile fs' = directoryFile fs
           ∧ Close fs' 1 = Done (0, fs', None).
Proof.
  intros d fs.
  split; [vm_compute; reflexivity |]. split; [lia |]. split; [vm_compute; reflexivity |].
  apply (Close_twice fs 1); [vm_compute; reflexivity | lia | vm_compute; reflexivity].
Defined.

(** C10.  [Write], [Read] and [Close] index the table of 20 descriptors
    with [fileid] as it comes.  The access is inside the table exactly when
    [0 <= fileid < 20]; for any other [fileid] all three index outside the
    table, and nothing in them stops that. *)
Theorem descriptor_index_unchecked (fs : FileSystem) (buffer : list Z) (size fileid : Z)
    (d : Disk) :
  length (fileDescriptorTable fs) = 20%nat →
  (0 ≤ fileid < 20 ↔ ∃ slot, index (fileDescriptorTable fs) fileid = Done slot)
  ∧ (0 ≤ fileid < 20 → ∃ r, Close fs fileid = Done r)
  ∧ (¬ (0 ≤ fileid < 20) →
     Write fs buffer size fileid d = Undefined
     ∧ Read fs size fileid d = Undefined
     ∧ Close fs fileid = Undefined).
Proof.
  intros Hlen. split; [split |]; [| | split].
  - intros Hid. destruct (index_in_range (fileDescriptorTable fs) fileid) as (x & _ & Hx); [lia |].
    eauto.
  - intros [slot Hslot]. destruct (decide (0 ≤ fileid < 20)) as [? | Hout]; [assumption |].
    rewrite index_out_of_range in Hslot; [discriminate | lia].
  - intros Hid. destruct (index_in_range (fileDescriptorTable fs) fileid) as (x & _ & Hx); [lia |].
    unfold Close. rewrite Hx. cbn [mbind Outcome_bind]. destruct x; [| eauto].
    rewrite store_in_range; [| lia]. cbn [mbind Outcome_bind]. eauto.
  - intros Hout. unfold Write, Read, Close.
    rewrite index_out_of_range; [| lia]. repeat split.
Qed.

Lemma descriptor_index_unchecked_witness :
  length (fileDescriptorTable fs0) = 20%nat
  ∧ (0 ≤ 20 < 20 ↔ ∃ slot, index (fileDescriptorTable fs0) 20 = Done slot)
  ∧ (0 ≤ 20 < 20 → ∃ r, Close fs0 20 = Done r)
  ∧ (¬ (0 ≤ 20 < 20) →
     Write fs0 [65] 1 20 (disk world0) = Undefined
     ∧ Read fs0 1 20 (disk world0) = Undefined
     ∧ Close fs0 20 = Undefined).
Proof.
  split; [vm_compute; reflexivity |].
  apply (descriptor_index_unchecked fs0 [65] 1 20 (disk world0)).
  vm_compute; reflexivity.
Defined.

(** ** C3: a recursive [Remove] leaks the sectors of the children *)

(** C3.  On a freshly formatted disk, make the directory [/d], create the
    file [/d/x] and remove [/d] with [recur].  All three calls return TRUE.
    Before the removal the bits set in the bitmap file are the sectors the
    disk references.  After it nothing but the bitmap file and the empty root
    directory is referenced (sectors 0 to 12), yet sectors 24, 25 and 26, the
    headers and the data sector of [/d/x], are still set in the bitmap
    file: the outer call loaded its bitmap before the inner call ran (line
    463) and writes that copy back over the inner call's (line 513). *)
Theorem recursive_Remove_leaks :
  let made := [OpCreateDirectory "d" "/"; OpCreate "/d/x" 10] in
  let ops := made ++ [OpRemove "/d" true] in
  run_ops 8 fs0 made world0 = Done (true, after made)
  ∧ allocated fs0 (disk (after made))
    = Done [0; 1; 2; 3; 4; 5; 6; 7; 8; 9; 10; 11; 12; 13; 14; 15; 16; 17; 18; 19; 20; 21; 22;
            23; 24; 25; 26]
  ∧ referenced 8 (disk (after made))
    = Done [0; 2; 1; 3; 4; 5; 6; 7; 8; 9; 10; 11; 12; 13; 14; 15; 16; 17; 18; 19; 20; 21; 22;
            23; 24; 25; 26]
  ∧ run_ops 8 fs0 ops world0 = Done (true, after ops)
  ∧ allocated fs0 (disk (after ops))
    = Done [0; 1; 2; 3; 4; 5; 6; 7; 8; 9; 10; 11; 12; 24; 25; 26]
  ∧ referenced 8 (disk (after ops)) = Done [0; 2; 1; 3; 4; 5; 6; 7; 8; 9; 10; 11; 12].
Proof.
  intros made ops.
  split; [vm_compute; reflexivity |]. split; [vm_compute; reflexivity |].
  split; [vm_compute; reflexivity |]. split; [vm_compute; reflexivity |].
  split; vm_compute; reflexivity.
Qed.

(** ** The end of [Remove], and its loop over the children *)

(** [Remove_finish] has one way to return, with TRUE. *)
Lemma Remove_finish_true (fs : FileSystem) (filename : string) (sector : Z)
    (fileHdr : FileHeader) (freeMap : Bitmap) (directory : Directory)
    (dirFile : OpenFile) (w : World) (r : bool * World) :
  Remove_finish fs filename sector fileHdr freeMap directory dirFile w = Done r →
  fst r = true.
Proof. unfold Remove_finish. intros H. run; reflexivity. Qed.

(** The loop over the children does not look at what the calls return: two
    removal functions that leave the same world behave alike in it. *)
Lemma Remove_children_drops_results
    (remove remove' : string → World → Outcome (bool * World))
    (path : string) (table : Directory) :
  (∀ n w, (remove n w ≫= λ r, Done (snd r)) = (remove' n w ≫= λ r, Done (snd r))) →
  ∀ w, Remove_children remove path table w = Remove_children remove' path table w.
Proof.
  intros Hsame. induction table as [| e rest IH]; intros w; [reflexivity |].
  cbn [Remove_children]. destruct (inUse e); [| apply IH].
  destruct (JoinPath path (name e)) as [n | |]; cbn [mbind Outcome_bind]; try reflexivity.
  specialize (Hsame n w).
  destruct (remove n w) as [[b w1] | |], (remove' n w) as [[b' w1'] | |];
    cbn [mbind Outcome_bind snd] in *; try discriminate; try reflexivity.
  injection Hsame as ->. apply IH.
Qed.

(** ** The calls of [Clear] that [Remove] makes *)

Lemma Clear_all_spec (sectors : list Z) :
  ∀ (freeMap : Bitmap) (w : World) (freeMap' : Bitmap) (w' : World),
    Clear_all sectors freeMap w = Done (freeMap', w') →
    disk w' = disk w ∧ cout w' = cout w ∧ clears w' = clears w ++ sectors.
Proof.
  induction sectors as [| s rest IH]; intros freeMap w freeMap' w' H; cbn [Clear_all] in H.
  - injection H as _ <-. rewrite app_nil_r. auto.
  - apply bind_Done in H as ([fm1 w1] & Hcall & H).
    unfold Clear_call in Hcall. apply bind_Done in Hcall as (fm2 & _ & Hcall).
    injection Hcall as _ <-.
    apply IH in H as (Hd & Hc & Hl). cbn in *.
    rewrite Hd, Hc, Hl, <- app_assoc. auto.
Qed.

Lemma Deallocate_spec (h : FileHeader) (freeMap : Bitmap) (w : World)
    (freeMap' : Bitmap) (w' : World) :
  Deallocate h freeMap w = Done (freeMap', w') →
  ∃ sectors, listed h = Done sectors
             ∧ disk w' = disk w ∧ cout w' = cout w ∧ clears w' = clears w ++ sectors.
Proof.
  unfold Deallocate. intros H. apply bind_Done in H as (sectors & Hl & H).
  exists sectors. split; [exact Hl | exact (Clear_all_spec _ _ _ _ _ H)].
Qed.

(** The loop over the level-1 headers clears what they list, header after
    header, and nothing else. *)
Lemma Remove_level1_spec (fileHdr : FileHeader) (n : nat) :
  ∀ (i : Z) (freeMap : Bitmap) (w : World) (freeMap' : Bitmap) (w' : World),
    Remove_level1 n i fileHdr freeMap w = Done (freeMap', w') →
    ∃ level1 data,
      listed_from fileHdr n i = Done level1
      ∧ listed_children level1 (disk w) = Done data
      ∧ disk w' = disk w ∧ cout w' = cout w ∧ clears w' = clears w ++ data.
Proof.
  induction n as [| n IH]; intros i freeMap w freeMap' w' H; cbn [Remove_level1] in H.
  - injection H as _ <-. exists [], []. rewrite app_nil_r. auto.
  - apply bind_Done in H as (s & Hs & H).
    apply bind_Done in H as (level1Hdr & Hfetch & H).
    apply bind_Done in H as ([fm1 w1] & Hdealloc & H).
    apply Deallocate_spec in Hdealloc as (own & Hown & Hd1 & Hc1 & Hl1).
    apply IH in H as (level1 & data & Hlevel1 & Hdata & Hd & Hc & Hl).
    exists (s :: level1), (own ++ data).
    cbn [listed_from listed_children]. rewrite Hs. cbn [mbind Outcome_bind].
    rewrite Hlevel1. cbn [mbind Outcome_bind].
    rewrite Hfetch. cbn [mbind Outcome_bind]. rewrite Hown. cbn [mbind Outcome_bind].
    rewrite <- Hd1, Hdata. cbn [mbind Outcome_bind].
    rewrite Hd, Hc, Hl, Hd1, Hc1, Hl1, <- app_assoc. auto.
Qed.

(** ** The loops of [Create] *)

Lemma to_unsigned_nonneg (n : Z) : 0 ≤ n → to_unsigned n = n.
Proof. intros H. unfold to_unsigned. destruct (Z.ltb_spec n 0); lia. Qed.

(** [divRoundUp] is the ceiling of the quotient. *)
Lemma divRoundUp_ceil (n s : Z) : 0 ≤ n → 0 < s → divRoundUp n s = (n + s - 1) / s.
Proof.
  intros Hn Hs. unfold divRoundUp.
  rewrite Z.quot_div_nonneg, Z.rem_mod_nonneg by lia.
  pose proof (Z.div_mod n s ltac:(lia)) as Hdm.
  pose proof (Z.mod_pos_bound n s Hs) as Hb.
  destruct (Z.ltb_spec 0 (n mod s)).
  - apply (Z.div_unique _ _ _ (n mod s - 1)); lia.
  - apply (Z.div_unique _ _ _ (s - 1)); lia.
Qed.

Ltac capacity :=
  change (NumDirect * SectorSize) with 3712 in *;
  change (SectorSize * NumDirect) with 3712 in *.

Lemma divRoundUp_positive (n : Z) :
  0 < n →
  3712 * (divRoundUp n 3712 - 1) < n ≤ 3712 * divRoundUp n 3712.
Proof.
  intros Hn. unfold divRoundUp.
  destruct (Z.ltb_spec 0 (Z.rem n 3712)); Z.to_euclidean_division_equations; lia.
Qed.

Lemma divRoundUp_not_positive (n : Z) : n ≤ 0 → divRoundUp n 3712 ≤ 0.
Proof.
  intros Hn. unfold divRoundUp.
  destruct (Z.ltb_spec 0 (Z.rem n 3712)); Z.to_euclidean_division_equations; lia.
Qed.

Lemma Allocate_loop_fields (n : nat) :
  ∀ (i : nat) (h : FileHeader) (freeMap : Bitmap) ok h' freeMap',
    Allocate_loop n i h freeMap = (ok, h', freeMap') →
    numBytes h' = numBytes h ∧ numSectors h' = numSectors h ∧ level h' = level h.
Proof.
  induction n as [| n IH]; intros i h freeMap ok h' freeMap' H; cbn [Allocate_loop] in H.
  - injection H as _ <- _. auto.
  - destruct (FindAndSet freeMap) as [s fm1]. destruct (s =? -1).
    + injection H as _ <- _. auto.
    + apply IH in H. exact H.
Qed.

Lemma Allocate_fields (h : FileHeader) (freeMap : Bitmap) (fileSize : Z) ok h' freeMap' :
  Allocate h freeMap fileSize = (ok, h', freeMap') →
  numBytes h' = fileSize ∧ numSectors h' = divRoundUp fileSize SectorSize
  ∧ level h' = level h.
Proof.
  unfold Allocate. destruct (NumDirect <? divRoundUp fileSize SectorSize).
  - intros [= _ <- _]. auto.
  - intros H. apply Allocate_loop_fields in H. exact H.
Qed.

(** Once an [Allocate] has failed, [success] stays FALSE. *)
Lemma Create_allocate_success (fuel : nat) :
  ∀ remain idx level1Hdr freeMap success level1Hdr' freeMap',
    Create_allocate fuel remain idx level1Hdr freeMap success
    = Done (level1Hdr', freeMap', true) →
    success = true.
Proof.
  induction fuel as [| fuel IH]; intros remain idx hdrs fm success hdrs' fm' H;
    cbn [Create_allocate] in H.
  - congruence.
  - destruct (0 <? remain); [| congruence].
    apply bind_Done in H as (h & _ & H).
    destruct (Allocate _ _ _) as [[ok h1] fm1].
    apply bind_Done in H as (hdrs1 & _ & H).
    apply IH in H. destruct ok; [exact H | discriminate].
Qed.

(** One round of the loop of lines 252-260. *)
Lemma toRequest_step (remain : Z) :
  0 < remain →
  let toRequest := if NumDirect * SectorSize <=? remain then NumDirect * SectorSize
                   else remain in
  0 < toRequest
  ∧ share remain 0 = toRequest
  ∧ divRoundUp (remain - toRequest) (NumDirect * SectorSize)
    = divRoundUp remain (NumDirect * SectorSize) - 1
  ∧ ∀ k, 1 ≤ k < divRoundUp remain (NumDirect * SectorSize) →
         share (remain - toRequest) (k - 1) = share remain k.
Proof.
  intros Hpos. unfold share. capacity. cbv zeta.
  pose proof (divRoundUp_positive remain Hpos) as Hq.
  destruct (Z.leb_spec 3712 remain) as [Hfull | Hlast].
  - assert (divRoundUp (remain - 3712) 3712 = divRoundUp remain 3712 - 1) as Hstep.
    { destruct (Z.eq_dec remain 3712) as [-> | Hne].
      - reflexivity.
      - pose proof (divRoundUp_positive (remain - 3712) ltac:(lia)). lia. }
    rewrite Hstep. split; [lia |]. split; [| split; [reflexivity |]].
    + destruct (Z.ltb_spec 0 (divRoundUp remain 3712 - 1)); lia.
    + intros k Hk.
      destruct (Z.ltb_spec (k - 1) (divRoundUp remain 3712 - 1 - 1)),
               (Z.ltb_spec k (divRoundUp remain 3712 - 1)); lia.
  - replace (remain - remain) with 0 by lia.
    assert (divRoundUp remain 3712 = 1) as -> by lia.
    split; [lia |]. split; [destruct (Z.ltb_spec 0 (1 - 1)); lia |].
    split; [reflexivity | intros k Hk; lia].
Qed.

(** The loop of lines 252-260 ends by itself: with [remainFileSize] rounds to
    spend it stops because nothing remains, and more rounds change nothing. *)
Lemma Create_allocate_round (fuel : nat) remain idx level1Hdr freeMap success :
  Create_allocate (S fuel) remain idx level1Hdr freeMap success
  = if 0 <? remain then
      let toRequest := if NumDirect * SectorSize <=? remain
                       then NumDirect * SectorSize else remain in
      h ← index level1Hdr idx;
      let '(ok, h, freeMap) := Allocate (set_level 1 h) freeMap toRequest in
      level1Hdr ← store level1Hdr idx h;
      Create_allocate fuel (remain - toRequest) (idx + 1) level1Hdr freeMap
                      (if ok then success else false)
    else Done (level1Hdr, freeMap, success).
Proof. reflexivity. Qed.

Lemma Create_allocate_rounds (fuel : nat) :
  ∀ remain idx level1Hdr freeMap success,
    remain ≤ Z.of_nat fuel →
    Create_allocate (S fuel) remain idx level1Hdr freeMap success
    = Create_allocate fuel remain idx level1Hdr freeMap success.
Proof.
  induction fuel as [| fuel IH]; intros remain idx hdrs fm success Hfuel.
  - rewrite Create_allocate_round. cbn [Create_allocate].
    destruct (Z.ltb_spec 0 remain); [exfalso; lia | reflexivity].
  - rewrite (Create_allocate_round (S fuel)), (Create_allocate_round fuel).
    destruct (Z.ltb_spec 0 remain) as [Hpos | _]; [| reflexivity].
    destruct (toRequest_step remain Hpos) as (Hreq & _). cbv zeta.
    destruct (index hdrs idx) as [h | |]; cbn [mbind Outcome_bind]; try reflexivity.
    destruct (Allocate _ _ _) as [[ok h1] fm1].
    destruct (store hdrs idx h1) as [hdrs1 | |]; cbn [mbind Outcome_bind]; try reflexivity.
    apply IH. lia.
Qed.

Lemma Create_allocate_spec (fuel : nat) :
  ∀ remain idx level1Hdr freeMap success level1Hdr' freeMap',
    0 ≤ idx → remain ≤ Z.of_nat fuel →
    Create_allocate fuel remain idx level1Hdr freeMap success
    = Done (level1Hdr', freeMap', true) →
    (∀ j, 0 ≤ j < idx → index level1Hdr' j = index level1Hdr j)
    ∧ ∀ k, 0 ≤ k < divRoundUp remain (NumDirect * SectorSize) →
        ∃ h, index level1Hdr' (idx + k) = Done h
             ∧ level h = 1
             ∧ numBytes h = share remain k
             ∧ numSectors h = divRoundUp (share remain k) SectorSize.
Proof.
  induction fuel as [| fuel IH]; intros remain idx hdrs fm success hdrs' fm' Hidx Hfuel H;
    cbn [Create_allocate] in H.
  - injection H as <- _ _. split; [auto |]. intros k Hk. exfalso.
    pose proof (divRoundUp_not_positive remain ltac:(lia)). capacity. lia.
  - destruct (Z.ltb_spec 0 remain) as [Hpos | Hneg].
    2:{ injection H as <- _ _. split; [auto |]. intros k Hk. exfalso.
        pose proof (divRoundUp_not_positive remain Hneg). capacity. lia. }
    destruct (toRequest_step remain Hpos) as (Hreq & Hfirst & Hstep & Hshare).
    set (toRequest := if NumDirect * SectorSize <=? remain then NumDirect * SectorSize
                      else remain) in *.
    apply bind_Done in H as (h0 & Hh0 & H).
    destruct (Allocate _ _ _) as [[ok h1] fm1] eqn:Halloc.
    apply bind_Done in H as (hdrs1 & Hstore & H).
    pose proof (Create_allocate_success _ _ _ _ _ _ _ _ H) as Hok.
    destruct ok; [| discriminate].
    apply Allocate_fields in Halloc as (Hbytes & Hsectors & Hlevel).
    apply store_Done in Hstore as (Hrange & ->).
    apply IH in H as (Hkeep & Hrest); [| lia | lia].
    split.
    + intros j Hj. rewrite Hkeep by lia. unfold index.
      destruct (Z.leb_spec 0 j); [| reflexivity].
      rewrite list_lookup_insert_ne by lia. reflexivity.
    + intros k Hk. destruct (Z.eq_dec k 0) as [-> | Hk0].
      * exists h1. rewrite Z.add_0_r, Hkeep by lia. rewrite Hfirst.
        split; [| auto].
        apply index_lookup; [lia |]. apply list_lookup_insert_eq. lia.
      * destruct (Hrest (k - 1)) as (h & Hh & Hl & Hb & Hs); [lia |].
        exists h. replace (idx + k) with (idx + 1 + (k - 1)) by lia.
        rewrite Hshare in Hb, Hs by lia. auto.
Qed.

Lemma Create_level1Sectors_spec (n : nat) :
  ∀ i level1Sector freeMap level1Sector' freeMap',
    0 ≤ i →
    Create_level1Sectors n i level1Sector freeMap = Done (true, level1Sector', freeMap') →
    (∀ j, 0 ≤ j < i → index level1Sector' j = index level1Sector j)
    ∧ ∀ j, i ≤ j < i + Z.of_nat n → ∃ s, index level1Sector' j = Done s ∧ s ≠ -1.
Proof.
  induction n as [| n IH]; intros i l fm l' fm' Hi H; cbn [Create_level1Sectors] in H.
  - injection H as <- _. split; [auto | intros j Hj; lia].
  - destruct (FindAndSet fm) as [s fm1].
    apply bind_Done in H as (l1 & Hstore & H).
    destruct (Z.eqb_spec s (-1)) as [_ | Hs]; [discriminate |].
    apply store_Done in Hstore as (Hrange & ->).
    apply IH in H as (Hkeep & Hrest); [| lia].
    split.
    + intros j Hj. rewrite Hkeep by lia. apply index_insert_ne; lia.
    + intros j Hj. destruct (Z.eq_dec j i) as [-> | Hne].
      * exists s. rewrite Hkeep by lia. split; [apply index_insert_eq; lia | exact Hs].
      * apply Hrest. lia.
Qed.

Lemma Create_fill_spec (n : nat) :
  ∀ i level1Sector hdr hdr',
    0 ≤ i →
    Create_fill n i level1Sector hdr = Done hdr' →
    numBytes hdr' = numBytes hdr ∧ numSectors hdr' = numSectors hdr
    ∧ level hdr' = level hdr
    ∧ (∀ j, 0 ≤ j < i → index (dataSectors hdr') j = index (dataSectors hdr) j)
    ∧ ∀ j, i ≤ j < i + Z.of_nat n →
        ∃ s, index level1Sector j = Done s ∧ index (dataSectors hdr') j = Done s.
Proof.
  induction n as [| n IH]; intros i l hdr hdr' Hi H; cbn [Create_fill] in H.
  - injection H as <-. repeat split; auto. intros j Hj; lia.
  - apply bind_Done in H as (s & Hs & H). apply bind_Done in H as (ds & Hstore & H).
    apply store_Done in Hstore as (Hrange & ->).
    apply IH in H as (Hb & Hn & Hl & Hkeep & Hrest); [| lia].
    cbn [set_dataSectors numBytes numSectors level dataSectors] in *.
    split; [exact Hb |]. split; [exact Hn |]. split; [exact Hl |]. split.
    + intros j Hj. rewrite Hkeep by lia. apply index_insert_ne; lia.
    + intros j Hj. destruct (Z.eq_dec j i) as [-> | Hne].
      * exists s. rewrite Hkeep by lia. split; [exact Hs | apply index_insert_eq; lia].
      * apply Hrest. lia.
Qed.

(** ** Sectors taken from the bitmap *)

Lemma taken_nil (freeMap : list bool) : taken freeMap freeMap [].
Proof.
  split; [constructor |]. split; [| auto]. intros s Hs. inversion Hs.
Qed.

Lemma taken_kept (fm fm' : list bool) (l : list Z) (j : nat) :
  taken fm fm' l → fm !! j = Some true → fm' !! j = Some true.
Proof.
  intros (_ & Hs & Hframe & _) Hj.
  destruct (decide (Z.of_nat j ∈ l)) as [Hin | Hout].
  - destruct (Hs _ Hin) as (_ & Hclear & _). rewrite Nat2Z.id in Hclear. congruence.
  - rewrite (Hframe _ Hout). exact Hj.
Qed.

Lemma taken_app (fm fm1 fm2 : list bool) (l1 l2 : list Z) :
  taken fm fm1 l1 → taken fm1 fm2 l2 → taken fm fm2 (l1 ++ l2).
Proof.
  intros H1 H2. pose proof H1 as (Hn1 & Hs1 & Hm1 & Hl1).
  pose proof H2 as (Hn2 & Hs2 & Hm2 & Hl2).
  split; [| split; [| split]].
  - apply NoDup_app. split; [exact Hn1 |]. split; [| exact Hn2].
    intros s Hin1 Hin2.
    destruct (Hs1 s Hin1) as (_ & _ & Hset). destruct (Hs2 s Hin2) as (_ & Hclear & _).
    congruence.
  - intros s Hin. apply elem_of_app in Hin as [Hin | Hin].
    + destruct (Hs1 s Hin) as (H0 & Hclear & Hset).
      split; [exact H0 |]. split; [exact Hclear |]. exact (taken_kept _ _ _ _ H2 Hset).
    + destruct (Hs2 s Hin) as (H0 & Hclear & Hset). split; [exact H0 |]. split; [| exact Hset].
      destruct (fm !! Z.to_nat s) as [[|] |] eqn:E.
      * apply (taken_kept _ _ _ _ H1) in E. congruence.
      * reflexivity.
      * apply lookup_ge_None in E. apply lookup_lt_Some in Hclear. lia.
  - intros j Hj. rewrite elem_of_app in Hj.
    rewrite Hm2, Hm1 by tauto. reflexivity.
  - congruence.
Qed.

Lemma first_clear_spec (map : list bool) :
  ∀ i j, first_clear map i = Some j →
         i ≤ j ∧ map !! Z.to_nat (j - i) = Some false.
Proof.
  induction map as [| b map IH]; intros i j H; cbn [first_clear] in H; [discriminate |].
  destruct b.
  - apply IH in H as (Hle & Hj). split; [lia |].
    replace (Z.to_nat (j - i)) with (S (Z.to_nat (j - (i + 1)))) by lia. exact Hj.
  - injection H as <-. rewrite Z.sub_diag. auto with lia.
Qed.

Lemma FindAndSet_taken (freeMap freeMap' : list bool) (s : Z) :
  FindAndSet freeMap = (s, freeMap') →
  (s = -1 ∧ freeMap' = freeMap) ∨ (s ≠ -1 ∧ taken freeMap freeMap' [s]).
Proof.
  unfold FindAndSet, Bitmap in *. destruct (first_clear freeMap 0) as [i |] eqn:E.
  - intros [= <- <-]. apply first_clear_spec in E as (Hi & Hclear).
    rewrite Z.sub_0_r in Hclear. right. split; [lia |].
    apply lookup_lt_Some in Hclear as Hlt.
    split; [apply NoDup_singleton |]. split; [| split].
    + intros s Hs. apply list_elem_of_singleton in Hs as ->.
      split; [exact Hi |]. split; [exact Hclear |].
      apply list_lookup_insert_eq. exact Hlt.
    + intros j Hj. rewrite list_elem_of_singleton in Hj.
      apply list_lookup_insert_ne. lia.
    + apply length_insert.
  - intros [= <- <-]. left. auto.
Qed.

(** The sectors [Allocate] gives a header are taken from the bitmap and are
    the sectors the header lists. *)
Lemma Allocate_loop_taken (n : nat) :
  ∀ (i : nat) (h : FileHeader) (freeMap : Bitmap) h' freeMap',
    Allocate_loop n i h freeMap = (true, h', freeMap') →
    (i + n ≤ length (dataSectors h))%nat →
    ∃ l, taken freeMap freeMap' l
         ∧ length (dataSectors h') = length (dataSectors h)
         ∧ take i (dataSectors h') = take i (dataSectors h)
         ∧ take n (drop i (dataSectors h')) = l.
Proof.
  induction n as [| n IH]; intros i h fm h' fm' H Hlen; cbn [Allocate_loop] in H.
  - injection H as <- <-. exists []. split; [apply taken_nil |]. auto.
  - destruct (FindAndSet fm) as [s fm1] eqn:Hs. destruct (Z.eqb_spec s (-1)); [discriminate |].
    apply FindAndSet_taken in Hs as [[? _] | [_ Hs]]; [contradiction |].
    apply IH in H as (l & Hl & Hsame & Hbelow & Hrest);
      cbn [set_dataSectors dataSectors] in *; rewrite ?length_insert in *; [| lia].
    exists (s :: l). split; [exact (taken_app _ _ _ [s] l Hs Hl) |].
    split; [exact Hsame |].
    assert (dataSectors h' !! i = Some s) as Hi.
    { apply (f_equal (λ t, t !! i)) in Hbelow.
      rewrite !lookup_take_lt, list_lookup_insert_eq in Hbelow by lia. exact Hbelow. }
    split.
    + apply (f_equal (take i)) in Hbelow.
      rewrite !take_take, Nat.min_l, take_insert_ge in Hbelow by lia. exact Hbelow.
    + rewrite (drop_S _ s) by exact Hi. cbn [take]. rewrite Hrest. reflexivity.
Qed.

Lemma listed_from_take (h : FileHeader) (n : nat) :
  ∀ i : nat, (i + n ≤ length (dataSectors h))%nat →
             listed_from h n (Z.of_nat i) = Done (take n (drop i (dataSectors h))).
Proof.
  induction n as [| n IH]; intros i Hlen; cbn [listed_from]; [reflexivity |].
  destruct (lookup_lt_is_Some_2 (dataSectors h) i ltac:(lia)) as [s Hs].
  rewrite (index_lookup _ _ s) by (try lia; rewrite Nat2Z.id; exact Hs).
  cbn [mbind Outcome_bind].
  replace (Z.of_nat i + 1) with (Z.of_nat (S i)) by lia. rewrite IH by lia.
  cbn [mbind Outcome_bind]. rewrite (drop_S _ s i) by exact Hs. reflexivity.
Qed.

Lemma Allocate_taken (h : FileHeader) (freeMap : Bitmap) (fileSize : Z) h' freeMap' :
  Allocate h freeMap fileSize = (true, h', freeMap') →
  length (dataSectors h) = Z.to_nat NumDirect →
  ∃ l, listed h' = Done l ∧ taken freeMap freeMap' l
       ∧ length (dataSectors h') = Z.to_nat NumDirect.
Proof.
  intros H Hlen. pose proof (Allocate_fields _ _ _ _ _ _ H) as (_ & Hsectors & _).
  unfold Allocate in H.
  destruct (Z.ltb_spec NumDirect (divRoundUp fileSize SectorSize)); [discriminate |].
  apply Allocate_loop_taken in H as (l & Hl & Hsame & _ & Hlisted);
    cbn [set_numSectors set_numBytes dataSectors] in *; [| lia].
  exists l. split; [| split; [exact Hl | congruence]].
  unfold listed. rewrite Hsectors, <- Hlisted.
  apply (listed_from_take h' _ 0%nat). lia.
Qed.

Lemma Create_level1Sectors_taken (n : nat) :
  ∀ (i : nat) level1Sector (freeMap : list bool) level1Sector' freeMap',
    Create_level1Sectors n (Z.of_nat i) level1Sector freeMap
    = Done (true, level1Sector', freeMap') →
    taken freeMap freeMap' (take n (drop i level1Sector'))
    ∧ length level1Sector' = length level1Sector
    ∧ take i level1Sector' = take i level1Sector.
Proof.
  induction n as [| n IH]; intros i l fm l' fm' H; cbn [Create_level1Sectors] in H.
  - injection H as <- <-. split; [apply taken_nil | auto].
  - destruct (FindAndSet fm) as [s fm1] eqn:Hs.
    apply bind_Done in H as (l1 & Hstore & H).
    destruct (Z.eqb_spec s (-1)); [discriminate |].
    apply FindAndSet_taken in Hs as [[? _] | [_ Hs]]; [contradiction |].
    apply store_Done in Hstore as (Hrange & ->). rewrite Nat2Z.id in H.
    replace (Z.of_nat i + 1) with (Z.of_nat (S i)) in H by lia.
    apply IH in H as (Hl & Hsame & Hbelow). rewrite length_insert in Hsame.
    assert (l' !! i = Some s) as Hi.
    { apply (f_equal (λ t, t !! i)) in Hbelow.
      rewrite !lookup_take_lt, list_lookup_insert_eq in Hbelow by lia. exact Hbelow. }
    split; [| split; [exact Hsame |]].
    + rewrite (drop_S _ s) by exact Hi. cbn [take]. exact (taken_app _ _ _ [s] _ Hs Hl).
    + apply (f_equal (take i)) in Hbelow.
      rewrite !take_take, Nat.min_l, take_insert_ge in Hbelow by lia. exact Hbelow.
Qed.

Lemma listed_from_copy (h : FileHeader) (l : list Z) (n : nat) :
  ∀ i : nat,
    (∀ j, Z.of_nat i ≤ j < Z.of_nat i + Z.of_nat n →
          ∃ s, index l j = Done s ∧ index (dataSectors h) j = Done s) →
    listed_from h n (Z.of_nat i) = Done (take n (drop i l)).
Proof.
  induction n as [| n IH]; intros i Hcopy; cbn [listed_from]; [reflexivity |].
  destruct (Hcopy (Z.of_nat i)) as (s & Hl & Hh); [lia |].
  rewrite Hh. cbn [mbind Outcome_bind].
  replace (Z.of_nat i + 1) with (Z.of_nat (S i)) by lia.
  rewrite IH by (intros j Hj; apply Hcopy; lia). cbn [mbind Outcome_bind].
  apply index_Done in Hl as (_ & Hl). rewrite Nat2Z.id in Hl.
  rewrite (drop_S _ s i) by exact Hl. reflexivity.
Qed.

(** The level-1 headers that the loop of lines 252-260 fills list sectors
    taken from the bitmap, one batch after the other. *)
Lemma Create_allocate_taken (fuel : nat) :
  ∀ remain (idx : nat) level1Hdr (freeMap : list bool) success level1Hdr' freeMap',
    remain ≤ Z.of_nat fuel →
    Forall (λ h, length (dataSectors h) = Z.to_nat NumDirect) level1Hdr →
    Create_allocate fuel remain (Z.of_nat idx) level1Hdr freeMap success
    = Done (level1Hdr', freeMap', true) →
    ∃ batches : list (list Z),
      taken freeMap freeMap' (concat batches)
      ∧ Z.of_nat (length batches) = Z.max 0 (divRoundUp remain (NumDirect * SectorSize))
      ∧ ∀ k batch, batches !! k = Some batch →
          ∃ h, level1Hdr' !! (idx + k)%nat = Some h ∧ listed h = Done batch.
Proof.
  induction fuel as [| fuel IH];
    intros remain idx hdrs fm success hdrs' fm' Hfuel Hlen H; cbn [Create_allocate] in H.
  - injection H as <- <- _. exists []. split; [apply taken_nil |].
    pose proof (divRoundUp_not_positive remain ltac:(lia)). capacity.
    split; [cbn [length]; lia | intros k batch Hk; inversion Hk].
  - destruct (Z.ltb_spec 0 remain) as [Hpos | Hneg].
    2:{ injection H as <- <- _. exists []. split; [apply taken_nil |].
        pose proof (divRoundUp_not_positive remain Hneg). capacity.
        split; [cbn [length]; lia | intros k batch Hk; inversion Hk]. }
    destruct (toRequest_step remain Hpos) as (Hreq & _ & Hstep & _).
    pose proof (divRoundUp_positive remain Hpos) as Hq.
    set (toRequest := if NumDirect * SectorSize <=? remain then NumDirect * SectorSize
                      else remain) in *.
    apply bind_Done in H as (h0 & Hh0 & H).
    destruct (Allocate _ _ _) as [[ok h1] fm1] eqn:Halloc.
    apply bind_Done in H as (hdrs1 & Hstore & H).
    pose proof (Create_allocate_success _ _ _ _ _ _ _ _ H) as Hok.
    destruct ok; [| discriminate].
    apply index_Done in Hh0 as (_ & Hh0). rewrite Nat2Z.id in Hh0.
    apply Allocate_taken in Halloc as (batch & Hlisted & Htaken & Hlen1).
    2:{ cbn [set_level dataSectors]. exact (proj1 (Forall_lookup _ _) Hlen _ _ Hh0). }
    apply store_Done in Hstore as (Hrange & ->). rewrite Nat2Z.id in H.
    replace (Z.of_nat idx + 1) with (Z.of_nat (S idx)) in H by lia.
    assert (remain - toRequest ≤ Z.of_nat fuel) as Hfuel' by lia.
    pose proof (Create_allocate_spec _ _ _ _ _ _ _ _ (Nat2Z.is_nonneg (S idx))
                  Hfuel' H) as (Hkeep & _).
    apply IH in H as (batches & Hrest & Hcount & Hbatches); [| exact Hfuel' |].
    2:{ apply Forall_insert; assumption. }
    exists (batch :: batches). split; [| split].
    + cbn [concat]. exact (taken_app _ _ _ _ _ Htaken Hrest).
    + cbn [length]. capacity. lia.
    + intros k b Hk. destruct k as [| k]; cbn in Hk.
      * injection Hk as <-. exists h1. split; [| exact Hlisted].
        specialize (Hkeep (Z.of_nat idx) ltac:(lia)).
        assert (index (<[idx := h1]> hdrs) (Z.of_nat idx) = Done h1) as Hnew.
        { apply index_lookup; [lia |]. rewrite Nat2Z.id. apply list_lookup_insert_eq. lia. }
        rewrite Hnew in Hkeep.
        apply index_Done in Hkeep as (_ & Hkeep). rewrite Nat2Z.id in Hkeep.
        rewrite Nat.add_0_r. exact Hkeep.
      * destruct (Hbatches k b Hk) as (h & Hh & Hl). exists h.
        replace (idx + S k)%nat with (S idx + k)%nat by lia. auto.
Qed.

(** ** C7: [SplitPath] *)

Lemma until_nul_without (l : list ascii) : without NUL (until_nul l).
Proof.
  induction l as [| c l IH]; cbn [until_nul]; [constructor |].
  destruct (Ascii.eqb c NUL) eqn:E; constructor; assumption.
Qed.

Lemma until_nul_app (p rest : list ascii) :
  without NUL p → until_nul (p ++ NUL :: rest) = p.
Proof.
  induction 1 as [| c p Hc _ IH]; cbn [app until_nul].
  - rewrite Ascii.eqb_refl. reflexivity.
  - rewrite Hc, IH. reflexivity.
Qed.

Lemma has_nul_app (p rest : list ascii) : has_nul (p ++ NUL :: rest) = true.
Proof.
  unfold has_nul. rewrite existsb_app. cbn [existsb]. rewrite Ascii.eqb_refl.
  apply orb_true_r.
Qed.

Lemma has_nul_without (p : list ascii) : without NUL p → has_nul p = false.
Proof.
  unfold has_nul. induction 1 as [| c p Hc _ IH]; cbn [existsb]; [reflexivity |].
  rewrite Hc, IH. reflexivity.
Qed.

Lemma without_take (c : ascii) (n : nat) (l : list ascii) : without c l → without c (take n l).
Proof. apply Forall_take. Qed.

(** The buffer [strncpy] fills from a string shorter than the buffer. *)
Lemma strncpy_short (src : string) (n : nat) :
  (length (until_nul (chars src)) < n)%nat →
  ∃ rest, strncpy src n = until_nul (chars src) ++ NUL :: rest.
Proof.
  intros Hlen. unfold strncpy. rewrite take_ge by lia.
  destruct (n - length (until_nul (chars src)))%nat as [| k] eqn:E; [lia |].
  exists (replicate k NUL). reflexivity.
Qed.

Lemma strlen_app (p rest : list ascii) :
  without NUL p → strlen (p ++ NUL :: rest) 0 = Done (Z.of_nat (length p)).
Proof.
  intros Hp. unfold strlen. rewrite drop_0, has_nul_app, until_nul_app by exact Hp.
  reflexivity.
Qed.

Lemma cstring_app (p rest : list ascii) :
  without NUL p → cstring (p ++ NUL :: rest) 0 = Done (string_of_list_ascii p).
Proof.
  intros Hp. unfold cstring. rewrite drop_0, has_nul_app, until_nul_app by exact Hp.
  reflexivity.
Qed.

(** The scan runs down to -1 when no character before [n] is a slash. *)
Lemma SplitPath_scan_none (p rest : list ascii) (n : nat) :
  without slash p → (n ≤ length p)%nat → SplitPath_scan (p ++ rest) n = -1.
Proof.
  intros Hp. induction n as [| n IH]; intros Hn; cbn [SplitPath_scan]; [reflexivity |].
  destruct (lookup_lt_is_Some_2 p n ltac:(lia)) as [c Hc].
  rewrite lookup_app_l by lia. rewrite Hc.
  rewrite (proj1 (Forall_lookup _ _) Hp n c Hc). apply IH. lia.
Qed.

(** It stops at the last slash. *)
Lemma SplitPath_scan_last (a b rest : list ascii) (m : nat) :
  without slash b → (m ≤ length b)%nat →
  SplitPath_scan (a ++ slash :: b ++ rest) (length a + 1 + m) = Z.of_nat (length a).
Proof.
  intros Hb. induction m as [| m IH]; intros Hm.
  - rewrite Nat.add_0_r, Nat.add_1_r. cbn [SplitPath_scan].
    rewrite list_lookup_middle by reflexivity. rewrite Ascii.eqb_refl. reflexivity.
  - replace (length a + 1 + S m)%nat with (S (length a + 1 + m)) by lia.
    cbn [SplitPath_scan].
    destruct (lookup_lt_is_Some_2 b m ltac:(lia)) as [c Hc].
    replace (a ++ slash :: b ++ rest) with ((a ++ [slash]) ++ b ++ rest)
      by (rewrite <- app_assoc; reflexivity).
    rewrite lookup_app_r by (rewrite length_app; cbn; lia).
    rewrite length_app. cbn [length].
    replace (length a + 1 + m - (length a + 1))%nat with m by lia.
    rewrite lookup_app_l by lia. rewrite Hc.
    rewrite (proj1 (Forall_lookup _ _) Hb m c Hc).
    rewrite <- app_assoc. apply IH. lia.
Qed.

(** C7.  A path with no slash: the scan ends with [idx = -1] and the
    source stores NUL in [parent[-1]], outside the buffer; the call has no
    defined result, and the parent is not made "/" (in the buffer it still
    reads as the whole path). *)
Theorem SplitPath_without_slash (fullpath : string) :
  without slash (until_nul (chars fullpath)) →
  SplitPath fullpath = Undefined
  ∧ SplitPath fullpath ≠ Done ("/"%string, fullpath).
Proof.
  intros Hslash.
  assert (SplitPath fullpath = Undefined) as H; [| rewrite H; split; [reflexivity | discriminate]].
  unfold SplitPath.
  destruct (Nat.lt_ge_cases (length (until_nul (chars fullpath))) PathMax) as [Hshort | Hlong].
  - destruct (strncpy_short fullpath PathMax Hshort) as [rest ->].
    rewrite strlen_app by apply until_nul_without. cbn [mbind Outcome_bind].
    rewrite Nat2Z.id, SplitPath_scan_none by (auto; lia). reflexivity.
  - assert (strlen (strncpy fullpath PathMax) 0 = Undefined) as ->; [| reflexivity].
    unfold strlen. rewrite drop_0.
    rewrite has_nul_without; [reflexivity |].
    unfold strncpy. apply Forall_app. split.
    + apply without_take, until_nul_without.
    + rewrite length_take, Nat.min_l by lia. rewrite Nat.sub_diag. constructor.
Qed.

Lemma SplitPath_without_slash_witness :
  without slash (until_nul (chars "foo"))
  ∧ SplitPath "foo" = Undefined
  ∧ SplitPath "foo" ≠ Done ("/"%string, "foo"%string).
Proof.
  assert (without slash (until_nul (chars "foo"))) as H by (repeat constructor).
  split; [exact H | exact (SplitPath_without_slash "foo" H)].
Defined.

(** For a path with a slash the source does what C7 says: the name is what
    follows the last slash, the parent what precedes it, or "/" when nothing
    does. *)
Lemma SplitPath_at_last_slash (fullpath : string) (a b : list ascii) :
  until_nul (chars fullpath) = a ++ slash :: b →
  without slash b →
  (length a + 1 + length b < PathMax)%nat →
  SplitPath fullpath
  = Done (match a with
          | [] => "/"%string
          | _ => string_of_list_ascii a
          end, string_of_list_ascii b).
Proof.
  intros Hpath Hb Hlen.
  pose proof (until_nul_without (chars fullpath)) as Hnul. rewrite Hpath in Hnul.
  apply Forall_app in Hnul as [Ha Hnulb]. apply Forall_cons in Hnulb as [_ Hnulb].
  unfold SplitPath.
  destruct (strncpy_short fullpath PathMax) as [rest ->].
  { rewrite Hpath, length_app. cbn [length]. lia. }
  rewrite strlen_app by apply until_nul_without. cbn [mbind Outcome_bind].
  rewrite Nat2Z.id, Hpath, <- !app_assoc. cbn [app].
  replace (length (a ++ slash :: b)) with (length a + 1 + length b)%nat
    by (rewrite length_app; cbn [length]; lia).
  rewrite SplitPath_scan_last by (auto; lia).
  rewrite store_in_range by (rewrite length_app; cbn [length]; lia).
  cbn [mbind Outcome_bind]. rewrite Nat2Z.id.
  rewrite insert_app_r_alt, Nat.sub_diag by lia. cbn [insert list_insert].
  assert (cstring (a ++ NUL :: b ++ NUL :: rest) (Z.to_nat (Z.of_nat (length a) + 1))
          = Done (string_of_list_ascii b)) as ->.
  { replace (Z.to_nat (Z.of_nat (length a) + 1)) with (length (a ++ [NUL]))
      by (rewrite length_app; cbn [length]; lia).
    unfold cstring.
    replace (a ++ NUL :: b ++ NUL :: rest) with ((a ++ [NUL]) ++ b ++ NUL :: rest)
      by (rewrite <- app_assoc; reflexivity).
    rewrite drop_app_length, has_nul_app, until_nul_app by exact Hnulb. reflexivity. }
  cbn [mbind Outcome_bind]. rewrite strlen_app, cstring_app by exact Ha.
  cbn [mbind Outcome_bind]. destruct a as [| c a]; reflexivity.
Qed.

(** * Further properties of the code *)

(** ** [SplitPath] and [JoinPath] *)

Lemma until_nul_id (l : list ascii) : without NUL l → until_nul l = l.
Proof.
  induction 1 as [| c l Hc _ IH]; cbn [until_nul]; [reflexivity |].
  rewrite Hc, IH. reflexivity.
Qed.

Lemma chars_string (l : list ascii) : chars (string_of_list_ascii l) = l.
Proof. apply list_ascii_of_string_of_list_ascii. Qed.

(** X1.  A path that holds a slash and fits its buffer is split at its last
    slash: the name is what follows it, the parent what precedes it, and an
    empty parent is given as "/". *)
Theorem SplitPath_splits_at_last_slash (fullpath : string) (a b : list ascii) :
  until_nul (chars fullpath) = a ++ slash :: b →
  without slash b →
  (length a + 1 + length b < PathMax)%nat →
  SplitPath fullpath
  = Done (match a with
          | [] => "/"%string
          | _ => string_of_list_ascii a
          end, string_of_list_ascii b).
Proof. apply SplitPath_at_last_slash. Qed.

Lemma SplitPath_splits_at_last_slash_witness :
  until_nul (chars "/dir/sub/file") = chars "/dir/sub" ++ slash :: chars "file"
  ∧ without slash (chars "file")
  ∧ (length (chars "/dir/sub") + 1 + length (chars "file") < PathMax)%nat
  ∧ SplitPath "/dir/sub/file" = Done ("/dir/sub"%string, "file"%string).
Proof.
  assert (without slash (chars "file")) as H by (repeat constructor).
  split; [reflexivity |]. split; [exact H |]. split; [vm_compute; lia |].
  apply (SplitPath_splits_at_last_slash "/dir/sub/file" (chars "/dir/sub") (chars "file"));
    [reflexivity | exact H | vm_compute; lia].
Defined.

(** [strcat] onto a string that leaves room in its buffer. *)
Lemma strcat_app (q rest : list ascii) (s0 : string) :
  without NUL q →
  (length q + length (until_nul (chars s0)) < length (q ++ NUL :: rest))%nat →
  ∃ rest',
    strcat (q ++ NUL :: rest) s0 = Done ((q ++ until_nul (chars s0)) ++ NUL :: rest')
    ∧ length ((q ++ until_nul (chars s0)) ++ NUL :: rest') = length (q ++ NUL :: rest).
Proof.
  intros Hq Hroom. unfold strcat. rewrite strlen_app by exact Hq.
  cbn [mbind Outcome_bind]. rewrite Nat2Z.id.
  set (src := until_nul (chars s0)) in *.
  destruct (Z.ltb_spec (Z.of_nat (length src) + Z.of_nat (length q))
                       (Z.of_nat (length (q ++ NUL :: rest)))) as [_ | Hno];
    [| exfalso; lia].
  exists (drop (length q + length src + 1) (q ++ NUL :: rest)).
  rewrite take_app_length.
  assert (length ((q ++ src) ++ NUL :: drop (length q + length src + 1) (q ++ NUL :: rest))
          = length (q ++ NUL :: rest)) as Hlen.
  { rewrite !length_app in *. cbn [length] in *.
    rewrite length_drop, length_app. cbn [length]. lia. }
  split; [| exact Hlen].
  f_equal. rewrite <- Hlen.
  replace (q ++ src ++ [NUL] ++ drop (length q + length src + 1) (q ++ NUL :: rest))
    with ((q ++ src) ++ NUL :: drop (length q + length src + 1) (q ++ NUL :: rest))
    by (rewrite <- app_assoc; reflexivity).
  apply firstn_all.
Qed.

Lemma JoinPath_app (parent name : string) :
  until_nul (chars parent) ≠ [] →
  (length (until_nul (chars parent)) + 1 + length (until_nul (chars name)) < PathMax)%nat →
  JoinPath parent name
  = Done (string_of_list_ascii
            (until_nul (chars parent) ++ separator (until_nul (chars parent))
               ++ until_nul (chars name))).
Proof.
  intros Hne Hfit. unfold JoinPath.
  set (p := until_nul (chars parent)) in *. set (n := until_nul (chars name)) in *.
  pose proof (until_nul_without (chars parent)) as Hp. fold p in Hp.
  destruct (strncpy_short parent PathMax) as [rest Hbuf]; [fold p; lia |].
  fold p in Hbuf. rewrite Hbuf.
  assert (length (p ++ NUL :: rest) = PathMax) as Hlen.
  { rewrite <- Hbuf. unfold strncpy. fold p.
    rewrite length_app, length_replicate, length_take. unfold PathMax in *. lia. }
  rewrite strlen_app by exact Hp. cbn [mbind Outcome_bind].
  destruct (last p) as [c |] eqn:Hlast; [| apply last_None in Hlast; contradiction].
  assert (index (p ++ NUL :: rest) (Z.of_nat (length p) - 1) = Done c) as ->.
  { destruct p as [| c0 p0] using rev_ind; [contradiction |].
    rewrite last_snoc in Hlast. injection Hlast as ->.
    apply index_lookup; [rewrite length_app; cbn [length]; lia |].
    rewrite length_app. cbn [length].
    replace (Z.to_nat (Z.of_nat (length p0 + 1) - 1)) with (length p0) by lia.
    rewrite <- app_assoc. apply list_lookup_middle. reflexivity. }
  cbn [mbind Outcome_bind]. unfold separator. rewrite Hlast.
  destruct (Ascii.eqb c slash) eqn:Hc; cbn [mbind Outcome_bind app].
  - destruct (strcat_app p rest name Hp) as (rest' & -> & _); [fold n; lia |].
    cbn [mbind Outcome_bind]. fold n. apply cstring_app.
    apply Forall_app. split; [exact Hp | apply until_nul_without].
  - destruct (strcat_app p rest "/" Hp) as (rest1 & -> & Hlen1);
      [cbn [chars list_ascii_of_string until_nul Ascii.eqb]; cbn; lia |].
    cbn [mbind Outcome_bind].
    change (until_nul (chars "/")) with [slash] in *.
    assert (without NUL (p ++ [slash])) as Hps.
    { apply Forall_app. split; [exact Hp | repeat constructor]. }
    destruct (strcat_app (p ++ [slash]) rest1 name Hps) as (rest2 & -> & _).
    { fold n. rewrite Hlen1, Hlen, length_app. cbn [length]. lia. }
    cbn [mbind Outcome_bind]. fold n.
    replace (p ++ slash :: n) with ((p ++ [slash]) ++ n)
      by (rewrite <- app_assoc; reflexivity).
    apply cstring_app.
    apply Forall_app. split; [exact Hps | apply until_nul_without].
Qed.

(** X2.  [JoinPath] of a parent that is not empty, when the result fits the
    buffer: the parent, a slash unless the parent ends with one, and the
    name. *)
Theorem JoinPath_joins (parent name : string) :
  until_nul (chars parent) ≠ [] →
  (length (until_nul (chars parent)) + 1 + length (until_nul (chars name)) < PathMax)%nat →
  JoinPath parent name
  = Done (string_of_list_ascii
            (until_nul (chars parent) ++ separator (until_nul (chars parent))
               ++ until_nul (chars name))).
Proof. apply JoinPath_app. Qed.

Lemma JoinPath_joins_witness :
  until_nul (chars "/dir") ≠ []
  ∧ (length (until_nul (chars "/dir")) + 1 + length (until_nul (chars "file")) < PathMax)%nat
  ∧ JoinPath "/dir" "file" = Done "/dir/file"%string.
Proof.
  split; [discriminate |]. split; [vm_compute; lia |].
  apply (JoinPath_joins "/dir" "file"); [discriminate | vm_compute; lia].
Defined.

(** X3.  What [JoinPath] joins, [SplitPath] splits again: for a name without
    a slash and a parent that does not end with a slash, or is "/", the
    joined path splits into that parent and that name.  ([Remove] relies on
    it when it descends into a directory.) *)
Theorem JoinPath_SplitPath (parent name : string) :
  until_nul (chars parent) ≠ [] →
  last (until_nul (chars parent)) ≠ Some slash ∨ until_nul (chars parent) = [slash] →
  without slash (until_nul (chars name)) →
  (length (until_nul (chars parent)) + 1 + length (until_nul (chars name)) < PathMax)%nat →
  JoinPath parent name ≫= SplitPath
  = Done (string_of_list_ascii (until_nul (chars parent)),
          string_of_list_ascii (until_nul (chars name))).
Proof.
  intros Hne Hend Hname Hfit. rewrite JoinPath_app by assumption.
  cbn [mbind Outcome_bind].
  set (p := until_nul (chars parent)) in *. set (n := until_nul (chars name)) in *.
  pose proof (until_nul_without (chars parent)) as Hp. fold p in Hp.
  pose proof (until_nul_without (chars name)) as Hn. fold n in Hn.
  destruct Hend as [Hend | Hroot].
  - assert (separator p = [slash]) as Hsep.
    { unfold separator. destruct (last p) as [c |]; [| reflexivity].
      destruct (Ascii.eqb c slash) eqn:Hc; [| reflexivity].
      apply Ascii.eqb_eq in Hc. congruence. }
    rewrite Hsep. rewrite (SplitPath_at_last_slash _ p n).
    + destruct p; [contradiction | reflexivity].
    + rewrite chars_string. apply until_nul_id.
      apply Forall_app. split; [exact Hp |]. apply Forall_cons. split; [reflexivity | exact Hn].
    + exact Hname.
    + lia.
  - rewrite Hroot in *. cbn [separator last Ascii.eqb app].
    change (separator [slash]) with (@nil ascii). cbn [app].
    rewrite (SplitPath_at_last_slash _ [] n).
    + reflexivity.
    + rewrite chars_string. apply until_nul_id.
      apply Forall_cons. split; [reflexivity | exact Hn].
    + exact Hname.
    + cbn [length] in *. lia.
Qed.

Lemma JoinPath_SplitPath_witness :
  until_nul (chars "/d") ≠ []
  ∧ (last (until_nul (chars "/d")) ≠ Some slash ∨ until_nul (chars "/d") = [slash])
  ∧ without slash (until_nul (chars "x"))
  ∧ (length (until_nul (chars "/d")) + 1 + length (until_nul (chars "x")) < PathMax)%nat
  ∧ JoinPath "/d" "x" ≫= SplitPath = Done ("/d"%string, "x"%string).
Proof.
  assert (without slash (until_nul (chars "x"))) as H by (repeat constructor).
  split; [discriminate |]. split; [left; discriminate |]. split; [exact H |].
  split; [vm_compute; lia |].
  apply (JoinPath_SplitPath "/d" "x");
    [discriminate | left; discriminate | exact H | vm_compute; lia].
Defined.

(** X4.  [JoinPath] of an empty parent reads [dest[-1]], before the buffer:
    the call has no defined result, whatever the name. *)
Theorem JoinPath_empty_parent (parent name : string) :
  until_nul (chars parent) = [] → JoinPath parent name = Undefined.
Proof.
  intros Hempty. unfold JoinPath.
  destruct (strncpy_short parent PathMax) as [rest ->];
    [rewrite Hempty; unfold PathMax; cbn [length]; lia |].
  rewrite Hempty. rewrite (strlen_app [] rest) by apply Forall_nil_2. reflexivity.
Qed.

Lemma JoinPath_empty_parent_witness :
  until_nul (chars "") = [] ∧ JoinPath "" "x" = Undefined.
Proof. split; [reflexivity | apply (JoinPath_empty_parent "" "x"); reflexivity]. Defined.

(** ** The descriptor layer *)

(** What the scan of [Open_fd] can return. *)
Lemma Open_fd_scan_result (fp : option OpenFile) (n : nat) :
  ∀ (i : Z) (table table' : list (option OpenFile)) (id : Z),
    0 ≤ i →
    Open_fd_scan n i fp table = Done (id, table') →
    (id = -1 ∧ table' = table
     ∧ ∀ j, i ≤ j < i + Z.of_nat n → ∃ f, table !! Z.to_nat j = Some (Some f))
    ∨ (i ≤ id < i + Z.of_nat n
       ∧ table !! Z.to_nat id = Some None
       ∧ table' = <[Z.to_nat id := fp]> table
       ∧ ∀ j, i ≤ j < id → ∃ f, table !! Z.to_nat j = Some (Some f)).
Proof.
  induction n as [| n IH]; intros i table table' id Hi H; cbn [Open_fd_scan] in H.
  - injection H as <- <-. left. split; [reflexivity |]. split; [reflexivity |]. intros j Hj. lia.
  - apply bind_Done in H as (slot & Hslot & H). apply index_Done in Hslot as (_ & Hslot).
    destruct slot as [f |].
    + apply IH in H as [(-> & -> & Hbusy) | (Hid & Hfree & -> & Hbusy)]; [| | lia].
      * left. split; [reflexivity |]. split; [reflexivity |]. intros j Hj.
        destruct (Z.eq_dec j i) as [-> | Hne]; [eauto | apply Hbusy; lia].
      * right. split; [lia |]. split; [exact Hfree |]. split; [reflexivity |]. intros j Hj.
        destruct (Z.eq_dec j i) as [-> | Hne]; [eauto | apply Hbusy; lia].
    + apply bind_Done in H as (t & Hstore & H). injection H as <- <-.
      apply store_Done in Hstore as (_ & ->).
      right. split; [lia |]. split; [exact Hslot |]. split; [reflexivity |]. intros j Hj. lia.
Qed.

(** X5.  When [Open] finds the file, [Open_fd] puts the handle in the lowest
    free slot of [1..20) and returns the number of that slot; the other slots
    keep what they hold. *)
Theorem Open_fd_lowest_free_slot (fs : FileSystem) (name : string) (d : Disk)
    (f : OpenFile) (i : Z) :
  Open fs name d = Done (Some f) →
  1 ≤ i < 20 →
  (∀ j, 1 ≤ j < i → ∃ g, fileDescriptorTable fs !! Z.to_nat j = Some (Some g)) →
  fileDescriptorTable fs !! Z.to_nat i = Some None →
  Open_fd fs name d
  = Done (i, set_fileDescriptorTable
               (<[Z.to_nat i := Some f]> (fileDescriptorTable fs)) fs).
Proof.
  intros Hopen Hi Hbusy Hfree. unfold Open_fd. rewrite Hopen. cbn [mbind Outcome_bind].
  rewrite (Open_fd_scan_lowest (Some f) _ (Z.to_nat (i - 1)) 19 1); [| lia | lia | |].
  - cbn [mbind Outcome_bind]. f_equal. f_equal; [lia |]. f_equal. f_equal. lia.
  - intros j Hj. destruct (Hbusy (1 + Z.of_nat j)) as [g Hg]; [lia |].
    exists g. rewrite <- Hg. f_equal. lia.
  - rewrite <- Hfree. f_equal. lia.
Qed.

Lemma Open_fd_lowest_free_slot_witness :
  let d := disk (after [OpCreate "/a" 100]) in
  let fs := opened fs0 "/a" d in
  let f := handle (Open fs "/a" d) in
  Open fs "/a" d = Done (Some f)
  ∧ 1 ≤ 2 < 20
  ∧ (∀ j, 1 ≤ j < 2 → ∃ g, fileDescriptorTable fs !! Z.to_nat j = Some (Some g))
  ∧ fileDescriptorTable fs !! Z.to_nat 2 = Some None
  ∧ Open_fd fs "/a" d
    = Done (2, set_fileDescriptorTable (<[Z.to_nat 2 := Some f]> (fileDescriptorTable fs)) fs).
Proof.
  intros d fs f.
  assert (∀ j, 1 ≤ j < 2 → ∃ g, fileDescriptorTable fs !! Z.to_nat j = Some (Some g)) as Hbusy.
  { intros j Hj. replace j with 1 by lia. exists f. vm_compute. reflexivity. }
  split; [vm_compute; reflexivity |]. split; [lia |]. split; [exact Hbusy |].
  split; [vm_compute; reflexivity |].
  apply (Open_fd_lowest_free_slot fs "/a" d f 2);
    [vm_compute; reflexivity | lia | exact Hbusy | vm_compute; reflexivity].
Defined.

(** X6.  When every slot of [1..20) holds a handle, [Open_fd] returns -1 and
    leaves the table as it is, whether the file exists or not (the handle
    [Open] made is dropped). *)
Theorem Open_fd_table_full (fs : FileSystem) (name : string) (d : Disk)
    (fp : option OpenFile) :
  Open fs name d = Done fp →
  (∀ j, 1 ≤ j < 20 → ∃ g, fileDescriptorTable fs !! Z.to_nat j = Some (Some g)) →
  Open_fd fs name d = Done (-1, fs).
Proof.
  intros Hopen Hbusy. unfold Open_fd. rewrite Hopen. cbn [mbind Outcome_bind].
  destruct (Open_fd_scan 19 1 fp (fileDescriptorTable fs)) as [[id table'] | |] eqn:Hscan.
  - apply Open_fd_scan_result in Hscan as [(-> & -> & _) | (Hid & Hfree & _)]; [| | lia].
    + cbn [mbind Outcome_bind]. destruct fs. reflexivity.
    + destruct (Hbusy id) as [g Hg]; [lia |]. congruence.
  - exfalso. clear Hopen. revert Hscan.
    assert (∀ n i, 1 ≤ i → i + Z.of_nat n ≤ 20 →
                   Open_fd_scan n i fp (fileDescriptorTable fs) ≠ Undefined) as Hdef.
    { induction n as [| n IH]; intros i Hi Hn; cbn [Open_fd_scan]; [discriminate |].
      destruct (Hbusy i) as [g Hg]; [lia |].
      rewrite (index_lookup _ _ (Some g)) by (try lia; exact Hg).
      cbn [mbind Outcome_bind]. apply IH; lia. }
    apply (Hdef 19%nat 1); lia.
  - exfalso. exact (bounded_Open_fd_scan 19 1 fp _ Hscan).
Qed.

Lemma Open_fd_table_full_witness :
  let d := disk (after [OpCreate "/a" 100]) in
  let fs := opened_times 19 fs0 "/a" d in
  Open fs "/a" d = Done (Some (handle (Open fs "/a" d)))
  ∧ (∀ j, 1 ≤ j < 20 → ∃ g, fileDescriptorTable fs !! Z.to_nat j = Some (Some g))
  ∧ Open_fd fs "/a" d = Done (-1, fs).
Proof.
  intros d fs.
  assert (∀ j, 1 ≤ j < 20 → ∃ g, fileDescriptorTable fs !! Z.to_nat j = Some (Some g)) as Hbusy.
  { intros j Hj. exists (handle (Open fs "/a" d)).
    assert (fileDescriptorTable fs = None :: replicate 19 (Some (handle (Open fs "/a" d))))
      as -> by (vm_compute; reflexivity).
    destruct (Z.to_nat j) as [| k] eqn:Hk; [lia |]. cbn [lookup list_lookup].
    apply lookup_replicate_2. lia. }
  split; [vm_compute; reflexivity |]. split; [exact Hbusy |].
  apply (Open_fd_table_full fs "/a" d (Some (handle (Open fs "/a" d))));
    [vm_compute; reflexivity | exact Hbusy].
Defined.

(** X7.  [Open_fd] returns -1 or the number of a slot of [1..20) that was
    free; at most that slot changes, so slot 0 is never given out and never
    written. *)
Theorem Open_fd_never_slot_0 (fs fs' : FileSystem) (name : string) (d : Disk) (id : Z) :
  Open_fd fs name d = Done (id, fs') →
  (id = -1 ∨ 1 ≤ id < 20)
  ∧ fileDescriptorTable fs' !! 0%nat = fileDescriptorTable fs !! 0%nat
  ∧ (∀ j, j ≠ Z.to_nat id →
          fileDescriptorTable fs' !! j = fileDescriptorTable fs !! j)
  ∧ freeMapFile fs' = freeMapFile fs ∧ directoryFile fs' = directoryFile fs.
Proof.
  unfold Open_fd. intros H. apply bind_Done in H as (fp & _ & H).
  apply bind_Done in H as ([id' table'] & Hscan & H). injection H as <- <-.
  cbn [set_fileDescriptorTable fileDescriptorTable freeMapFile directoryFile].
  apply Open_fd_scan_result in Hscan as [(-> & -> & _) | (Hid & _ & -> & _)]; [| | lia].
  - auto.
  - split; [right; lia |]. split; [apply list_lookup_insert_ne; lia |].
    split; [| auto]. intros j Hj. apply list_lookup_insert_ne. congruence.
Qed.

Lemma Open_fd_never_slot_0_witness :
  let d := disk (after [OpCreate "/a" 100]) in
  let fs' := opened fs0 "/a" d in
  Open_fd fs0 "/a" d = Done (1, fs')
  ∧ (1 = -1 ∨ 1 ≤ 1 < 20)
  ∧ fileDescriptorTable fs' !! 0%nat = fileDescriptorTable fs0 !! 0%nat
  ∧ (∀ j, j ≠ Z.to_nat 1 →
          fileDescriptorTable fs' !! j = fileDescriptorTable fs0 !! j)
  ∧ freeMapFile fs' = freeMapFile fs0 ∧ directoryFile fs' = directoryFile fs0.
Proof.
  intros d fs'. split; [vm_compute; reflexivity |].
  apply (Open_fd_never_slot_0 fs0 fs' "/a" d 1). vm_compute; reflexivity.
Defined.

(** X8.  The table has 20 slots from the constructor on, all of them empty
    at first, and [Open_fd], [Write], [Read] and [Close] keep it at 20. *)
Theorem descriptor_table_keeps_20_slots :
  (∀ format d fs d',
     FileSystem_new format d = Done (fs, d') →
     fileDescriptorTable fs = replicate 20 None)
  ∧ ∀ fs, length (fileDescriptorTable fs) = 20%nat →
      (∀ name d id fs', Open_fd fs name d = Done (id, fs') →
                        length (fileDescriptorTable fs') = 20%nat)
      ∧ (∀ buffer size id d r fs' d', Write fs buffer size id d = Done (r, fs', d') →
                                     length (fileDescriptorTable fs') = 20%nat)
      ∧ (∀ size id d r data fs', Read fs size id d = Done (r, data, fs') →
                                 length (fileDescriptorTable fs') = 20%nat)
      ∧ (∀ id r fs' freed, Close fs id = Done (r, fs', freed) →
                           length (fileDescriptorTable fs') = 20%nat).
Proof.
  split.
  - intros format d fs d' H. unfold FileSystem_new in H. destruct format; run; reflexivity.
  - intros fs Hlen. split; [| split; [| split]].
    + intros name d id fs' H. unfold Open_fd in H.
      apply bind_Done in H as (fp & _ & H).
      apply bind_Done in H as ([id' table'] & Hscan & H). injection H as <- <-.
      apply Open_fd_scan_result in Hscan as [(_ & -> & _) | (_ & _ & -> & _)]; [| | lia].
      * exact Hlen.
      * cbn [set_fileDescriptorTable fileDescriptorTable]. rewrite length_insert. exact Hlen.
    + intros buffer size id d r fs' d' H. unfold Write in H.
      apply bind_Done in H as ([f |] & _ & H).
      * apply bind_Done in H as ([[r' f'] d1] & _ & H). injection H as <- <- <-.
        cbn [set_fileDescriptorTable fileDescriptorTable]. rewrite length_insert. exact Hlen.
      * injection H as <- <- <-. exact Hlen.
    + intros size id d r data fs' H. unfold Read in H.
      apply bind_Done in H as ([f |] & _ & H).
      * apply bind_Done in H as ([[r' data'] f'] & _ & H). injection H as <- <- <-.
        cbn [set_fileDescriptorTable fileDescriptorTable]. rewrite length_insert. exact Hlen.
      * injection H as <- <- <-. exact Hlen.
    + intros id r fs' freed H. unfold Close in H.
      apply bind_Done in H as ([f |] & _ & H).
      * apply bind_Done in H as (t & Hstore & H). injection H as <- <- <-.
        apply store_Done in Hstore as (_ & ->).
        cbn [set_fileDescriptorTable fileDescriptorTable]. rewrite length_insert. exact Hlen.
      * injection H as <- <- <-. exact Hlen.
Qed.

(** X9.  [Write] and [Read] on a descriptor whose slot is empty return -1
    and touch neither the table nor the disk. *)
Theorem Write_Read_empty_slot (fs : FileSystem) (buffer : list Z) (size fileid : Z)
    (d : Disk) :
  0 ≤ fileid →
  fileDescriptorTable fs !! Z.to_nat fileid = Some None →
  Write fs buffer size fileid d = Done (-1, fs, d)
  ∧ Read fs size fileid d = Done (-1, [], fs).
Proof.
  intros Hid Hslot. unfold Write, Read.
  rewrite (index_lookup _ _ None Hid Hslot). split; reflexivity.
Qed.

Lemma Write_Read_empty_slot_witness :
  0 ≤ 3
  ∧ fileDescriptorTable fs0 !! Z.to_nat 3 = Some None
  ∧ Write fs0 [72; 105] 2 3 (disk world0) = Done (-1, fs0, disk world0)
  ∧ Read fs0 2 3 (disk world0) = Done (-1, [], fs0).
Proof.
  split; [lia |]. split; [vm_compute; reflexivity |].
  apply (Write_Read_empty_slot fs0 [72; 105] 2 3 (disk world0));
    [lia | vm_compute; reflexivity].
Defined.

(** X10.  [Close] undoes [Open_fd]: closing the descriptor that a successful
    [Open_fd] returned gives 1, deletes the handle [Open] made, and leaves
    the file system object as it was before the [Open_fd]. *)
Theorem Open_fd_Close (fs fs' : FileSystem) (name : string) (d : Disk) (f : OpenFile)
    (id : Z) :
  Open fs name d = Done (Some f) →
  Open_fd fs name d = Done (id, fs') →
  id ≠ -1 →
  Close fs' id = Done (1, fs, Some f).
Proof.
  intros Hopen H Hid. unfold Open_fd in H. rewrite Hopen in H. cbn [mbind Outcome_bind] in H.
  apply bind_Done in H as ([id' table'] & Hscan & H). injection H as <- <-.
  apply Open_fd_scan_result in Hscan as [(-> & _) | (Hrange & Hfree & -> & _)];
    [contradiction | | lia].
  apply lookup_lt_Some in Hfree as Hlt.
  unfold Close. cbn [set_fileDescriptorTable fileDescriptorTable].
  rewrite (index_lookup _ _ (Some f)) by (try lia; apply list_lookup_insert_eq; exact Hlt).
  cbn [mbind Outcome_bind].
  rewrite store_in_range by (rewrite length_insert; lia). cbn [mbind Outcome_bind].
  rewrite list_insert_insert_eq, list_insert_id by exact Hfree.
  destruct fs. reflexivity.
Qed.

Lemma Open_fd_Close_witness :
  let d := disk (after [OpCreate "/a" 100]) in
  let f := handle (Open fs0 "/a" d) in
  Open fs0 "/a" d = Done (Some f)
  ∧ Open_fd fs0 "/a" d = Done (1, opened fs0 "/a" d)
  ∧ 1 ≠ -1
  ∧ Close (opened fs0 "/a" d) 1 = Done (1, fs0, Some f).
Proof.
  intros d f. split; [vm_compute; reflexivity |]. split; [vm_compute; reflexivity |].
  split; [lia |].
  apply (Open_fd_Close fs0 (opened fs0 "/a" d) "/a" d f 1);
    [vm_compute; reflexivity | vm_compute; reflexivity | lia].
Defined.

(** ** [Create], [CreateDirectory] and [Remove] refusing *)

(** A bitmap with no clear bit gives no sector. *)
Lemma FindAndSet_full (freeMap : list bool) :
  first_clear freeMap 0 = None → FindAndSet freeMap = (-1, freeMap).
Proof. unfold FindAndSet. intros ->. reflexivity. Qed.

(** The loop of lines 225-232 stays inside [level1Sector] for up to
    [NumDirect] headers. *)
Lemma Create_level1Sectors_defined (n : nat) :
  ∀ (i : Z) (level1Sector : list Z) (freeMap : list bool),
    0 ≤ i → i + Z.of_nat n ≤ Z.of_nat (length level1Sector) →
    ∃ r, Create_level1Sectors n i level1Sector freeMap = Done r.
Proof.
  induction n as [| n IH]; intros i l fm Hi Hn; cbn [Create_level1Sectors]; [eauto |].
  destruct (FindAndSet fm) as [s fm1].
  rewrite store_in_range by lia. cbn [mbind Outcome_bind].
  destruct (s =? -1); [eauto |]. apply IH; [lia | rewrite length_insert; lia].
Qed.

Lemma first_free_None_full (table : Directory) (nm : string) (newSector : Z) (ty : bool) :
  first_free table 0 = None → add_entry table nm newSector ty = (false, table).
Proof. unfold add_entry. intros ->. destruct (negb _); reflexivity. Qed.

(** X11.  [Create] returns FALSE, and leaves the disk alone, when the parent
    directory does not resolve, when the name is in the parent already, when
    the bitmap has no free sector, and (for a size that is not negative and
    that [NumDirect] level-1 headers can hold) when the parent has no free
    entry. *)
Theorem Create_refuses (fs : FileSystem) (name : string) (initialSize : Z) (d : Disk)
    (parent filename : string) :
  SplitPath name = Done (parent, filename) →
  OpenDir fs parent d = Done None
  ∨ (∃ dirFile directory,
       OpenDir fs parent d = Done (Some dirFile)
       ∧ Directory_FetchFrom (Directory_new NumDirEntries) dirFile d = Done directory
       ∧ (Find directory filename ≠ -1
          ∨ (∃ freeMap, PersistentBitmap_new (freeMapFile fs) NumSectors d = Done freeMap
                        ∧ (first_clear freeMap 0 = None
                           ∨ (first_free directory 0 = None
                              ∧ 0 ≤ initialSize ≤ NumDirect * (NumDirect * SectorSize)))))) →
  Create fs name initialSize d = Done (false, d).
Proof.
  intros Hsplit Hwhy. unfold Create. rewrite Hsplit. cbn [mbind Outcome_bind].
  destruct Hwhy as [-> | (dirFile & directory & -> & Hdir & Hwhy)]; [reflexivity |].
  cbn [mbind Outcome_bind]. rewrite Hdir. cbn [mbind Outcome_bind].
  destruct (Z.eqb_spec (Find directory filename) (-1)) as [Habsent | Hpresent];
    [| reflexivity].
  destruct Hwhy as [? | (freeMap & -> & Hwhy)]; [contradiction |].
  cbn [mbind Outcome_bind negb].
  destruct Hwhy as [Hfull | (Hfull & Hsize)].
  - rewrite (FindAndSet_full _ Hfull).
    destruct (Z.to_nat (divRoundUp (to_unsigned initialSize) (SectorSize * NumDirect)))
      as [| n];
      cbn [Create_level1Sectors]; [reflexivity |].
    rewrite (FindAndSet_full _ Hfull).
    rewrite store_in_range by (rewrite length_replicate; cbv; split; congruence).
    reflexivity.
  - rewrite to_unsigned_nonneg by lia.
    destruct (FindAndSet freeMap) as [sector freeMap1].
    destruct (Create_level1Sectors_defined
                (Z.to_nat (divRoundUp initialSize (SectorSize * NumDirect))) 0
                (replicate (Z.to_nat NumDirect) (-1)) freeMap1) as [[[flag l] fm] ->].
    { lia. }
    { rewrite length_replicate. capacity. change (Z.to_nat NumDirect) with 29%nat.
      change NumDirect with 29 in Hsize.
      destruct (Z.le_gt_cases initialSize 0) as [Hneg | Hpos].
      - pose proof (divRoundUp_not_positive initialSize Hneg). lia.
      - pose proof (divRoundUp_positive initialSize Hpos). lia. }
    cbn [mbind Outcome_bind]. destruct ((sector =? -1) || negb flag); [reflexivity |].
    unfold Directory_Add. rewrite (first_free_None_full _ _ _ _ Hfull). reflexivity.
Qed.

Lemma Create_refuses_witness :
  let d := disk (after [OpCreate "/a" 100]) in
  SplitPath "/a" = Done ("/"%string, "a"%string)
  ∧ Find (table_of fs0 "/" d) "a" ≠ -1
  ∧ Create fs0 "/a" 7 d = Done (false, d).
Proof.
  intros d. split; [vm_compute; reflexivity |]. split; [vm_compute; discriminate |].
  apply (Create_refuses fs0 "/a" 7 d "/" "a"); [vm_compute; reflexivity |].
  right. exists (handle (OpenDir fs0 "/" d)), (table_of fs0 "/" d).
  split; [vm_compute; reflexivity |]. split; [vm_compute; reflexivity |].
  left. vm_compute. discriminate.
Defined.

(** X12.  [CreateDirectory] that returns FALSE has written nothing: the disk
    is the one it found. *)
Theorem CreateDirectory_failure_atomic (fs : FileSystem) (name parent : string)
    (d d' : Disk) :
  CreateDirectory fs name parent d = Done (false, d') → d' = d.
Proof. intros H. unfold CreateDirectory in H. run; congruence. Qed.

Lemma CreateDirectory_failure_atomic_witness :
  let d := disk (after [OpCreateDirectory "d" "/"]) in
  CreateDirectory fs0 "d" "/" d = Done (false, d) ∧ d = d.
Proof.
  intros d. split; [vm_compute; reflexivity |].
  apply (CreateDirectory_failure_atomic fs0 "d" "/" d d). vm_compute; reflexivity.
Defined.

(** X13.  [CreateDirectory] returns FALSE, and leaves the disk alone, when
    the parent does not resolve, when the name is in the parent already, when
    the bitmap has no free sector and when the parent has no free entry. *)
Theorem CreateDirectory_refuses (fs : FileSystem) (name parent : string) (d : Disk) :
  OpenDir fs parent d = Done None
  ∨ (∃ dirFile directory,
       OpenDir fs parent d = Done (Some dirFile)
       ∧ Directory_FetchFrom (Directory_new NumDirEntries) dirFile d = Done directory
       ∧ (Find directory name ≠ -1
          ∨ (∃ freeMap, PersistentBitmap_new (freeMapFile fs) NumSectors d = Done freeMap
                        ∧ (first_clear freeMap 0 = None
                           ∨ first_free directory 0 = None)))) →
  CreateDirectory fs name parent d = Done (false, d).
Proof.
  intros Hwhy. unfold CreateDirectory.
  destruct Hwhy as [-> | (dirFile & directory & -> & Hdir & Hwhy)]; [reflexivity |].
  cbn [mbind Outcome_bind]. rewrite Hdir. cbn [mbind Outcome_bind].
  destruct (Z.eqb_spec (Find directory name) (-1)) as [Habsent | Hpresent]; [| reflexivity].
  destruct Hwhy as [? | (freeMap & -> & Hwhy)]; [contradiction |].
  cbn [mbind Outcome_bind negb].
  destruct Hwhy as [Hfull | Hfull].
  - rewrite (FindAndSet_full _ Hfull). reflexivity.
  - destruct (FindAndSet freeMap) as [sector freeMap1].
    destruct (sector =? -1); [reflexivity |].
    unfold Directory_AddDir. rewrite (first_free_None_full _ _ _ _ Hfull). reflexivity.
Qed.

Lemma CreateDirectory_refuses_witness :
  let d := disk (after [OpCreateDirectory "d" "/"]) in
  OpenDir fs0 "/nowhere" d = Done None
  ∧ CreateDirectory fs0 "e" "/nowhere" d = Done (false, d).
Proof.
  intros d. split; [vm_compute; reflexivity |].
  apply (CreateDirectory_refuses fs0 "e" "/nowhere" d). left. vm_compute; reflexivity.
Defined.

(** X14.  [Remove] of a path whose parent does not resolve, or whose name is
    not in the parent, returns FALSE, says so on the console, and changes
    neither the disk nor any bit. *)
Theorem Remove_missing (fuel : nat) (fs : FileSystem) (name : string) (recur : bool)
    (w : World) (parent filename : string) :
  SplitPath name = Done (parent, filename) →
  (OpenDir fs parent (disk w) = Done None →
   Remove (S fuel) fs name recur w
   = Done (false, mkWorld (disk w)
                    (cout w ++ [("Remove " ++ name)%string;
                                ("Directory " ++ parent ++ " not found!")%string])
                    (clears w)))
  ∧ (∀ dirFile directory,
       OpenDir fs parent (disk w) = Done (Some dirFile) →
       Directory_FetchFrom (Directory_new NumDirEntries) dirFile (disk w) = Done directory →
       Find directory filename = -1 →
       Remove (S fuel) fs name recur w
       = Done (false, mkWorld (disk w)
                        (cout w ++ [("Remove " ++ name)%string;
                                    ("File " ++ filename ++ " not found!")%string])
                        (clears w))).
Proof.
  intros Hsplit. split.
  - intros Hparent. cbn [Remove]. rewrite Hsplit. cbn [mbind Outcome_bind print disk].
    rewrite Hparent. cbn [mbind Outcome_bind]. unfold print. cbn [disk cout clears].
    rewrite <- app_assoc. reflexivity.
  - intros dirFile directory Hparent Hdir Hfind. cbn [Remove]. rewrite Hsplit.
    cbn [mbind Outcome_bind print disk]. rewrite Hparent. cbn [mbind Outcome_bind].
    rewrite Hdir. cbn [mbind Outcome_bind]. rewrite Hfind. cbn [Z.eqb].
    unfold print. cbn [disk cout clears]. rewrite <- app_assoc. reflexivity.
Qed.

Lemma Remove_missing_witness :
  SplitPath "/nofile" = Done ("/"%string, "nofile"%string)
  ∧ Find (table_of fs0 "/" (disk world0)) "nofile" = -1
  ∧ Remove 1 fs0 "/nofile" false world0
    = Done (false, mkWorld (disk world0) ["Remove /nofile"; "File nofile not found!"]%string []).
Proof.
  split; [vm_compute; reflexivity |]. split; [vm_compute; reflexivity |].
  apply (proj2 (Remove_missing 0 fs0 "/nofile" false world0 "/" "nofile" eq_refl)
               (handle (OpenDir fs0 "/" (disk world0))) (table_of fs0 "/" (disk world0)));
    vm_compute; reflexivity.
Defined.

(** ** A directory with no entry in use *)

Lemma count_inUse_nonneg (table : Directory) : 0 ≤ count_inUse table.
Proof.
  induction table as [| e rest IH]; cbn [count_inUse]; [lia |]. destruct (inUse e); lia.
Qed.

Lemma Remove_children_none (remove : string → World → Outcome (bool * World))
    (path : string) (table : Directory) (w : World) :
  count_inUse table = 0 → Remove_children remove path table w = Done w.
Proof.
  induction table as [| e rest IH]; cbn [count_inUse Remove_children]; [reflexivity |].
  pose proof (count_inUse_nonneg rest). destruct (inUse e); [lia | exact IH].
Qed.

(** ** [OpenDir] walks the components of the path *)

Lemma fields_last (tok : list ascii) : without slash tok → fields tok = [tok].
Proof.
  induction 1 as [| c tok Hc _ IH]; cbn [fields]; [reflexivity |].
  rewrite Hc, IH. reflexivity.
Qed.

Lemma fields_token (tok r : list ascii) :
  without slash tok → fields (tok ++ slash :: r) = tok :: fields r.
Proof.
  induction 1 as [| c tok Hc _ IH]; cbn [fields app].
  - reflexivity.
  - rewrite Hc, IH. reflexivity.
Qed.

Lemma components_nil : components [] = [].
Proof. reflexivity. Qed.

Lemma components_slash (s : list ascii) : components (slash :: s) = components s.
Proof. reflexivity. Qed.

Lemma components_last (tok : list ascii) :
  without slash tok → tok ≠ [] → components tok = [string_of_list_ascii tok].
Proof.
  intros H Hne. unfold components. rewrite fields_last by exact H.
  destruct tok; [contradiction | reflexivity].
Qed.

Lemma components_token (tok r : list ascii) :
  without slash tok → tok ≠ [] →
  components (tok ++ slash :: r) = string_of_list_ascii tok :: components r.
Proof.
  intros H Hne. unfold components. rewrite fields_token by exact H.
  destruct tok; [contradiction | reflexivity].
Qed.

Lemma components_skip (s : list ascii) :
  components (drop (skip_delims s) s) = components s.
Proof.
  induction s as [| c s IH]; cbn [skip_delims]; [reflexivity |].
  destruct (Ascii.eqb c slash) eqn:Hc; [| reflexivity].
  apply Ascii.eqb_eq in Hc as ->. cbn [drop]. rewrite IH, components_slash. reflexivity.
Qed.

Lemma skip_delims_app (s x : list ascii) :
  skip_delims (s ++ NUL :: x) = skip_delims s.
Proof.
  induction s as [| c s IH]; cbn [skip_delims app]; [reflexivity |].
  destruct (Ascii.eqb c slash); [rewrite IH |]; reflexivity.
Qed.

Lemma skip_delims_le (s : list ascii) : (skip_delims s ≤ length s)%nat.
Proof.
  induction s as [| c s IH]; cbn [skip_delims length]; [lia |].
  destruct (Ascii.eqb c slash); lia.
Qed.

Lemma skip_delims_head (s : list ascii) (c : ascii) (t : list ascii) :
  drop (skip_delims s) s = c :: t → Ascii.eqb c slash = false.
Proof.
  induction s as [| c0 s IH]; cbn [skip_delims]; [discriminate |].
  destruct (Ascii.eqb c0 slash) eqn:Hc; cbn [drop]; [exact IH |].
  intros [= <- <-]. exact Hc.
Qed.

(** A string without NUL starts with a token, which ends the string or is
    followed by a slash. *)
Lemma span_token_split (t : list ascii) :
  without NUL t →
  ∃ tok rest,
    t = tok ++ rest ∧ span_token t = length tok
    ∧ without slash tok ∧ without NUL tok
    ∧ (rest = [] ∨ ∃ r, rest = slash :: r).
Proof.
  induction 1 as [| c t Hc Ht IH]; cbn [span_token].
  - exists [], []. repeat split; first [apply Forall_nil_2 | auto].
  - rewrite Hc, orb_false_r. destruct (Ascii.eqb c slash) eqn:Hs.
    + apply Ascii.eqb_eq in Hs as ->. exists [], (slash :: t).
      repeat split; first [apply Forall_nil_2 | eauto].
    + destruct IH as (tok & rest & -> & Hlen & Hslash & Hnul & Hrest).
      exists (c :: tok), rest. cbn [length app]. rewrite Hlen.
      repeat split; first [by apply Forall_cons | exact Hrest].
Qed.

Lemma span_token_app (tok x : list ascii) (c : ascii) :
  without slash tok → without NUL tok →
  Ascii.eqb c slash || Ascii.eqb c NUL = true →
  span_token (tok ++ c :: x) = length tok.
Proof.
  intros Hs Hn Hc. induction tok as [| a tok IH]; cbn [span_token app length].
  - rewrite Hc. reflexivity.
  - apply Forall_cons in Hs as [Ha Hs]. apply Forall_cons in Hn as [Ha' Hn].
    rewrite Ha, Ha'. cbn [orb]. rewrite IH by assumption. reflexivity.
Qed.

Lemma cstring_at (buf : list ascii) (off : nat) (p rest : list ascii) :
  drop off buf = p ++ NUL :: rest → without NUL p →
  cstring buf off = Done (string_of_list_ascii p).
Proof.
  intros H Hp. unfold cstring. rewrite H, has_nul_app, until_nul_app by exact Hp.
  reflexivity.
Qed.

(** The loop of [OpenDir], when what is left of the path is [s], followed by
    NULs up to the end of the buffer. *)
Lemma OpenDir_loop_walk (fuel : nat) :
  ∀ (path : list ascii) (pos : nat) (s : list ascii) (m : nat)
    (directory : Directory) (sector : Z) (d : Disk),
    drop pos path = s ++ replicate m NUL →
    without NUL s →
    (s = [] ∧ 1 ≤ m)%nat ∨ (2 ≤ m)%nat →
    (length s < fuel)%nat →
    OpenDir_loop fuel path pos directory sector d
    = walk (components s) directory sector d.
Proof.
  induction fuel as [| k IH]; intros path pos s m directory sector d Hdrop Hs Hm Hfuel;
    [lia |].
  assert (∃ m', m = S m') as [m' ->] by (exists (pred m); lia).
  cbn [replicate] in Hdrop.
  cbn [OpenDir_loop]. unfold strtok. rewrite Hdrop, has_nul_app, skip_delims_app.
  set (j := skip_delims s).
  pose proof (skip_delims_le s) as Hj. fold j in Hj.
  assert (path !! (pos + j)%nat = (s ++ NUL :: replicate m' NUL) !! j) as Hat
    by (rewrite <- Hdrop, lookup_drop; reflexivity).
  assert (drop (pos + j) path = drop j s ++ NUL :: replicate m' NUL) as Hdropj.
  { rewrite <- drop_drop, Hdrop, drop_app_le by exact Hj. reflexivity. }
  destruct (drop j s) as [| c t] eqn:Ht.
  - (* only slashes are left *)
    assert (j = length s) as Hjs.
    { apply (f_equal length) in Ht. rewrite length_drop in Ht. cbn in Ht. lia. }
    rewrite (index_lookup _ _ NUL)
      by (try lia; rewrite Nat2Z.id, Hat, Hjs, lookup_app_r, Nat.sub_diag by lia;
          reflexivity).
    cbn [mbind Outcome_bind]. change (Ascii.eqb NUL NUL) with true. cbn iota.
    rewrite <- (components_skip s). fold j. rewrite Ht, components_nil. reflexivity.
  - (* a token *)
    pose proof (skip_delims_head s c t Ht) as Hcs.
    assert (without NUL (c :: t)) as Hct.
    { rewrite <- Ht. unfold without in *. apply Forall_drop. exact Hs. }
    assert (s !! j = Some c) as Hsj.
    { rewrite <- (take_drop j s) at 1. rewrite Ht, lookup_app_r by (rewrite length_take; lia).
      rewrite length_take, Nat.min_l, Nat.sub_diag by lia. reflexivity. }
    rewrite (index_lookup _ _ c)
      by (try lia; rewrite Nat2Z.id, Hat, lookup_app_l by (apply lookup_lt_Some in Hsj; lia);
          exact Hsj).
    cbn [mbind Outcome_bind].
    apply Forall_cons in Hct as Hc0. destruct Hc0 as [Hc0 _]. rewrite Hc0.
    destruct (span_token_split (c :: t) Hct) as (tok & rest & Hsplit & _ & Htoks & Htokn & Hrest).
    assert (tok ≠ []) as Htok.
    { intros ->. cbn [app] in Hsplit.
      destruct Hrest as [-> | [r ->]]; [discriminate |].
      injection Hsplit as -> _. discriminate. }
    rewrite Hdropj, Hsplit.
    assert (∃ c1 x, rest ++ NUL :: replicate m' NUL = c1 :: x
                    ∧ Ascii.eqb c1 slash || Ascii.eqb c1 NUL = true
                    ∧ drop (pos + j + length tok + 1) path
                      = match rest with [] => [] | _ :: r => r end
                          ++ replicate (match rest with [] => m' | _ => S m' end) NUL)
      as (c1 & x & Hx & Hc1 & Hnext).
    { assert (drop (pos + j + length tok + 1) path
              = drop 1 (rest ++ NUL :: replicate m' NUL)) as ->.
      { replace (pos + j + length tok + 1)%nat with ((pos + j) + (length tok + 1))%nat by lia.
        rewrite <- drop_drop, Hdropj, Hsplit, <- app_assoc, <- drop_drop.
        rewrite drop_app_length. reflexivity. }
      destruct Hrest as [-> | [r ->]]; cbn [app drop]; eauto. }
    rewrite <- app_assoc, Hx, span_token_app by assumption.
    cbn [mbind Outcome_bind].
    rewrite (cstring_at _ _ tok x); [| | exact Htokn].
    2:{ rewrite drop_insert_ge by lia.
        replace (pos + j + length tok - (pos + j))%nat with (length tok + 0)%nat by lia.
        rewrite Hdropj, Hsplit, <- app_assoc, Hx, insert_app_r. reflexivity. }
    cbn [mbind Outcome_bind].
    assert (components s
            = string_of_list_ascii tok
                :: components (match rest with [] => [] | _ :: r => r end)) as ->.
    { rewrite <- (components_skip s). fold j. rewrite Ht, Hsplit.
      destruct Hrest as [-> | [r ->]].
      - rewrite app_nil_r, components_nil. apply components_last; assumption.
      - apply components_token; assumption. }
    cbn [walk].
    destruct (Find directory (string_of_list_ascii tok) =? -1); [reflexivity |].
    destruct (OpenFile_new _ d) as [dirFile | |]; cbn [mbind Outcome_bind]; try reflexivity.
    destruct (Directory_FetchFrom directory dirFile d) as [directory' | |];
      cbn [mbind Outcome_bind]; try reflexivity.
    assert (length s = j + length tok + length rest)%nat as Hlen.
    { rewrite <- (take_drop j s), Ht, Hsplit, !length_app, length_take. lia. }
    apply (IH _ _ _ (match rest with [] => m' | _ => S m' end)).
    + rewrite drop_insert_lt by lia. exact Hnext.
    + apply (f_equal (drop (length tok))) in Hsplit.
      rewrite drop_app_length in Hsplit.
      assert (without NUL rest) as Hr.
      { rewrite <- Hsplit. unfold without in *. apply Forall_drop. exact Hct. }
      destruct rest; [apply Forall_nil_2 |]. apply Forall_cons in Hr as [_ Hr]. exact Hr.
    + destruct Hm as [[-> _] | Hm]; [cbn in Hlen; destruct tok; [contradiction | cbn in Hlen; lia] |].
      destruct Hrest as [-> | [r ->]]; [left; split; [reflexivity | lia] | right; lia].
    + destruct rest; cbn [length] in *; destruct tok; try contradiction; cbn [length] in *; lia.
Qed.

Lemma strncpy_fits (src : string) (n : nat) :
  (length (until_nul (chars src)) ≤ n)%nat →
  strncpy src n
  = until_nul (chars src) ++ replicate (n - length (until_nul (chars src))) NUL.
Proof. intros H. unfold strncpy. rewrite take_ge by lia. reflexivity. Qed.

Lemma OpenDir_walk (fs : FileSystem) (inpath : string) (d : Disk) :
  (length (until_nul (chars inpath)) + 1 < PathMax)%nat →
  OpenDir fs inpath d
  = (directory ← Directory_FetchFrom (Directory_new NumDirEntries) (directoryFile fs) d;
     walk (components (until_nul (chars inpath))) directory 1 d).
Proof.
  intros H. unfold OpenDir.
  destruct (Directory_FetchFrom _ _ d) as [directory | |]; cbn [mbind Outcome_bind];
    try reflexivity.
  apply (OpenDir_loop_walk _ _ _ _ (PathMax - length (until_nul (chars inpath)))).
  - rewrite strncpy_fits by lia. reflexivity.
  - apply until_nul_without.
  - right. lia.
  - lia.
Qed.

(** X17.  [OpenDir] of a path that leaves two characters of its buffer free
    resolves it component by component: the pieces between slashes that are
    not empty are looked up one after the other, from the root directory on,
    each in the table that the sector of the one before it holds; a piece
    that is not found gives NULL, and a path with no piece gives a handle on
    sector 1.  No entry is asked whether it is a directory. *)
Theorem OpenDir_walks_components (fs : FileSystem) (inpath : string) (d : Disk) :
  (length (until_nul (chars inpath)) + 1 < PathMax)%nat →
  OpenDir fs inpath d
  = (directory ← Directory_FetchFrom (Directory_new NumDirEntries) (directoryFile fs) d;
     walk (components (until_nul (chars inpath))) directory 1 d).
Proof. apply OpenDir_walk. Qed.

Lemma OpenDir_walks_components_witness :
  let d := disk (after [OpCreateDirectory "d" "/"; OpCreateDirectory "e" "/d"]) in
  (length (until_nul (chars "//d/e/")) + 1 < PathMax)%nat
  ∧ components (until_nul (chars "//d/e/")) = ["d"; "e"]%string
  ∧ OpenDir fs0 "//d/e/" d
    = (directory ← Directory_FetchFrom (Directory_new NumDirEntries) (directoryFile fs0) d;
       walk ["d"; "e"]%string directory 1 d).
Proof.
  intros d. split; [vm_compute; lia |]. split; [reflexivity |].
  apply (OpenDir_walks_components fs0 "//d/e/" d). vm_compute; lia.
Defined.

(** X18.  Only the components of a path count for [OpenDir]: two paths with
    the same components, whatever slashes they begin with, end with or
    repeat, resolve to the same result. *)
Theorem OpenDir_same_components (fs : FileSystem) (p q : string) (d : Disk) :
  (length (until_nul (chars p)) + 1 < PathMax)%nat →
  (length (until_nul (chars q)) + 1 < PathMax)%nat →
  components (until_nul (chars p)) = components (until_nul (chars q)) →
  OpenDir fs p d = OpenDir fs q d.
Proof. intros Hp Hq H. rewrite !OpenDir_walk by assumption. rewrite H. reflexivity. Qed.

Lemma OpenDir_same_components_witness :
  let d := disk (after [OpCreateDirectory "d" "/"; OpCreateDirectory "e" "/d"]) in
  (length (until_nul (chars "//d/e/")) + 1 < PathMax)%nat
  ∧ (length (until_nul (chars "d/e")) + 1 < PathMax)%nat
  ∧ components (until_nul (chars "//d/e/")) = components (until_nul (chars "d/e"))
  ∧ OpenDir fs0 "//d/e/" d = OpenDir fs0 "d/e" d.
Proof.
  intros d. split; [vm_compute; lia |]. split; [vm_compute; lia |].
  split; [reflexivity |].
  apply (OpenDir_same_components fs0 "//d/e/" "d/e" d); [vm_compute; lia .. | reflexivity].
Defined.



(** ** [RecursiveList] draws the tree *)

Lemma string_app_assoc (a b c : string) : ((a ++ b) ++ c = a ++ (b ++ c))%string.
Proof. induction a as [| x a IH]; cbn; [reflexivity |]. rewrite IH. reflexivity. Qed.

Lemma string_app_nil_r (a : string) : (a ++ "" = a)%string.
Proof. induction a as [| x a IH]; cbn; [reflexivity |]. rewrite IH. reflexivity. Qed.

Lemma indent_of_app (flags : list bool) (b : bool) :
  indent_of (flags ++ [b])
  = (indent_of flags ++ (if b then "    " else "│   "))%string.
Proof.
  induction flags as [| a flags IH]; cbn [indent_of app].
  - destruct b; reflexivity.
  - rewrite IH, string_app_assoc. reflexivity.
Qed.

Lemma RecursiveList_indent_spec (n : nat) :
  ∀ (j : nat) (isLast : list bool),
    (j + n ≤ length isLast)%nat →
    RecursiveList_indent n (Z.of_nat j) isLast = Done (indent_of (take n (drop j isLast))).
Proof.
  induction n as [| n IH]; intros j isLast Hlen; cbn [RecursiveList_indent].
  - rewrite take_0. reflexivity.
  - destruct (lookup_lt_is_Some_2 isLast j) as [b Hb]; [lia |].
    rewrite (index_lookup _ _ b) by (try lia; rewrite Nat2Z.id; exact Hb).
    cbn [mbind Outcome_bind].
    replace (Z.of_nat j + 1) with (Z.of_nat (S j)) by lia.
    rewrite IH by lia. cbn [mbind Outcome_bind].
    rewrite (drop_S isLast b j Hb). reflexivity.
Qed.

Lemma count_inUse_filter (table : Directory) :
  count_inUse table = Z.of_nat (length (List.filter inUse table)).
Proof.
  induction table as [| e rest IH]; cbn [count_inUse List.filter]; [reflexivity |].
  destruct (inUse e); cbn [length]; lia.
Qed.

Lemma shows_last (fs : FileSystem) (d : Disk) (path : string)
    (es : list DirectoryEntry) (f : Forest) :
  shows fs d path es f → (Z.of_nat (length es) =? 0) = is_last f.
Proof. destruct f, es; cbn; intros H; first [reflexivity | contradiction]. Qed.

Lemma tab_step (tab : Z) :
  4 ≤ tab →
  0 ≤ Z.quot tab 4 - 1
  ∧ Z.to_nat (Z.quot (tab + 4) 4 - 1) = S (Z.to_nat (Z.quot tab 4 - 1))
  ∧ (tab + 4 =? 4) = false.
Proof.
  intros H. rewrite !Z.quot_div_nonneg by lia.
  replace (tab + 4) with (tab + 1 * 4) by lia. rewrite Z.div_add by lia.
  assert (1 ≤ tab / 4) by (apply Z.div_le_lower_bound; lia).
  split; [lia |]. split; [lia |]. apply Z.eqb_neq. lia.
Qed.

Lemma take_S_insert {A} (l : list A) (k : nat) (x : A) :
  (k < length l)%nat → take (S k) (<[k := x]> l) = take k l ++ [x].
Proof.
  intros H. revert k H. induction l as [| a l IH]; intros k H; cbn in H; [lia |].
  destruct k; cbn; [rewrite take_0; reflexivity |].
  f_equal. apply IH. lia.
Qed.

(** The loop over the table, when the calls it makes draw their trees. *)
Lemma RecursiveList_entries_renders
    (recurse : string → Z → list bool → list string → Outcome (list bool * list string))
    (fs : FileSystem) (d : Disk) (path : string) (tab : Z) (k n : nat) :
  4 ≤ tab →
  k = Z.to_nat (Z.quot tab 4 - 1) →
  (∀ nextDir isLast cout dirFile directory forest,
     length isLast = 1024%nat →
     OpenDir fs nextDir d = Done (Some dirFile) →
     Directory_FetchFrom (Directory_new NumDirEntries) dirFile d = Done directory →
     shows fs d nextDir (List.filter inUse directory) forest →
     (height forest + S k ≤ 1024)%nat → (height forest < n)%nat →
     ∃ isLast',
       recurse nextDir (tab + 4) isLast cout
       = Done (isLast', cout ++ render (indent_of (take (S k) isLast)) forest)
       ∧ length isLast' = 1024%nat ∧ take (S k) isLast' = take (S k) isLast) →
  ∀ (table : Directory) (forest : Forest) (isLast : list bool) (cout : list string),
    length isLast = 1024%nat →
    shows fs d path (List.filter inUse table) forest →
    (height forest + k ≤ 1024)%nat → (height forest ≤ n)%nat →
    ∃ isLast',
      RecursiveList_entries recurse path tab table (count_inUse table) isLast cout
      = Done (isLast', cout ++ render (indent_of (take k isLast)) forest)
      ∧ length isLast' = 1024%nat ∧ take k isLast' = take k isLast.
Proof.
  intros Htab Hk Hrec.
  destruct (tab_step tab Htab) as (Hq & _ & _).
  induction table as [| e rest IH]; intros forest isLast cout Hlen Hshows Hheight Hn.
  - destruct forest; [| contradiction]. exists isLast. cbn. rewrite app_nil_r. auto.
  - cbn [RecursiveList_entries count_inUse List.filter] in *.
    destruct (inUse e); [| apply IH; assumption].
    destruct forest as [| t frest]; [contradiction |].
    destruct Hshows as [Ht Hrest]. cbn [height] in Hheight, Hn.
    replace (1 + count_inUse rest - 1) with (count_inUse rest) by lia.
    rewrite <- Hk.
    pose proof (RecursiveList_indent_spec k 0 isLast ltac:(lia)) as Hindent.
    change (Z.of_nat 0) with 0 in Hindent. cbn [drop] in Hindent. rewrite Hindent.
    cbn [mbind Outcome_bind].
    assert ((count_inUse rest =? 0) = is_last frest) as Hlast
      by (rewrite count_inUse_filter; exact (shows_last _ _ _ _ _ Hrest)).
    rewrite Hlast. cbn [render].
    destruct t as [nm | nm children]; cbn [shows_tree height_tree render_tree] in *.
    + destruct Ht as [Hty <-]. rewrite Hty. cbn iota.
      edestruct (IH frest isLast) as (isLast' & Hrun & Hlen' & Htake);
        [exact Hlen | exact Hrest | lia | lia |].
      exists isLast'. rewrite Hrun, <- app_assoc.
      split; [| auto]. destruct (is_last frest); reflexivity.
    + destruct Ht as (Hty & <- & nextDir & dirFile & directory & Hjoin & Hopen & Hdir & Hsub).
      rewrite Hty. cbn iota. rewrite Hjoin. cbn [mbind Outcome_bind].
      replace (Z.quot tab 4 - 1) with (Z.of_nat k) by lia.
      rewrite store_in_range by lia. cbn [mbind Outcome_bind]. rewrite Nat2Z.id.
      edestruct (Hrec nextDir (<[k := is_last frest]> isLast))
        as (isLast1 & Hrun1 & Hlen1 & Htake1);
        [rewrite length_insert; exact Hlen | exact Hopen | exact Hdir | exact Hsub
        | lia | lia |].
      rewrite Hrun1. cbn [mbind Outcome_bind].
      rewrite take_S_insert in Htake1 |- * by lia.
      assert (take k isLast1 = take k isLast) as Hk1.
      { apply (f_equal (take k)) in Htake1.
        rewrite take_take, Nat.min_l, take_app_length' in Htake1
          by (try rewrite length_take; lia).
        exact Htake1. }
      edestruct (IH frest isLast1) as (isLast' & Hrun & Hlen' & Htake);
        [exact Hlen1 | exact Hrest | lia | lia |].
      rewrite Hrun. exists isLast'.
      rewrite Hk1 in *. rewrite indent_of_app, <- !app_assoc.
      split; [| auto]. destruct (is_last frest); reflexivity.
Qed.

Lemma RecursiveList_renders (fs : FileSystem) (d : Disk) (n : nat) :
  ∀ (path : string) (tab : Z) (isLast : list bool) (cout : list string)
    (dirFile : OpenFile) (directory : Directory) (forest : Forest),
    4 ≤ tab →
    length (if tab =? 4 then isLast_new else isLast) = 1024%nat →
    OpenDir fs path d = Done (Some dirFile) →
    Directory_FetchFrom (Directory_new NumDirEntries) dirFile d = Done directory →
    shows fs d path (List.filter inUse directory) forest →
    (height forest + Z.to_nat (Z.quot tab 4 - 1) ≤ 1024)%nat →
    (height forest < n)%nat →
    ∃ isLast',
      RecursiveList n fs d path tab isLast cout
      = Done (isLast',
              cout ++ render (indent_of (take (Z.to_nat (Z.quot tab 4 - 1))
                                           (if tab =? 4 then isLast_new else isLast)))
                             forest)
      ∧ length isLast' = 1024%nat
      ∧ take (Z.to_nat (Z.quot tab 4 - 1)) isLast'
        = take (Z.to_nat (Z.quot tab 4 - 1)) (if tab =? 4 then isLast_new else isLast).
Proof.
  induction n as [| n IH];
    intros path tab isLast cout dirFile directory forest Htab Hlen Hopen Hdir Hshows Hheight Hn;
    [lia |].
  cbn [RecursiveList]. rewrite Hopen. cbn [mbind Outcome_bind]. rewrite Hdir.
  cbn [mbind Outcome_bind].
  destruct (tab_step tab Htab) as (Hq & Hstep & Hne).
  apply (RecursiveList_entries_renders _ fs d path tab _ n Htab eq_refl);
    [| assumption | assumption | assumption | lia].
  intros nextDir isLast1 cout1 dirFile1 directory1 forest1 Hlen1 Hopen1 Hdir1 Hshows1 Hh1 Hn1.
  specialize (IH nextDir (tab + 4) isLast1 cout1 dirFile1 directory1 forest1).
  rewrite Hne, Hstep in IH. apply IH; first [assumption | lia].
Qed.

(** X20.  [RecursiveList] at [tab = 4] of a directory that resolves, whose
    tree of entries in use is [forest], with no more than 1024 folders nested
    in one another, prints the drawing of the tree and nothing else: a line
    for each entry in the order of the tables, [├──] before an entry that is
    not the last one in use of its table and [└──] before the last, a
    directory in blue with a slash after its name and its entries under it,
    four columns further right, the first of them a bar when the directory
    is not the last entry.  A budget above the height of the tree is
    enough. *)
Theorem RecursiveList_draws_tree (fuel : nat) (fs : FileSystem) (d : Disk)
    (path : string) (isLast : list bool) (cout : list string)
    (dirFile : OpenFile) (directory : Directory) (forest : Forest) :
  OpenDir fs path d = Done (Some dirFile) →
  Directory_FetchFrom (Directory_new NumDirEntries) dirFile d = Done directory →
  shows fs d path (List.filter inUse directory) forest →
  (height forest ≤ 1024)%nat →
  (height forest < fuel)%nat →
  ∃ isLast',
    RecursiveList fuel fs d path 4 isLast cout = Done (isLast', cout ++ render "" forest).
Proof.
  intros Hopen Hdir Hshows Hheight Hfuel.
  destruct (RecursiveList_renders fs d fuel path 4 isLast cout dirFile directory forest)
    as (isLast' & Hrun & _); try assumption.
  - lia.
  - reflexivity.
  - change (Z.to_nat (Z.quot 4 4 - 1)) with 0%nat. lia.
  - exists isLast'. exact Hrun.
Qed.

Lemma RecursiveList_draws_tree_witness :
  let d := disk (after [OpCreateDirectory "d" "/"; OpCreate "/d/x" 10; OpCreate "/y" 5]) in
  let forest := Fcons (Folder "d" (Fcons (File "x") Fnil)) (Fcons (File "y") Fnil) in
  OpenDir fs0 "/" d = Done (Some (handle (OpenDir fs0 "/" d)))
  ∧ Directory_FetchFrom (Directory_new NumDirEntries) (handle (OpenDir fs0 "/" d)) d
    = Done (table_of fs0 "/" d)
  ∧ shows fs0 d "/" (List.filter inUse (table_of fs0 "/" d)) forest
  ∧ (height forest ≤ 1024)%nat
  ∧ (height forest < 2)%nat
  ∧ render "" forest
    = [("├──" ++ blue ++ "d/" ++ reset)%string;
       ("│   └──x" ++ reset)%string;
       ("└──y" ++ reset)%string]
  ∧ ∃ isLast',
      RecursiveList 2 fs0 d "/" 4 [] [] = Done (isLast', [] ++ render "" forest).
Proof.
  intros d forest.
  assert (OpenDir fs0 "/" d = Done (Some (handle (OpenDir fs0 "/" d)))) as Hopen
    by (vm_compute; reflexivity).
  assert (Directory_FetchFrom (Directory_new NumDirEntries) (handle (OpenDir fs0 "/" d)) d
          = Done (table_of fs0 "/" d)) as Hdir by (vm_compute; reflexivity).
  assert (shows fs0 d "/" (List.filter inUse (table_of fs0 "/" d)) forest) as Hshows.
  { assert (List.filter inUse (table_of fs0 "/" d)
            = [mkDirectoryEntry true true 13 "d"; mkDirectoryEntry true false 27 "y"]) as ->
      by (vm_compute; reflexivity).
    cbn [shows shows_tree forest type name].
    split; [| split; [split; reflexivity | exact I]].
    split; [reflexivity |]. split; [reflexivity |].
    exists "/d"%string, (handle (OpenDir fs0 "/d" d)), (table_of fs0 "/d" d).
    split; [vm_compute; reflexivity |]. split; [vm_compute; reflexivity |].
    split; [vm_compute; reflexivity |].
    assert (List.filter inUse (table_of fs0 "/d" d)
            = [mkDirectoryEntry true false 24 "x"]) as -> by (vm_compute; reflexivity).
    cbn [shows shows_tree type name]. split; [split; reflexivity | exact I]. }
  split; [exact Hopen |]. split; [exact Hdir |]. split; [exact Hshows |].
  split; [cbn; lia |]. split; [cbn; lia |]. split; [reflexivity |].
  apply (RecursiveList_draws_tree 2 fs0 d "/" [] [] (handle (OpenDir fs0 "/" d))
           (table_of fs0 "/" d) forest Hopen Hdir Hshows); cbn; lia.
Defined.

Lemma RecursiveList_entries_tab_below_4
    (recurse : string → Z → list bool → list string → Outcome (list bool * list string))
    (path : string) (tab : Z) :
  tab < 4 →
  ∀ (table : Directory) (totalCount : Z) (isLast : list bool) (cout : list string),
    (∃ e, e ∈ table ∧ inUse e = true ∧ type e = true) →
    RecursiveList_entries recurse path tab table totalCount isLast cout = Undefined.
Proof.
  intros Htab.
  assert (Z.quot tab 4 - 1 < 0) as Hq by (Z.to_euclidean_division_equations; lia).
  induction table as [| e0 rest IH]; intros totalCount isLast cout (e & Hin & Huse & Hty).
  - apply elem_of_nil in Hin. contradiction.
  - cbn [RecursiveList_entries].
    assert (Z.to_nat (Z.quot tab 4 - 1) = 0%nat) as -> by lia.
    cbn [RecursiveList_indent mbind Outcome_bind].
    apply elem_of_cons in Hin as [-> | Hin].
    + rewrite Huse, Hty.
      pose proof (bounded_JoinPath path (name e0)) as Hjoin.
      destruct (JoinPath path (name e0)); cbn [mbind Outcome_bind];
        [| reflexivity | contradiction].
      unfold store. destruct (Z.leb_spec 0 (Z.quot tab 4 - 1)); [lia | reflexivity].
    + destruct (inUse e0); [| apply IH; eauto].
      destruct (type e0) eqn:Hty0; [| apply IH; eauto].
      pose proof (bounded_JoinPath path (name e0)) as Hjoin.
      destruct (JoinPath path (name e0)); cbn [mbind Outcome_bind];
        [| reflexivity | contradiction].
      unfold store. destruct (Z.leb_spec 0 (Z.quot tab 4 - 1)); [lia | reflexivity].
Qed.

(** X21.  [RecursiveList] must not be called with [tab] below 4: when the
    directory resolves and holds a directory among its entries in use, the
    call writes [isLast[tab / 4 - 1]], which is [isLast[-1]] or lower, and
    has no defined result. *)
Theorem RecursiveList_tab_below_4 (fuel : nat) (fs : FileSystem) (d : Disk)
    (path : string) (tab : Z) (isLast : list bool) (cout : list string)
    (dirFile : OpenFile) (directory : Directory) :
  tab < 4 →
  OpenDir fs path d = Done (Some dirFile) →
  Directory_FetchFrom (Directory_new NumDirEntries) dirFile d = Done directory →
  (∃ e, e ∈ directory ∧ inUse e = true ∧ type e = true) →
  RecursiveList (S fuel) fs d path tab isLast cout = Undefined.
Proof.
  intros Htab Hopen Hdir Hsub. cbn [RecursiveList].
  rewrite Hopen. cbn [mbind Outcome_bind]. rewrite Hdir. cbn [mbind Outcome_bind].
  apply RecursiveList_entries_tab_below_4; assumption.
Qed.

Lemma RecursiveList_tab_below_4_witness :
  let d := disk (after [OpCreateDirectory "d" "/"]) in
  0 < 4
  ∧ OpenDir fs0 "/" d = Done (Some (handle (OpenDir fs0 "/" d)))
  ∧ Directory_FetchFrom (Directory_new NumDirEntries) (handle (OpenDir fs0 "/" d)) d
    = Done (table_of fs0 "/" d)
  ∧ (∃ e, e ∈ table_of fs0 "/" d ∧ inUse e = true ∧ type e = true)
  ∧ RecursiveList 1 fs0 d "/" 0 isLast_new [] = Undefined.
Proof.
  intros d.
  assert (∃ e, e ∈ table_of fs0 "/" d ∧ inUse e = true ∧ type e = true) as Hsub.
  { exists (mkDirectoryEntry true true 13 "d").
    split; [| split; reflexivity].
    assert (table_of fs0 "/" d
            = mkDirectoryEntry true true 13 "d" :: tail (table_of fs0 "/" d)) as ->
      by (vm_compute; reflexivity).
    apply elem_of_cons. left. reflexivity. }
  split; [lia |]. split; [vm_compute; reflexivity |]. split; [vm_compute; reflexivity |].
  split; [exact Hsub |].
  apply (RecursiveList_tab_below_4 0 fs0 d "/" 0 isLast_new []
           (handle (OpenDir fs0 "/" d)) (table_of fs0 "/" d));
    [lia | vm_compute; reflexivity | vm_compute; reflexivity | exact Hsub].
Defined.

(** ** A file too large for [Create] *)

Lemma clear_bits_insert (freeMap : list bool) :
  ∀ n, freeMap !! n = Some false →
       S (clear_bits (<[n := true]> freeMap)) = clear_bits freeMap.
Proof.
  unfold clear_bits.
  induction freeMap as [| b freeMap IH]; intros n H; [discriminate |].
  destruct n as [| n].
  - injection H as ->. reflexivity.
  - change (<[S n := true]> (b :: freeMap)) with (b :: <[n := true]> freeMap).
    change ((b :: freeMap) !! S n) with (freeMap !! n) in H.
    apply IH in H. cbn [List.filter]. destruct b; cbn [negb length]; congruence.
Qed.

Lemma first_clear_None (freeMap : list bool) :
  ∀ i, first_clear freeMap i = None → clear_bits freeMap = 0%nat.
Proof.
  unfold clear_bits.
  induction freeMap as [| b freeMap IH]; intros i H; [reflexivity |].
  cbn in H |- *. destruct b; [| discriminate]. exact (IH _ H).
Qed.

Lemma FindAndSet_clear_bits (freeMap freeMap' : list bool) (s : Z) :
  FindAndSet freeMap = (s, freeMap') →
  (clear_bits freeMap ≤ S (clear_bits freeMap'))%nat
  ∧ ((1 ≤ clear_bits freeMap)%nat → s ≠ -1).
Proof.
  unfold FindAndSet. destruct (first_clear freeMap 0) as [j |] eqn:Hfirst.
  - intros [= <- <-]. apply first_clear_spec in Hfirst as [Hj Hbit].
    rewrite Z.sub_0_r in Hbit. pose proof (clear_bits_insert _ _ Hbit) as Hcount.
    unfold Bitmap in *. split; [lia |]. intros _. lia.
  - intros [= <- <-]. apply first_clear_None in Hfirst. rewrite Hfirst.
    split; lia.
Qed.

Lemma Create_level1Sectors_overrun (n : nat) :
  ∀ (i : nat) (level1Sector : list Z) (freeMap : list bool),
    (i ≤ length level1Sector < i + n)%nat →
    (length level1Sector - i ≤ clear_bits freeMap)%nat →
    Create_level1Sectors n (Z.of_nat i) level1Sector freeMap = Undefined.
Proof.
  induction n as [| n IH]; intros i level1Sector freeMap Hi Hfree; [lia |].
  cbn [Create_level1Sectors].
  destruct (FindAndSet freeMap) as [s freeMap'] eqn:Hfind.
  apply FindAndSet_clear_bits in Hfind as [Hless Hfound].
  destruct (decide (i = length level1Sector)) as [-> | Hne].
  - unfold store. rewrite Z.ltb_irrefl, andb_false_r. reflexivity.
  - rewrite store_in_range by lia. cbn [mbind Outcome_bind].
    destruct (Z.eqb_spec s (-1)) as [-> | _]; [exfalso; apply Hfound; [lia | reflexivity] |].
    replace (Z.of_nat i + 1) with (Z.of_nat (S i)) by lia.
    apply IH; rewrite length_insert; lia.
Qed.

(** X22.  [Create] has room for [NumDirect] level-1 headers.  For a size
    that needs more, when the parent resolves, the name is new and the
    bitmap has more than [NumDirect] clear bits, the loop of lines 225-232
    writes [level1Sector[NumDirect]], past the end of the array: the call has
    no defined result, rather than FALSE. *)
Theorem Create_too_large_overruns (fs : FileSystem) (name : string) (initialSize : Z)
    (d : Disk) (parent filename : string) (dirFile : OpenFile) (directory : Directory)
    (freeMap : Bitmap) :
  NumDirect * (NumDirect * SectorSize) < initialSize →
  SplitPath name = Done (parent, filename) →
  OpenDir fs parent d = Done (Some dirFile) →
  Directory_FetchFrom (Directory_new NumDirEntries) dirFile d = Done directory →
  Find directory filename = -1 →
  PersistentBitmap_new (freeMapFile fs) NumSectors d = Done freeMap →
  (Z.to_nat NumDirect < clear_bits freeMap)%nat →
  Create fs name initialSize d = Undefined.
Proof.
  intros Hsize Hsplit Hopen Hdir Hfind Hmap Hfree. unfold Create.
  rewrite Hsplit. cbn [mbind Outcome_bind]. rewrite Hopen. cbn [mbind Outcome_bind].
  rewrite Hdir. cbn [mbind Outcome_bind]. rewrite Hfind. cbn [Z.eqb negb].
  rewrite Hmap. cbn [mbind Outcome_bind].
  destruct (FindAndSet freeMap) as [sector freeMap1] eqn:Hsector.
  apply FindAndSet_clear_bits in Hsector as [Hless _].
  change (SectorSize * NumDirect) with 3712.
  change (NumDirect * (NumDirect * SectorSize)) with (29 * 3712) in Hsize.
  change (Z.to_nat NumDirect) with 29%nat in *.
  rewrite to_unsigned_nonneg by lia.
  pose proof (divRoundUp_positive initialSize ltac:(lia)) as Hround.
  rewrite (Create_level1Sectors_overrun _ 0); [reflexivity | |].
  - rewrite length_replicate. lia.
  - rewrite length_replicate. lia.
Qed.

Lemma Create_too_large_overruns_witness :
  let d := disk world0 in
  NumDirect * (NumDirect * SectorSize) < 107649
  ∧ (Z.to_nat NumDirect
     < clear_bits (returned [] (PersistentBitmap_new (freeMapFile fs0) NumSectors d)))%nat
  ∧ Create fs0 "/f" 107649 d = Undefined.
Proof.
  intros d. split; [vm_compute; reflexivity |]. split; [vm_compute; lia |].
  apply (Create_too_large_overruns fs0 "/f" 107649 d "/" "f" (handle (OpenDir fs0 "/" d))
           (table_of fs0 "/" d)
           (returned [] (PersistentBitmap_new (freeMapFile fs0) NumSectors d)));
    [vm_compute; reflexivity .. | vm_compute; lia].
Defined.

(** ** [JoinPath] without room *)

Lemma strcat_overflow (q rest : list ascii) (s0 : string) :
  without NUL q →
  (length (q ++ NUL :: rest) ≤ length q + length (until_nul (chars s0)))%nat →
  strcat (q ++ NUL :: rest) s0 = Undefined.
Proof.
  intros Hq Hroom. unfold strcat. rewrite strlen_app by exact Hq.
  cbn [mbind Outcome_bind].
  destruct (Z.ltb_spec (Z.of_nat (length (until_nul (chars s0))) + Z.of_nat (length q))
                       (Z.of_nat (length (q ++ NUL :: rest)))) as [Hyes | _];
    [exfalso; lia | reflexivity].
Qed.

(** X24.  [JoinPath] does not check the size of [dest]: when the parent fits
    the buffer but the parent, the slash it needs and the name together take
    [PathMax] characters or more, [strcat] writes past the end of the buffer
    and the call has no defined result. *)
Theorem JoinPath_overflow (parent name : string) :
  until_nul (chars parent) ≠ [] →
  (length (until_nul (chars parent)) < PathMax)%nat →
  (PathMax ≤ length (until_nul (chars parent))
             + length (separator (until_nul (chars parent)))
             + length (until_nul (chars name)))%nat →
  JoinPath parent name = Undefined.
Proof.
  intros Hne Hfit Hover. unfold JoinPath.
  set (p := until_nul (chars parent)) in *. set (n := until_nul (chars name)) in *.
  pose proof (until_nul_without (chars parent)) as Hp. fold p in Hp.
  destruct (strncpy_short parent PathMax) as [rest Hbuf]; [fold p; lia |].
  fold p in Hbuf. rewrite Hbuf.
  assert (length (p ++ NUL :: rest) = PathMax) as Hlen.
  { rewrite <- Hbuf. unfold strncpy. fold p.
    rewrite length_app, length_replicate, length_take. unfold PathMax in *. lia. }
  rewrite strlen_app by exact Hp. cbn [mbind Outcome_bind].
  destruct (last p) as [c |] eqn:Hlast; [| apply last_None in Hlast; contradiction].
  assert (index (p ++ NUL :: rest) (Z.of_nat (length p) - 1) = Done c) as ->.
  { destruct p as [| c0 p0] using rev_ind; [contradiction |].
    rewrite last_snoc in Hlast. injection Hlast as ->.
    apply index_lookup; [rewrite length_app; cbn [length]; lia |].
    rewrite length_app. cbn [length].
    replace (Z.to_nat (Z.of_nat (length p0 + 1) - 1)) with (length p0) by lia.
    rewrite <- app_assoc. apply list_lookup_middle. reflexivity. }
  cbn [mbind Outcome_bind]. unfold separator in Hover. rewrite Hlast in Hover.
  destruct (Ascii.eqb c slash) eqn:Hc; cbn [mbind Outcome_bind length] in *.
  - rewrite strcat_overflow; [reflexivity | exact Hp | fold n; lia].
  - destruct (decide (length p + 1 < PathMax)%nat) as [Hroom | Hfull].
    + destruct (strcat_app p rest "/" Hp) as (rest1 & -> & Hlen1);
        [change (until_nul (chars "/")) with [slash]; cbn [length]; lia |].
      cbn [mbind Outcome_bind].
      change (until_nul (chars "/")) with [slash] in *.
      assert (without NUL (p ++ [slash])) as Hps.
      { apply Forall_app. split; [exact Hp | repeat constructor]. }
      rewrite strcat_overflow; [reflexivity | exact Hps |].
      fold n. rewrite Hlen1, Hlen, length_app. cbn [length]. lia.
    + rewrite strcat_overflow; [reflexivity | exact Hp |].
      change (until_nul (chars "/")) with [slash]. cbn [length]. lia.
Qed.

Lemma JoinPath_overflow_witness :
  let parent := string_of_list_ascii (replicate 1020 "a"%char) in
  until_nul (chars parent) ≠ []
  ∧ (length (until_nul (chars parent)) < PathMax)%nat
  ∧ (PathMax ≤ length (until_nul (chars parent))
               + length (separator (until_nul (chars parent)))
               + length (until_nul (chars "name")))%nat
  ∧ JoinPath parent "name" = Undefined.
Proof.
  intros parent.
  assert (until_nul (chars parent) ≠ []) as Hne by (vm_compute; discriminate).
  split; [exact Hne |]. split; [vm_compute; lia |]. split; [vm_compute; lia |].
  apply (JoinPath_overflow parent "name" Hne); vm_compute; lia.
Defined.

(** ** The disk: what a write changes and what a read sees *)

(** The names of the list types stand in the way of rewriting. *)
Ltac plain := unfold Disk, Sector, Bitmap, Directory in *.

Lemma WriteSector_Done (d d' : Disk) (s : Z) (data : Sector) :
  WriteSector d s data = Done d' →
  0 ≤ s < NumSectors ∧ 0 ≤ s < Z.of_nat (length d)
  ∧ d' = <[Z.to_nat s := take (Z.to_nat SectorSize)
                              (data ++ replicate (Z.to_nat SectorSize) 0)]> d.
Proof.
  unfold WriteSector, ASSERT. intros H.
  destruct (Z.leb_spec 0 s), (Z.ltb_spec s NumSectors); cbn in H; try discriminate.
  apply store_Done in H as (Hrange & ->). auto with lia.
Qed.

Lemma ReadSector_lookup (d : Disk) (s : Z) (x : Sector) :
  0 ≤ s < NumSectors → d !! Z.to_nat s = Some x → ReadSector d s = Done x.
Proof.
  intros Hs Hx. unfold ReadSector, ASSERT.
  destruct (Z.leb_spec 0 s), (Z.ltb_spec s NumSectors); try lia.
  cbn. apply index_lookup; [lia | exact Hx].
Qed.

Lemma ReadSector_Done (d : Disk) (s : Z) (x : Sector) :
  ReadSector d s = Done x → 0 ≤ s < NumSectors ∧ d !! Z.to_nat s = Some x.
Proof.
  unfold ReadSector, ASSERT. intros H.
  destruct (Z.leb_spec 0 s), (Z.ltb_spec s NumSectors); cbn in H; try discriminate.
  apply index_Done in H as (_ & H). auto with lia.
Qed.

Lemma ReadSector_same (d1 d2 : Disk) (s : Z) :
  d1 !! Z.to_nat s = d2 !! Z.to_nat s → ReadSector d1 s = ReadSector d2 s.
Proof.
  intros H. unfold ReadSector.
  destruct (ASSERT _); cbn [mbind Outcome_bind]; try reflexivity.
  unfold index, Disk in *. rewrite H. reflexivity.
Qed.

Lemma padded_length (data : Sector) :
  length (take (Z.to_nat SectorSize) (data ++ replicate (Z.to_nat SectorSize) 0))
  = Z.to_nat SectorSize.
Proof. rewrite length_take, length_app, length_replicate. lia. Qed.

Lemma padded_full (data : Sector) :
  length data = Z.to_nat SectorSize →
  take (Z.to_nat SectorSize) (data ++ replicate (Z.to_nat SectorSize) 0) = data.
Proof. intros H. rewrite take_app_le by lia. apply take_ge. lia. Qed.

Lemma sized_insert (d : Disk) (j : nat) (data : Sector) :
  sized d → length data = Z.to_nat SectorSize → sized (<[j := data]> d).
Proof.
  intros Hd Hdata. unfold sized. apply Forall_insert; assumption.
Qed.

(** ** Serialised integers and headers *)

Lemma decode_encode_int (x : Z) : int_range x → decode_int (encode_int x) = x.
Proof.
  unfold int_range, decode_int, encode_int. intros Hx. cbn [nth].
  destruct (Z.ltb_spec
              (x mod 256 + 256 * ((x / 256) mod 256) + 65536 * ((x / 65536) mod 256)
               + 16777216 * ((x / 16777216) mod 256)) 2147483648);
    Z.to_euclidean_division_equations; lia.
Qed.

Lemma encode_int_length (x : Z) : length (encode_int x) = 4%nat.
Proof. reflexivity. Qed.

Lemma flat_encode_length (l : list Z) :
  length (flat_map encode_int l) = (4 * length l)%nat.
Proof.
  induction l as [| x l IH]; [reflexivity |].
  change (flat_map encode_int (x :: l)) with (encode_int x ++ flat_map encode_int l).
  rewrite length_app, IH, encode_int_length. cbn [length]. lia.
Qed.

Lemma decode_encode_ints (l : list Z) :
  Forall int_range l →
  ∀ rest, decode_ints (length l) (flat_map encode_int l ++ rest) = l.
Proof.
  induction 1 as [| x l Hx _ IH]; intros rest; [reflexivity |].
  change (flat_map encode_int (x :: l)) with (encode_int x ++ flat_map encode_int l).
  cbn [length decode_ints]. rewrite <- app_assoc.
  change 4%nat with (length (encode_int x)).
  rewrite take_app_length, drop_app_length, IH, decode_encode_int by exact Hx.
  reflexivity.
Qed.

Lemma encode_header_length (h : FileHeader) :
  length (dataSectors h) = Z.to_nat NumDirect →
  length (encode_header h) = Z.to_nat SectorSize.
Proof.
  intros H. unfold encode_header.
  rewrite !length_app, !encode_int_length, flat_encode_length, H. reflexivity.
Qed.

Lemma decode_encode_header (h : FileHeader) :
  header_ok h → decode_header (encode_header h) = h.
Proof.
  intros (Hb & Hn & Hl & Hlen & Hds). destruct h as [nb ns lv ds].
  cbn [numBytes numSectors level dataSectors] in *.
  pose proof (decode_encode_ints ds Hds []) as Hints. rewrite app_nil_r, Hlen in Hints.
  unfold decode_header, encode_header. cbn [numBytes numSectors level dataSectors].
  f_equal.
  - exact (decode_encode_int nb Hb).
  - exact (decode_encode_int ns Hn).
  - exact (decode_encode_int lv Hl).
  - exact Hints.
Qed.

(** A header that was written to a sector is the header the sector holds. *)
Lemma FetchFrom_WriteBack (h : FileHeader) (sector : Z) (d d' : Disk) :
  header_ok h →
  FileHeader_WriteBack h sector d = Done d' →
  FileHeader_FetchFrom sector d' = Done h.
Proof.
  intros Hok H. unfold FileHeader_WriteBack in H.
  apply WriteSector_Done in H as (Hs & Hlen & ->).
  unfold FileHeader_FetchFrom.
  rewrite (ReadSector_lookup _ _ (encode_header h)); [| exact Hs |].
  - cbn [mbind Outcome_bind]. rewrite decode_encode_header by exact Hok. reflexivity.
  - plain. rewrite list_lookup_insert_eq by lia. f_equal. apply padded_full.
    apply encode_header_length. apply Hok.
Qed.

Lemma FetchFrom_same (sector : Z) (d1 d2 : Disk) :
  d1 !! Z.to_nat sector = d2 !! Z.to_nat sector →
  FileHeader_FetchFrom sector d1 = FileHeader_FetchFrom sector d2.
Proof. intros H. unfold FileHeader_FetchFrom. rewrite (ReadSector_same _ _ _ H). reflexivity. Qed.

Lemma WriteBack_frame (h : FileHeader) (sector : Z) (d d' : Disk) :
  FileHeader_WriteBack h sector d = Done d' →
  0 ≤ sector < NumSectors
  ∧ length d' = length d ∧ (sized d → sized d')
  ∧ ∀ j : nat, j ≠ Z.to_nat sector → d' !! j = d !! j.
Proof.
  intros H. apply WriteSector_Done in H as (Hs & Hlen & ->).
  split; [exact Hs |]. split; [apply length_insert |]. split.
  - intros Hd. apply sized_insert; [exact Hd | apply padded_length].
  - intros j Hj. plain. apply list_lookup_insert_ne. congruence.
Qed.

(** ** The serialised bitmap *)

Lemma bits_of_byte (bits : list bool) :
  length bits = 8%nat →
  map (Z.testbit (byte_of_bits bits)) [0; 1; 2; 3; 4; 5; 6; 7] = bits.
Proof.
  intros H.
  do 9 (destruct bits as [| ? bits]; try discriminate H).
  repeat match goal with b : bool |- _ => destruct b end; reflexivity.
Qed.

Lemma bits_of_bytes_of_bits (n : nat) :
  ∀ bits, length bits = (8 * n)%nat → bits_of_bytes (bytes_of_bits n bits) = bits.
Proof.
  induction n as [| n IH]; intros bits H.
  - destruct bits; [reflexivity | discriminate].
  - cbn [bytes_of_bits]. unfold bits_of_bytes in *. cbn [flat_map].
    rewrite IH by (rewrite length_drop; lia).
    rewrite bits_of_byte by (rewrite length_take; lia).
    apply take_drop.
Qed.

Lemma bits_of_bytes_length (bs : list Z) :
  length (bits_of_bytes bs) = (8 * length bs)%nat.
Proof.
  unfold bits_of_bytes. induction bs as [| b bs IH]; [reflexivity |].
  cbn [flat_map]. rewrite length_app, IH. cbn [length map]. lia.
Qed.

Lemma bytes_of_bits_length (n : nat) : ∀ bits, length (bytes_of_bits n bits) = n.
Proof. induction n as [| n IH]; intros bits; cbn; [reflexivity | rewrite IH; reflexivity]. Qed.

(** ** Files with a direct header *)

Lemma ByteToSector_direct (h : FileHeader) (i : Z) (d : Disk) :
  level h ≠ 0 → ByteToSector h (i * SectorSize) d = index (dataSectors h) i.
Proof.
  intros H. unfold ByteToSector. destruct (Z.eqb_spec (level h) 0); [contradiction |].
  rewrite Z.div_mul by (unfold SectorSize; lia). reflexivity.
Qed.

Lemma write_sectors_spec (f : OpenFile) (n : nat) :
  direct f →
  ∀ (i : nat) (buf : list Z) (d d' : Disk),
    write_sectors f n (Z.of_nat i) buf d = Done d' →
    length d' = length d ∧ (sized d → sized d')
    ∧ ∀ j : nat, Z.of_nat j ∉ take n (drop i (dataSectors (hdr f))) → d' !! j = d !! j.
Proof.
  intros Hf. induction n as [| n IH]; intros i buf d d' H; cbn [write_sectors] in H.
  - injection H as <-. auto.
  - rewrite ByteToSector_direct in H by exact Hf.
    apply bind_Done in H as (s & Hs & H). apply bind_Done in H as (d1 & Hw & H).
    apply index_Done in Hs as (_ & Hs). rewrite Nat2Z.id in Hs.
    apply WriteSector_Done in Hw as (Hrange & Hlen & ->).
    replace (Z.of_nat i + 1) with (Z.of_nat (S i)) in H by lia.
    apply IH in H as (Hlen' & Hsized & Hframe). plain.
    rewrite length_insert in Hlen'. split; [exact Hlen' |]. split.
    + intros Hd. apply Hsized. apply sized_insert; [exact Hd | apply padded_length].
    + intros j Hj. rewrite (drop_S _ s) in Hj by exact Hs. cbn [take] in Hj.
      rewrite not_elem_of_cons in Hj. destruct Hj as [Hne Hj].
      rewrite Hframe by exact Hj. apply list_lookup_insert_ne. lia.
Qed.

Lemma read_sectors_same (f : OpenFile) (n : nat) :
  direct f →
  ∀ (i : Z) (d1 d2 : Disk),
    (∀ s, s ∈ dataSectors (hdr f) → 0 ≤ s → d1 !! Z.to_nat s = d2 !! Z.to_nat s) →
    read_sectors f n i d1 = read_sectors f n i d2.
Proof.
  intros Hf. induction n as [| n IH]; intros i d1 d2 Hsame; cbn [read_sectors];
    [reflexivity |].
  rewrite !ByteToSector_direct by exact Hf.
  destruct (index (dataSectors (hdr f)) i) as [s | |] eqn:Hs; cbn [mbind Outcome_bind];
    try reflexivity.
  apply index_Done in Hs as (_ & Hs). apply list_elem_of_lookup_2 in Hs.
  rewrite (IH (i + 1) d1 d2 Hsame).
  destruct (Z.leb_spec 0 s) as [Hpos | Hneg].
  - rewrite (ReadSector_same d1 d2 s (Hsame s Hs Hpos)). reflexivity.
  - unfold ReadSector, ASSERT. destruct (Z.leb_spec 0 s); [lia |]. reflexivity.
Qed.

Lemma read_sectors_length (f : OpenFile) (n : nat) :
  ∀ (i : Z) (d : Disk) (buf : list Z),
    sized d → read_sectors f n i d = Done buf →
    length buf = (n * Z.to_nat SectorSize)%nat.
Proof.
  induction n as [| n IH]; intros i d buf Hd H; cbn [read_sectors] in H.
  - injection H as <-. reflexivity.
  - apply bind_Done in H as (s & _ & H). apply bind_Done in H as (data & Hdata & H).
    apply bind_Done in H as (rest & Hrest & H). injection H as <-.
    apply ReadSector_Done in Hdata as (_ & Hdata).
    rewrite length_app, (IH _ _ _ Hd Hrest).
    rewrite (proj1 (Forall_lookup _ _) Hd _ _ Hdata). lia.
Qed.

(** What was written over the sectors of a file is what is read from them. *)
Lemma read_write_sectors (f : OpenFile) (n : nat) :
  direct f →
  ∀ (i : nat) (buf : list Z) (d d' : Disk),
    NoDup (take n (drop i (dataSectors (hdr f)))) →
    length buf = (n * Z.to_nat SectorSize)%nat →
    write_sectors f n (Z.of_nat i) buf d = Done d' →
    read_sectors f n (Z.of_nat i) d' = Done buf.
Proof.
  intros Hf. induction n as [| n IH]; intros i buf d d' Hnodup Hlen H;
    cbn [write_sectors read_sectors] in *.
  - destruct buf; [reflexivity | discriminate].
  - rewrite ByteToSector_direct in * by exact Hf.
    apply bind_Done in H as (s & Hs & H). apply bind_Done in H as (d1 & Hw & H).
    rewrite Hs. cbn [mbind Outcome_bind].
    apply index_Done in Hs as (_ & Hs). rewrite Nat2Z.id in Hs.
    rewrite (drop_S _ s) in Hnodup by exact Hs. cbn [take] in Hnodup.
    apply NoDup_cons in Hnodup as [Hfresh Hnodup].
    apply WriteSector_Done in Hw as (Hrange & Hlt & ->).
    replace (Z.of_nat i + 1) with (Z.of_nat (S i)) in * by lia.
    pose proof (write_sectors_spec f n Hf _ _ _ _ H) as (_ & _ & Hframe).
    rewrite (ReadSector_lookup _ _ (take (Z.to_nat SectorSize) buf)); [| exact Hrange |].
    + cbn [mbind Outcome_bind].
      rewrite (IH (S i) (drop (Z.to_nat SectorSize) buf) _ d' Hnodup
                 ltac:(rewrite length_drop; lia) H).
      cbn [mbind Outcome_bind]. rewrite take_drop. reflexivity.
    + rewrite Hframe by (rewrite Z2Nat.id by lia; exact Hfresh).
      plain. rewrite list_lookup_insert_eq by lia. f_equal.
      apply padded_full. rewrite length_take. lia.
Qed.

(** [WriteAt] from the start of a file changes nothing but the sectors of
    the file. *)
Lemma WriteAt_frame (f : OpenFile) (from : list Z) (numBytes k : Z) (d d' : Disk) :
  direct f →
  WriteAt f from numBytes 0 d = Done (k, d') →
  length d' = length d ∧ (sized d → sized d')
  ∧ ∀ j : nat, Z.of_nat j ∉ dataSectors (hdr f) → d' !! j = d !! j.
Proof.
  intros Hf H. unfold WriteAt in H.
  destruct ((numBytes <=? 0) || (FileLength (hdr f) <=? 0)).
  - injection H as _ <-. auto.
  - apply bind_Done in H as (buf & _ & H). apply bind_Done in H as (d1 & Hw & H).
    injection H as _ <-.
    change (0 / SectorSize) with (Z.of_nat 0) in Hw.
    apply (write_sectors_spec f _ Hf) in Hw as (Hlen & Hsized & Hframe).
    split; [exact Hlen |]. split; [exact Hsized |].
    intros j Hj. apply Hframe. intros Hin. apply Hj.
    rewrite drop_0 in Hin. exact (subseteq_take _ _ _ Hin).
Qed.

Lemma ReadAt_same (f : OpenFile) (numBytes position : Z) (d1 d2 : Disk) :
  direct f →
  (∀ s, s ∈ dataSectors (hdr f) → 0 ≤ s → d1 !! Z.to_nat s = d2 !! Z.to_nat s) →
  ReadAt f numBytes position d1 = ReadAt f numBytes position d2.
Proof.
  intros Hf Hsame. unfold ReadAt.
  destruct ((numBytes <=? 0) || (FileLength (hdr f) <=? position)); [reflexivity |].
  rewrite (read_sectors_same f _ Hf _ d1 d2 Hsame). reflexivity.
Qed.

(** The first [numBytes] bytes written from the start of a file are the
    bytes read from there. *)
Lemma ReadAt_WriteAt (f : OpenFile) (from : list Z) (numBytes k : Z) (d d' : Disk) :
  direct f → sized d →
  0 < numBytes ≤ FileLength (hdr f) →
  numBytes ≤ Z.of_nat (length from) →
  NoDup (take (Z.to_nat (1 + (numBytes - 1) / SectorSize)) (dataSectors (hdr f))) →
  WriteAt f from numBytes 0 d = Done (k, d') →
  ReadAt f numBytes 0 d' = Done (take (Z.to_nat numBytes) from).
Proof.
  intros Hf Hd Hn Hfrom Hnodup H. unfold WriteAt, ReadAt in *.
  destruct (Z.leb_spec numBytes 0); [lia |].
  destruct (Z.leb_spec (FileLength (hdr f)) 0); [lia |]. cbn [orb] in *.
  destruct (Z.ltb_spec (FileLength (hdr f)) (0 + numBytes)); [lia |].
  change (0 / SectorSize) with (Z.of_nat 0) in *.
  rewrite Z.add_0_l, Z.sub_0_r in *.
  change (Z.of_nat 0 * SectorSize) with 0 in *. rewrite Z.sub_0_r in *.
  change (Z.to_nat 0) with 0%nat in *. cbn [drop take app Nat.add] in *.
  set (n := Z.to_nat (1 + (numBytes - 1) / SectorSize)) in *.
  apply bind_Done in H as (buf & Hbuf & H). apply bind_Done in H as (d1 & Hw & H).
  injection H as _ <-.
  pose proof (read_sectors_length _ _ _ _ _ Hd Hbuf) as Hlen.
  rewrite take_0 in Hw. cbn [app] in Hw.
  assert (numBytes ≤ Z.of_nat n * SectorSize) as Hroom.
  { subst n. unfold SectorSize in *. Z.to_euclidean_division_equations. lia. }
  assert (length (take (Z.to_nat numBytes) from ++ drop (Z.to_nat numBytes) buf)
          = (n * Z.to_nat SectorSize)%nat) as Hlen'.
  { rewrite length_app, length_take, length_drop, Hlen. unfold SectorSize in *. lia. }
  rewrite <- (drop_0 (dataSectors (hdr f))) in Hnodup.
  rewrite (read_write_sectors f n Hf 0%nat _ d d1 Hnodup Hlen' Hw).
  cbn [mbind Outcome_bind]. rewrite drop_0, take_app_le by (rewrite length_take; lia).
  rewrite take_take, Nat.min_id. reflexivity.
Qed.

(** ** The bitmap file *)

Lemma PersistentBitmap_new_length (file : OpenFile) (d : Disk) (freeMap : Bitmap) :
  PersistentBitmap_new file NumSectors d = Done freeMap →
  length freeMap = Z.to_nat NumSectors.
Proof.
  unfold PersistentBitmap_new, PersistentBitmap_FetchFrom. intros H.
  set (old := bytes_of_bits _ (Bitmap_new NumSectors)) in H.
  assert (length old = 16%nat) as Hold
    by (subst old; rewrite bytes_of_bits_length; reflexivity).
  clearbody old.
  apply bind_Done in H as (bs & _ & H). injection H as <-.
  rewrite length_take. unfold overlay.
  rewrite bits_of_bytes_length, length_app, length_drop, Hold.
  change (length (Bitmap_new NumSectors)) with 128%nat.
  change (Z.to_nat NumSectors) with 128%nat. lia.
Qed.

(** The bitmap written to its file is the bitmap the file holds. *)
Lemma PersistentBitmap_readback (file : OpenFile) (freeMap : list bool) (d d' : Disk) :
  direct file → sized d →
  FreeMapFileSize ≤ FileLength (hdr file) →
  length freeMap = Z.to_nat NumSectors →
  PersistentBitmap_WriteBack freeMap file d = Done d' →
  PersistentBitmap_new file NumSectors d' = Done freeMap.
Proof.
  intros Hf Hd Hsize Hlen H.
  unfold PersistentBitmap_WriteBack in H. rewrite Hlen in H.
  change (Z.of_nat (Z.to_nat NumSectors) / BitsInByte) with 16 in H.
  change (Z.to_nat 16) with 16%nat in H.
  apply bind_Done in H as ([k d1] & Hw & H). injection H as <-.
  unfold PersistentBitmap_new, PersistentBitmap_FetchFrom.
  set (old := bytes_of_bits _ (Bitmap_new NumSectors)).
  assert (length old = 16%nat) as Hold
    by (subst old; rewrite bytes_of_bits_length; reflexivity).
  clearbody old.
  change (Z.of_nat (length (Bitmap_new NumSectors)) / BitsInByte) with 16.
  rewrite (ReadAt_WriteAt file (bytes_of_bits 16 freeMap) 16 k d d1 Hf Hd).
  - cbn [mbind Outcome_bind]. f_equal. unfold overlay.
    change (Z.to_nat 16) with 16%nat.
    rewrite (take_ge (bytes_of_bits 16 freeMap)) by (rewrite bytes_of_bits_length; lia).
    rewrite drop_ge by (rewrite bytes_of_bits_length, Hold; lia).
    rewrite app_nil_r, bits_of_bytes_of_bits by (rewrite Hlen; reflexivity).
    apply take_ge. change (length (Bitmap_new NumSectors)) with 128%nat.
    rewrite Hlen. reflexivity.
  - unfold FreeMapFileSize in Hsize. lia.
  - rewrite bytes_of_bits_length. lia.
  - change (Z.to_nat (1 + (16 - 1) / SectorSize)) with 1%nat.
    destruct (dataSectors (hdr file)); [apply NoDup_nil_2 | apply NoDup_singleton].
  - exact Hw.
Qed.

Lemma PersistentBitmap_new_same (file : OpenFile) (d1 d2 : Disk) :
  direct file →
  (∀ s, s ∈ dataSectors (hdr file) → 0 ≤ s → d1 !! Z.to_nat s = d2 !! Z.to_nat s) →
  PersistentBitmap_new file NumSectors d1 = PersistentBitmap_new file NumSectors d2.
Proof.
  intros Hf Hsame. unfold PersistentBitmap_new, PersistentBitmap_FetchFrom.
  rewrite (ReadAt_same file _ _ d1 d2 Hf Hsame). reflexivity.
Qed.

Lemma PersistentBitmap_WriteBack_frame (file : OpenFile) (freeMap : Bitmap) (d d' : Disk) :
  direct file →
  PersistentBitmap_WriteBack freeMap file d = Done d' →
  length d' = length d ∧ (sized d → sized d')
  ∧ ∀ j : nat, Z.of_nat j ∉ dataSectors (hdr file) → d' !! j = d !! j.
Proof.
  intros Hf H. unfold PersistentBitmap_WriteBack in H.
  apply bind_Done in H as ([k d1] & Hw & H). injection H as <-.
  exact (WriteAt_frame _ _ _ _ _ _ Hf Hw).
Qed.

Lemma Directory_WriteBack_frame (table : Directory) (file : OpenFile) (d d' : Disk) :
  direct file →
  Directory_WriteBack table file d = Done d' →
  length d' = length d ∧ (sized d → sized d')
  ∧ ∀ j : nat, Z.of_nat j ∉ dataSectors (hdr file) → d' !! j = d !! j.
Proof.
  intros Hf H. unfold Directory_WriteBack in H.
  apply bind_Done in H as ([k d1] & Hw & H). injection H as <-.
  exact (WriteAt_frame _ _ _ _ _ _ Hf Hw).
Qed.

(** ** Deciding the conditions on a given disk *)

Lemma sized_check (d : Disk) :
  forallb (λ s : Sector, Nat.eqb (length s) (Z.to_nat SectorSize)) d = true → sized d.
Proof.
  intros H. unfold sized. apply Forall_forall. intros s Hs.
  rewrite forallb_forall in H. apply Nat.eqb_eq. apply H.
  apply list_elem_of_In. exact Hs.
Qed.

Lemma marked_check (freeMap : list bool) (f : OpenFile) :
  forallb (λ s, (s <? 0) || match freeMap !! Z.to_nat s with
                            | Some true => true
                            | _ => false
                            end) (dataSectors (hdr f)) = true →
  marked freeMap f.
Proof.
  intros H s Hs H0. rewrite forallb_forall in H.
  specialize (H s ltac:(apply list_elem_of_In; exact Hs)).
  destruct (Z.ltb_spec s 0); [lia |]. cbn [orb] in H.
  destruct (freeMap !! Z.to_nat s) as [[|] |]; congruence.
Qed.

Lemma apart_check (f g : OpenFile) :
  forallb (λ s, (s <? 0) || negb (existsb (Z.eqb s) (dataSectors (hdr g))))
          (dataSectors (hdr f)) = true →
  apart f g.
Proof.
  intros H s H0 Hf Hg. rewrite forallb_forall in H.
  specialize (H s ltac:(apply list_elem_of_In; exact Hf)).
  destruct (Z.ltb_spec s 0); [lia |]. cbn [orb] in H.
  apply negb_true_iff in H.
  assert (existsb (Z.eqb s) (dataSectors (hdr g)) = true); [| congruence].
  apply existsb_exists. exists s. split; [apply list_elem_of_In; exact Hg | apply Z.eqb_refl].
Qed.

(** ** What a successful [Create] leaves on the disk *)

Lemma taken_range (fm fm' : list bool) (l : list Z) (s : Z) :
  taken fm fm' l → s ∈ l → 0 ≤ s < Z.of_nat (length fm).
Proof.
  intros (_ & Hs & _) Hin. destruct (Hs s Hin) as (H0 & Hclear & _).
  apply lookup_lt_Some in Hclear. lia.
Qed.

Lemma taken_length (fm fm' : list bool) (l : list Z) :
  taken fm fm' l → length fm' = length fm.
Proof. intros (_ & _ & _ & H). exact H. Qed.

Lemma FindAndSet_range (fm fm' : list bool) (s : Z) :
  FindAndSet fm = (s, fm') →
  -1 ≤ s < Z.of_nat (length fm) ∧ length fm' = length fm.
Proof.
  intros H. apply FindAndSet_taken in H as [[-> ->] | [_ H]]; [split; [lia | reflexivity] |].
  pose proof (taken_range _ _ _ s H ltac:(apply list_elem_of_singleton; reflexivity)).
  split; [lia | exact (taken_length _ _ _ H)].
Qed.

Lemma FindAndSet_first (fm fm' : list bool) (s : Z) :
  FindAndSet fm = (s, fm') → s ≠ -1 → first_clear fm 0 = Some s.
Proof.
  unfold FindAndSet. destruct (first_clear fm 0) as [i |]; intros [= <- _] H; congruence.
Qed.

Lemma Allocate_loop_range (n : nat) :
  ∀ (i : nat) (h : FileHeader) (fm : list bool) ok h' fm',
    Allocate_loop n i h fm = (ok, h', fm') →
    Z.of_nat (length fm) ≤ 2147483648 →
    Forall int_range (dataSectors h) →
    Forall int_range (dataSectors h') ∧ length (dataSectors h') = length (dataSectors h).
Proof.
  induction n as [| n IH]; intros i h fm ok h' fm' H Hfm Hh; cbn [Allocate_loop] in H.
  - injection H as _ <- _. auto.
  - destruct (FindAndSet fm) as [s fm1] eqn:Hs. apply FindAndSet_range in Hs as [Hs Hlen].
    destruct (s =? -1).
    + injection H as _ <- _. auto.
    + apply IH in H as [Hr Hl]; cbn [set_dataSectors dataSectors] in *.
      * rewrite length_insert in Hl. auto.
      * lia.
      * apply Forall_insert; [exact Hh | unfold int_range; lia].
Qed.

Lemma Allocate_range (h : FileHeader) (fm : list bool) (fileSize : Z) ok h' fm' :
  Allocate h fm fileSize = (ok, h', fm') →
  Z.of_nat (length fm) ≤ 2147483648 →
  Forall int_range (dataSectors h) →
  Forall int_range (dataSectors h') ∧ length (dataSectors h') = length (dataSectors h).
Proof.
  unfold Allocate. intros H Hfm Hh.
  destruct (NumDirect <? divRoundUp fileSize SectorSize).
  - injection H as _ <- _. auto.
  - apply Allocate_loop_range in H; auto.
Qed.

Lemma Allocate_length (h : FileHeader) (fm : Bitmap) (fileSize : Z) h' fm' :
  Allocate h fm fileSize = (true, h', fm') →
  length (dataSectors h) = Z.to_nat NumDirect →
  length fm' = length fm.
Proof.
  intros H Hlen. apply Allocate_taken in H as (l & _ & H & _); [| exact Hlen].
  exact (taken_length _ _ _ H).
Qed.

(** The tables of the level-1 headers hold [int]s, whatever the loop of lines
    252-260 did to them. *)
Lemma Create_allocate_range (fuel : nat) :
  ∀ remain idx level1Hdr (fm : list bool) success level1Hdr' fm',
    Create_allocate fuel remain idx level1Hdr fm success = Done (level1Hdr', fm', true) →
    Z.of_nat (length fm) ≤ 2147483648 →
    Forall (λ h, length (dataSectors h) = Z.to_nat NumDirect
                 ∧ Forall int_range (dataSectors h)) level1Hdr →
    Forall (λ h, length (dataSectors h) = Z.to_nat NumDirect
                 ∧ Forall int_range (dataSectors h)) level1Hdr'
    ∧ length level1Hdr' = length level1Hdr.
Proof.
  induction fuel as [| fuel IH]; intros remain idx hdrs fm success hdrs' fm' H Hfm Hok;
    cbn [Create_allocate] in H.
  - injection H as <- _ _. auto.
  - destruct (0 <? remain); [| injection H as <- _ _; auto].
    apply bind_Done in H as (h0 & Hh0 & H).
    destruct (Allocate _ _ _) as [[ok h1] fm1] eqn:Halloc.
    apply bind_Done in H as (hdrs1 & Hstore & H).
    pose proof (Create_allocate_success _ _ _ _ _ _ _ _ H) as Hsucc.
    destruct ok; [| discriminate].
    apply index_Done in Hh0 as (_ & Hh0).
    pose proof (proj1 (Forall_lookup _ _) Hok _ _ Hh0) as [Hlen0 Hrange0].
    pose proof (Allocate_length _ _ _ _ _ Halloc Hlen0) as Hfm1.
    apply Allocate_range in Halloc as [Hr1 Hl1]; [| exact Hfm | exact Hrange0].
    cbn [set_level dataSectors] in *.
    apply store_Done in Hstore as (_ & ->).
    apply IH in H as [Hall Hlen]; [| unfold Bitmap in *; lia |].
    + rewrite length_insert in Hlen. auto.
    + apply Forall_insert; [exact Hok | split; [congruence | exact Hr1]].
Qed.

Lemma Create_level1Sectors_bound (n : nat) :
  ∀ (i : nat) l (fm : list bool) l' fm',
    Create_level1Sectors n (Z.of_nat i) l fm = Done (true, l', fm') →
    (i + n ≤ length l)%nat ∨ n = 0%nat.
Proof.
  induction n as [| n IH]; intros i l fm l' fm' H; [auto |]. left.
  cbn [Create_level1Sectors] in H.
  destruct (FindAndSet fm) as [s fm1].
  apply bind_Done in H as (l1 & Hstore & H).
  destruct (s =? -1); [discriminate |].
  apply store_Done in Hstore as (Hrange & ->).
  replace (Z.of_nat i + 1) with (Z.of_nat (S i)) in H by lia.
  apply IH in H as [H | ->]; [rewrite length_insert in H; lia | lia].
Qed.

(** Lines 245-247 copy the sectors of the level-1 headers into the table of
    the root header and leave the rest of the table alone. *)
Lemma Create_fill_data (n : nat) :
  ∀ (i : nat) (l : list Z) (hdr hdr' : FileHeader),
    Create_fill n (Z.of_nat i) l hdr = Done hdr' →
    dataSectors hdr'
    = take i (dataSectors hdr) ++ take n (drop i l) ++ drop (i + n) (dataSectors hdr).
Proof.
  induction n as [| n IH]; intros i l hdr hdr' H; cbn [Create_fill] in H.
  - injection H as <-. rewrite Nat.add_0_r, take_0. cbn [app]. rewrite take_drop.
    reflexivity.
  - apply bind_Done in H as (s & Hs & H). apply bind_Done in H as (ds & Hstore & H).
    apply index_Done in Hs as (_ & Hs). rewrite Nat2Z.id in Hs.
    apply store_Done in Hstore as (Hrange & ->). rewrite Nat2Z.id in H.
    replace (Z.of_nat i + 1) with (Z.of_nat (S i)) in H by lia.
    apply IH in H. cbn [set_dataSectors dataSectors] in H. rewrite H.
    rewrite take_S_insert by lia. rewrite drop_insert_lt by lia.
    rewrite (drop_S l s i Hs). cbn [take].
    rewrite <- app_assoc. cbn [app].
    replace (i + S n)%nat with (S i + n)%nat by lia. reflexivity.
Qed.

(** Lines 266-268 write each level-1 header to its sector and nothing else;
    when the sectors are distinct, each holds its header afterwards. *)
Lemma Create_writeBack_spec (n : nat) :
  ∀ (i : nat) (level1Hdr : list FileHeader) (level1Sector : list Z) (d d' : Disk),
    Create_writeBack n (Z.of_nat i) level1Hdr level1Sector d = Done d' →
    length d' = length d ∧ (sized d → sized d')
    ∧ (∀ j : nat, Z.of_nat j ∉ take n (drop i level1Sector) → d' !! j = d !! j)
    ∧ (NoDup (take n (drop i level1Sector)) →
       ∀ (k : nat) h s, (k < n)%nat →
         level1Hdr !! (i + k)%nat = Some h → level1Sector !! (i + k)%nat = Some s →
         header_ok h → FileHeader_FetchFrom s d' = Done h).
Proof.
  induction n as [| n IH]; intros i hdrs l d d' H; cbn [Create_writeBack] in H.
  - injection H as <-. split; [reflexivity |]. split; [auto |]. split; [auto |].
    intros _ k h s Hk. lia.
  - apply bind_Done in H as (h0 & Hh0 & H). apply bind_Done in H as (s0 & Hs0 & H).
    apply bind_Done in H as (d1 & Hw & H).
    apply index_Done in Hh0 as (_ & Hh0). apply index_Done in Hs0 as (_ & Hs0).
    rewrite Nat2Z.id in Hh0, Hs0.
    replace (Z.of_nat i + 1) with (Z.of_nat (S i)) in H by lia.
    apply IH in H as (Hlen & Hsized & Hframe & Hback).
    pose proof (WriteBack_frame _ _ _ _ Hw) as (Hs0r & Hlen1 & Hsized1 & Hframe1).
    rewrite (drop_S l s0 i Hs0). cbn [take].
    split; [lia |]. split; [auto |]. split.
    + intros j Hj. rewrite not_elem_of_cons in Hj. destruct Hj as [Hne Hj].
      rewrite Hframe by exact Hj. apply Hframe1. lia.
    + intros Hnodup k h s Hk Hh Hs Hok. apply NoDup_cons in Hnodup as [Hfresh Hnodup].
      destruct k as [| k].
      * rewrite Nat.add_0_r in Hh, Hs. rewrite Hh0 in Hh. rewrite Hs0 in Hs.
        injection Hh as <-. injection Hs as <-.
        rewrite <- (FetchFrom_WriteBack h0 s0 d d1 Hok Hw).
        apply FetchFrom_same. apply Hframe. rewrite Z2Nat.id by lia. exact Hfresh.
      * apply (Hback Hnodup k h s); [lia | | | exact Hok].
        -- replace (S i + k)%nat with (i + S k)%nat by lia. exact Hh.
        -- replace (S i + k)%nat with (i + S k)%nat by lia. exact Hs.
Qed.

(** The run of a [Create] that returns TRUE, step by step. *)
Lemma Create_success_run (fs : FileSystem) (name : string) (initialSize : Z) (d d' : Disk) :
  0 ≤ initialSize →
  Create fs name initialSize d = Done (true, d') →
  let L := Z.to_nat (divRoundUp initialSize (SectorSize * NumDirect)) in
  ∃ parent filename dirFile directory directory' freeMap0 sector level1Sector hdr
    level1Hdr freeMap3 (batches : list (list Z)) d1 d2 d3,
    SplitPath name = Done (parent, filename)
    ∧ OpenDir fs parent d = Done (Some dirFile)
    ∧ Directory_FetchFrom (Directory_new NumDirEntries) dirFile d = Done directory
    ∧ Find directory filename = -1
    ∧ PersistentBitmap_new (freeMapFile fs) NumSectors d = Done freeMap0
    ∧ first_clear freeMap0 0 = Some sector
    ∧ Directory_Add directory filename sector = (true, directory')
    ∧ (L ≤ Z.to_nat NumDirect)%nat
    ∧ length level1Sector = Z.to_nat NumDirect
    ∧ numBytes hdr = initialSize ∧ numSectors hdr = Z.of_nat L ∧ level hdr = 0
    ∧ dataSectors hdr = take L level1Sector ++ replicate (Z.to_nat NumDirect - L) (-1)
    ∧ length batches = L
    ∧ (∀ (k : nat) batch, batches !! k = Some batch →
         ∃ h, level1Hdr !! k = Some h
              ∧ level h = 1
              ∧ numBytes h = share initialSize (Z.of_nat k)
              ∧ numSectors h = divRoundUp (share initialSize (Z.of_nat k)) SectorSize
              ∧ length (dataSectors h) = Z.to_nat NumDirect
              ∧ Forall int_range (dataSectors h)
              ∧ listed h = Done batch)
    ∧ taken freeMap0 freeMap3 (sector :: take L level1Sector ++ concat batches)
    ∧ FileHeader_WriteBack hdr sector d = Done d1
    ∧ Create_writeBack L 0 level1Hdr level1Sector d1 = Done d2
    ∧ Directory_WriteBack directory' dirFile d2 = Done d3
    ∧ PersistentBitmap_WriteBack freeMap3 (freeMapFile fs) d3 = Done d'.
Proof.
  intros Hsize H L.
  assert (0 ≤ divRoundUp initialSize (SectorSize * NumDirect)) as HL.
  { rewrite divRoundUp_ceil by (capacity; lia). apply Z.div_pos; capacity; lia. }
  unfold Create in H. rewrite to_unsigned_nonneg in H by exact Hsize. fold L in H.
  apply bind_Done in H as ([parent filename] & Hsplit & H).
  apply bind_Done in H as ([dirFile |] & Hopen & H); [| discriminate].
  apply bind_Done in H as (directory & Hdir & H).
  destruct (Z.eqb_spec (Find directory filename) (-1)) as [Hfind | _]; [| discriminate].
  cbn [negb] in H.
  apply bind_Done in H as (freeMap0 & Hmap & H).
  pose proof (PersistentBitmap_new_length _ _ _ Hmap) as Hlen0.
  destruct (FindAndSet freeMap0) as [sector freeMap1] eqn:Hsector.
  apply bind_Done in H as ([[level1Flag level1Sector] freeMap2] & Hlevel1 & H).
  destruct (Z.eqb_spec sector (-1)) as [? | Hgot]; [discriminate |].
  destruct level1Flag; [| discriminate]. cbn [negb orb] in H.
  destruct (Directory_Add directory filename sector) as [added directory'] eqn:Hadd.
  destruct added; [| discriminate]. cbn [negb] in H.
  apply bind_Done in H as (hdr & Hfill & H).
  apply bind_Done in H as ([[level1Hdr freeMap3] success] & Halloc & H).
  destruct success; [| discriminate].
  apply bind_Done in H as (d1 & Hw1 & H). apply bind_Done in H as (d2 & Hw2 & H).
  apply bind_Done in H as (d3 & Hw3 & H). apply bind_Done in H as (d4 & Hw4 & H).
  injection H as <-.
  pose proof (FindAndSet_first _ _ _ Hsector Hgot) as Hfirst.
  apply FindAndSet_taken in Hsector as [[? _] | [_ Hroot]]; [contradiction |].
  pose proof (Create_level1Sectors_bound _ 0%nat _ _ _ _ Hlevel1) as Hbound.
  rewrite length_replicate in Hbound.
  apply (Create_level1Sectors_taken _ 0%nat) in Hlevel1 as (Hheaders & Hlen1 & _).
  rewrite drop_0 in Hheaders. rewrite length_replicate in Hlen1.
  pose proof (Create_fill_data _ 0%nat _ _ _ Hfill) as Hdata.
  destruct (Create_fill_spec _ _ _ _ _ (Z.le_refl 0) Hfill) as (Hb & Hn & Hl & _ & _).
  cbn [set_level set_numSectors set_numBytes numBytes numSectors level dataSectors
       FileHeader_new take app Nat.add] in Hb, Hn, Hl, Hdata.
  rewrite take_0, drop_0, drop_replicate in Hdata. cbn [app] in Hdata.
  assert (initialSize ≤ Z.of_nat (Z.to_nat initialSize)) as Hfuel by lia.
  pose proof (taken_length _ _ _ Hroot) as Hlenr.
  pose proof (taken_length _ _ _ Hheaders) as Hlenh.
  pose proof (Create_allocate_range _ _ _ _ _ _ _ _ Halloc) as [Htables _].
  { unfold Bitmap in *. rewrite Hlenh, Hlenr, Hlen0.
    change (Z.to_nat NumSectors) with 128%nat. lia. }
  { apply Forall_replicate. cbn [FileHeader_new dataSectors].
    split; [apply length_replicate |]. apply Forall_replicate. unfold int_range. lia. }
  destruct (Create_allocate_spec _ _ _ _ _ _ _ _ (Z.le_refl 0) Hfuel Halloc)
    as (_ & Hshares).
  apply (Create_allocate_taken _ _ 0%nat) in Halloc as (batches & Hdatas & Hcount & Hbatches);
    [| lia | apply Forall_replicate; cbn [FileHeader_new dataSectors]; apply length_replicate].
  exists parent, filename, dirFile, directory, directory', freeMap0, sector, level1Sector,
    hdr, level1Hdr, freeMap3, batches, d1, d2, d3.
  assert (length batches = L) as Hnb by (subst L; capacity; lia).
  split; [exact Hsplit |]. split; [exact Hopen |]. split; [exact Hdir |].
  split; [exact Hfind |]. split; [exact Hmap |]. split; [exact Hfirst |].
  split; [exact Hadd |].
  split; [destruct Hbound as [? | ->]; lia |].
  split; [exact Hlen1 |]. split; [exact Hb |]. split; [rewrite Hn; subst L; lia |].
  split; [exact Hl |]. split; [exact Hdata |]. split; [exact Hnb |].
  split; [| split; [exact (taken_app _ _ _ _ _ Hroot (taken_app _ _ _ _ _ Hheaders Hdatas)) |
                    auto]].
  intros k batch Hk. destruct (Hbatches k batch Hk) as (h & Hh & Hlisted).
  cbn [Nat.add] in Hh. apply lookup_lt_Some in Hk as Hklt.
  destruct (Hshares (Z.of_nat k)) as (h' & Hh' & Hlv & Hbytes & Hsec);
    [capacity; subst L; lia |].
  rewrite Z.add_0_l in Hh'. apply index_Done in Hh' as (_ & Hh'). rewrite Nat2Z.id in Hh'.
  rewrite Hh in Hh'. injection Hh' as <-.
  pose proof (proj1 (Forall_lookup _ _) Htables _ _ Hh) as [Hlenh' Hrangeh].
  exists h. auto 10.
Qed.

Lemma share_range (initialSize k : Z) :
  0 < initialSize → 0 ≤ k < divRoundUp initialSize (NumDirect * SectorSize) →
  0 < share initialSize k ≤ NumDirect * SectorSize.
Proof.
  intros Hpos Hk. unfold share. capacity.
  pose proof (divRoundUp_positive initialSize Hpos).
  destruct (Z.ltb_spec k (divRoundUp initialSize 3712 - 1)); lia.
Qed.

Lemma divRoundUp_sector_range (x : Z) :
  0 ≤ x ≤ NumDirect * SectorSize → 0 ≤ divRoundUp x SectorSize ≤ NumDirect.
Proof.
  intros Hx. capacity. rewrite divRoundUp_ceil by (unfold SectorSize; lia).
  unfold SectorSize, NumDirect. Z.to_euclidean_division_equations. lia.
Qed.

(** The sectors that the level-1 headers on the disk list, one header after
    the other. *)
Lemma listed_children_batches (d : Disk) (level1 : list Z) :
  ∀ batches : list (list Z),
    length batches = length level1 →
    (∀ (k : nat) s batch, level1 !! k = Some s → batches !! k = Some batch →
       ∃ h, FileHeader_FetchFrom s d = Done h ∧ listed h = Done batch) →
    listed_children level1 d = Done (concat batches).
Proof.
  induction level1 as [| s level1 IH]; intros batches Hlen Hall.
  - destruct batches; [reflexivity | discriminate].
  - destruct batches as [| batch batches]; [discriminate |].
    cbn [listed_children concat].
    destruct (Hall 0%nat s batch eq_refl eq_refl) as (h & Hh & Hl).
    rewrite Hh. cbn [mbind Outcome_bind]. rewrite Hl. cbn [mbind Outcome_bind].
    rewrite (IH batches).
    + reflexivity.
    + cbn [length] in Hlen. lia.
    + intros k s' b Hs Hb. exact (Hall (S k) s' b Hs Hb).
Qed.

(** The disk after a successful [Create] on a disk where the files that
    [Create] writes, the parent directory and the bitmap, have their sectors
    marked in the bitmap: the headers of the new file are where the run put
    them, and the bitmap file holds the bitmap of the run. *)
Lemma Create_success_disk (fs : FileSystem) (name : string) (initialSize : Z)
    (d d' : Disk) (parent filename : string) (dirFile : OpenFile) (freeMap0 : Bitmap) :
  0 ≤ initialSize < 2147483648 →
  SplitPath name = Done (parent, filename) →
  OpenDir fs parent d = Done (Some dirFile) →
  PersistentBitmap_new (freeMapFile fs) NumSectors d = Done freeMap0 →
  direct dirFile → direct (freeMapFile fs) →
  marked freeMap0 dirFile → marked freeMap0 (freeMapFile fs) →
  Create fs name initialSize d = Done (true, d') →
  let L := Z.to_nat (divRoundUp initialSize (SectorSize * NumDirect)) in
  ∃ sector level1 hdr (batches : list (list Z)) freeMap3 d3,
    first_clear freeMap0 0 = Some sector
    ∧ length level1 = L
    ∧ FileHeader_FetchFrom sector d' = Done hdr
    ∧ numBytes hdr = initialSize ∧ numSectors hdr = Z.of_nat L ∧ level hdr = 0
    ∧ listed hdr = Done level1
    ∧ length batches = L
    ∧ (∀ (k : nat) s batch, level1 !! k = Some s → batches !! k = Some batch →
         ∃ h, FileHeader_FetchFrom s d' = Done h
              ∧ level h = 1
              ∧ numBytes h = share initialSize (Z.of_nat k)
              ∧ numSectors h = divRoundUp (share initialSize (Z.of_nat k)) SectorSize
              ∧ listed h = Done batch)
    ∧ taken freeMap0 freeMap3 (sector :: level1 ++ concat batches)
    ∧ (sized d → sized d3)
    ∧ PersistentBitmap_WriteBack freeMap3 (freeMapFile fs) d3 = Done d'.
Proof.
  intros Hsize Hsplit Hopen Hmap Hdirect Hdirectmap Hmarked Hmarkedmap Hrun L.
  destruct (Create_success_run fs name initialSize d d' ltac:(lia) Hrun)
    as (parent' & filename' & dirFile' & directory & directory' & freeMap0' & sector
        & level1Sector & hdr & level1Hdr & freeMap3 & batches & d1 & d2 & d3
        & Hsplit' & Hopen' & Hdir & Hfind & Hmap' & Hfirst & Hadd & HL & Hlen1
        & Hb & Hn & Hl & Hdata & Hnb & Hbatches & Htaken & Hw1 & Hw2 & Hw3 & Hw4).
  fold L in HL, Hn, Hdata, Hnb, Htaken, Hw2.
  rewrite Hsplit in Hsplit'. injection Hsplit' as <- <-.
  rewrite Hopen in Hopen'. injection Hopen' as <-.
  rewrite Hmap in Hmap'. injection Hmap' as <-.
  pose proof (PersistentBitmap_new_length _ _ _ Hmap) as Hlen0.
  change (Z.to_nat NumSectors) with 128%nat in Hlen0.
  change (Z.to_nat NumDirect) with 29%nat in *.
  set (level1 := take L level1Sector) in *.
  set (owned := sector :: level1 ++ concat batches) in *.
  assert (length level1 = L) as Hlevel1 by (subst level1; rewrite length_take; lia).
  pose proof Htaken as (Hnodup & Hwere & _ & _).
  assert (sector ∈ owned) as Hinroot by (apply elem_of_cons; left; reflexivity).
  assert (∀ s, s ∈ level1 → s ∈ owned) as Hin1
    by (intros s Hs; apply elem_of_cons; right; apply elem_of_app; left; exact Hs).
  assert (∀ s, s ∈ owned → 0 ≤ s < 128) as Hrange.
  { intros s Hs. pose proof (taken_range _ _ _ s Htaken Hs). unfold Bitmap in *. lia. }
  (* the later writes leave the sectors of the new file alone *)
  assert (∀ s, s ∈ owned → d' !! Z.to_nat s = d2 !! Z.to_nat s) as Hlater.
  { intros s Hs. destruct (Hwere s Hs) as (H0 & Hclear & _).
    pose proof (Directory_WriteBack_frame _ _ _ _ Hdirect Hw3) as (_ & _ & Hf3).
    pose proof (PersistentBitmap_WriteBack_frame _ _ _ _ Hdirectmap Hw4) as (_ & _ & Hf4).
    rewrite Hf4, Hf3; [reflexivity | |]; rewrite Z2Nat.id by lia; intros Hin.
    - specialize (Hmarked s Hin H0). congruence.
    - specialize (Hmarkedmap s Hin H0). congruence. }
  pose proof (Create_writeBack_spec _ 0%nat _ _ _ _ Hw2) as (Hlen2 & Hsized2 & Hf2 & Hback).
  rewrite drop_0 in Hf2, Hback. fold level1 in Hf2, Hback.
  assert (NoDup level1) as Hnodup1.
  { subst owned. apply NoDup_cons in Hnodup as [_ Hnodup].
    apply NoDup_app in Hnodup as [Hnodup _]. exact Hnodup. }
  assert (header_ok hdr) as Hok.
  { unfold header_ok. rewrite Hb, Hn, Hl, Hdata.
    change (Z.to_nat NumDirect) with 29%nat.
    unfold int_range. split; [lia |]. split; [lia |]. split; [lia |].
    split; [rewrite length_app, length_replicate; lia |].
    apply Forall_app. split; [| apply Forall_replicate; lia].
    apply Forall_forall. intros s Hs.
    pose proof (Hrange s (Hin1 s Hs)). lia. }
  exists sector, level1, hdr, batches, freeMap3, d3.
  split; [exact Hfirst |]. split; [exact Hlevel1 |]. split.
  { rewrite <- (FetchFrom_WriteBack hdr sector d d1 Hok Hw1).
    apply FetchFrom_same. rewrite Hlater by exact Hinroot.
    apply Hf2. rewrite Z2Nat.id by (apply Hrange; exact Hinroot).
    subst owned. apply NoDup_cons in Hnodup as [Hfresh _].
    intros Hin. apply Hfresh. apply elem_of_app. left. exact Hin. }
  split; [exact Hb |]. split; [exact Hn |]. split; [exact Hl |]. split.
  { unfold listed. rewrite Hn, Nat2Z.id.
    pose proof (listed_from_take hdr L 0%nat) as Htake.
    change (Z.of_nat 0) with 0 in Htake.
    rewrite Htake by (rewrite Hdata, length_app, length_replicate; lia).
    rewrite drop_0, Hdata, take_app_length' by (symmetry; exact Hlevel1). reflexivity. }
  split; [exact Hnb |]. split; [| split; [exact Htaken | split; [| exact Hw4]]].
  - intros k s batch Hs Hbatch.
    destruct (Hbatches k batch Hbatch) as (h & Hh & Hlv & Hby & Hsec & Hlenh & Hrangeh & Hlisted).
    apply lookup_lt_Some in Hbatch as Hk. rewrite Hnb in Hk.
    assert (0 < initialSize) as Hpos.
    { destruct (Z.eq_dec initialSize 0) as [-> | ?]; [| lia]. subst L.
      change (Z.to_nat (divRoundUp 0 (SectorSize * NumDirect))) with 0%nat in Hk. lia. }
    pose proof (share_range initialSize (Z.of_nat k) Hpos ltac:(subst L; capacity; lia)).
    pose proof (divRoundUp_sector_range (share initialSize (Z.of_nat k)) ltac:(lia)).
    assert (header_ok h) as Hokh.
    { unfold header_ok, int_range. rewrite Hlv, Hby, Hsec. capacity.
      unfold NumDirect in *. auto with lia. }
    exists h. split; [| auto].
    assert (level1Sector !! k = Some s) as Hs'.
    { subst level1. rewrite lookup_take_lt in Hs by lia. exact Hs. }
    rewrite <- (Hback Hnodup1 k h s Hk Hh Hs' Hokh).
    apply FetchFrom_same. apply Hlater. apply Hin1.
    exact (list_elem_of_lookup_2 _ _ _ Hs).
  - intros Hd. pose proof (WriteBack_frame _ _ _ _ Hw1) as (_ & _ & Hs1 & _).
    pose proof (Directory_WriteBack_frame _ _ _ _ Hdirect Hw3) as (_ & Hs3 & _). auto.
Qed.

(** ** C5: what a successful [Create] builds *)

(** C5.  A [Create] of [initialSize] bytes that returns TRUE, on a disk where
    the parent directory and the bitmap are files with a direct header whose
    sectors are marked in the bitmap, with
    [L = ceil(initialSize / (NumDirect * SectorSize))].  The sector of the
    root header is the first one that was clear in the bitmap, and on the
    disk that [Create] leaves it holds a header of level 0 with
    [numBytes = initialSize] and [numSectors = L], whose [dataSectors[0..L)]
    are [L] sectors, distinct from one another and from the root's, that were
    clear in the bitmap; each of them holds a header of level 1, allocated
    [NumDirect * SectorSize] bytes, but for the last one, which is allocated
    the bytes that remain: the header has that [numBytes], the [numSectors]
    these bytes take, and lists sectors that were clear in the bitmap. *)
Theorem Create_success_layout (fs : FileSystem) (name : string) (initialSize : Z)
    (d d' : Disk) (parent filename : string) (dirFile : OpenFile) (freeMap0 : Bitmap) :
  0 ≤ initialSize < 2147483648 →
  SplitPath name = Done (parent, filename) →
  OpenDir fs parent d = Done (Some dirFile) →
  PersistentBitmap_new (freeMapFile fs) NumSectors d = Done freeMap0 →
  direct dirFile → direct (freeMapFile fs) →
  marked freeMap0 dirFile → marked freeMap0 (freeMapFile fs) →
  Create fs name initialSize d = Done (true, d') →
  let L := divRoundUp initialSize (SectorSize * NumDirect) in
  L = (initialSize + NumDirect * SectorSize - 1) / (NumDirect * SectorSize)
  ∧ ∃ sector hdr level1,
      first_clear freeMap0 0 = Some sector
      ∧ FileHeader_FetchFrom sector d' = Done hdr
      ∧ level hdr = 0 ∧ numBytes hdr = initialSize ∧ numSectors hdr = L
      ∧ listed hdr = Done level1
      ∧ Z.of_nat (length level1) = L
      ∧ NoDup (sector :: level1)
      ∧ (∀ s, s ∈ sector :: level1 → 0 ≤ s ∧ freeMap0 !! Z.to_nat s = Some false)
      ∧ ∀ (j : nat) s, level1 !! j = Some s →
          ∃ h data, FileHeader_FetchFrom s d' = Done h
                    ∧ level h = 1
                    ∧ numBytes h = (if Z.of_nat j <? L - 1 then NumDirect * SectorSize
                                    else initialSize - (L - 1) * (NumDirect * SectorSize))
                    ∧ numSectors h = divRoundUp (numBytes h) SectorSize
                    ∧ listed h = Done data
                    ∧ ∀ s', s' ∈ data → 0 ≤ s' ∧ freeMap0 !! Z.to_nat s' = Some false.
Proof.
  intros Hsize Hsplit Hopen Hmap Hdirect Hdirectmap Hmarked Hmarkedmap Hrun L.
  assert (0 ≤ L) as HL.
  { subst L. rewrite divRoundUp_ceil by (capacity; lia). apply Z.div_pos; capacity; lia. }
  split.
  { subst L. rewrite divRoundUp_ceil by (capacity; lia). capacity. reflexivity. }
  destruct (Create_success_disk fs name initialSize d d' parent filename dirFile freeMap0
              Hsize Hsplit Hopen Hmap Hdirect Hdirectmap Hmarked Hmarkedmap Hrun)
    as (sector & level1 & hdr & batches & freeMap3 & d3 & Hfirst & Hlen & Hhdr & Hb & Hn
        & Hl & Hlisted & Hnb & Hheaders & Htaken & _).
  fold L in Hlen, Hn, Hnb.
  exists sector, hdr, level1.
  pose proof Htaken as (Hnodup & Hwere & _).
  split; [exact Hfirst |]. split; [exact Hhdr |]. split; [exact Hl |].
  split; [exact Hb |]. split; [rewrite Hn; lia |]. split; [exact Hlisted |].
  split; [lia |]. split; [| split].
  - rewrite app_comm_cons in Hnodup. apply NoDup_app in Hnodup as [Hnodup _]. exact Hnodup.
  - intros s Hs. destruct (Hwere s) as (H0 & Hclear & _); [| auto].
    rewrite app_comm_cons. apply elem_of_app. left. exact Hs.
  - intros j s Hs.
    destruct (lookup_lt_is_Some_2 batches j) as [batch Hbatch];
      [apply lookup_lt_Some in Hs; lia |].
    destruct (Hheaders j s batch Hs Hbatch) as (h & Hh & Hlv & Hby & Hsec & Hdata).
    exists h, batch. split; [exact Hh |]. split; [exact Hlv |].
    assert (numBytes h = (if Z.of_nat j <? L - 1 then NumDirect * SectorSize
                          else initialSize - (L - 1) * (NumDirect * SectorSize))) as Hshare.
    { rewrite Hby. unfold share. subst L. capacity. reflexivity. }
    split; [exact Hshare |]. split; [rewrite Hby; exact Hsec |].
    split; [exact Hdata |].
    intros s' Hs'. destruct (Hwere s') as (H0 & Hclear & _); [| auto].
    apply elem_of_cons. right. apply elem_of_app. right.
    apply list_elem_of_In, in_concat. exists batch.
    split; apply list_elem_of_In; [exact (list_elem_of_lookup_2 _ _ _ Hbatch) | exact Hs'].
Qed.

(** [/big], of 2 * 29 * 128 bytes, on the formatted disk: two level-1
    headers, both full. *)
Lemma Create_success_layout_witness :
  let d := disk world0 in
  let d' := disk (after [OpCreate "/big" 7424]) in
  let dirFile := handle (OpenDir fs0 "/" d) in
  let freeMap0 := returned [] (PersistentBitmap_new (freeMapFile fs0) NumSectors d) in
  let L := divRoundUp 7424 (SectorSize * NumDirect) in
  0 ≤ 7424 < 2147483648
  ∧ direct dirFile ∧ direct (freeMapFile fs0)
  ∧ marked freeMap0 dirFile ∧ marked freeMap0 (freeMapFile fs0)
  ∧ Create fs0 "/big" 7424 d = Done (true, d')
  ∧ L = 2
  ∧ L = (7424 + NumDirect * SectorSize - 1) / (NumDirect * SectorSize)
  ∧ ∃ sector hdr level1,
      first_clear freeMap0 0 = Some sector
      ∧ FileHeader_FetchFrom sector d' = Done hdr
      ∧ level hdr = 0 ∧ numBytes hdr = 7424 ∧ numSectors hdr = L
      ∧ listed hdr = Done level1
      ∧ Z.of_nat (length level1) = L
      ∧ NoDup (sector :: level1)
      ∧ (∀ s, s ∈ sector :: level1 → 0 ≤ s ∧ freeMap0 !! Z.to_nat s = Some false)
      ∧ ∀ (j : nat) s, level1 !! j = Some s →
          ∃ h data, FileHeader_FetchFrom s d' = Done h
                    ∧ level h = 1
                    ∧ numBytes h = (if Z.of_nat j <? L - 1 then NumDirect * SectorSize
                                    else 7424 - (L - 1) * (NumDirect * SectorSize))
                    ∧ numSectors h = divRoundUp (numBytes h) SectorSize
                    ∧ listed h = Done data
                    ∧ ∀ s', s' ∈ data → 0 ≤ s' ∧ freeMap0 !! Z.to_nat s' = Some false.
Proof.
  intros d d' dirFile freeMap0 L.
  assert (direct dirFile) as H1 by (vm_compute; congruence).
  assert (direct (freeMapFile fs0)) as H2 by (vm_compute; congruence).
  assert (marked freeMap0 dirFile) as H3 by (apply marked_check; vm_compute; reflexivity).
  assert (marked freeMap0 (freeMapFile fs0)) as H4
    by (apply marked_check; vm_compute; reflexivity).
  assert (Create fs0 "/big" 7424 d = Done (true, d')) as H5 by (vm_compute; reflexivity).
  split; [lia |]. split; [exact H1 |]. split; [exact H2 |]. split; [exact H3 |].
  split; [exact H4 |]. split; [exact H5 |]. split; [reflexivity |].
  apply (Create_success_layout fs0 "/big" 7424 d d' "/" "big" dirFile freeMap0);
    first [assumption | lia | vm_compute; reflexivity].
Defined.

(** X16.  A [Create] that returns TRUE, on a disk whose sectors hold
    [SectorSize] bytes and where the parent directory and the bitmap are
    files with a direct header whose sectors are marked in the bitmap, the
    bitmap file being long enough for the bitmap, gives the file sectors that
    were free and that no one else has: the
    sectors of the file on the disk that [Create] leaves (the root header's,
    those it lists and those the level-1 headers list) are pairwise distinct,
    each was clear in the bitmap file before the call and is set in it after
    the call, and no other bit of the bitmap file has changed. *)
Theorem Create_gives_distinct_sectors (fs : FileSystem) (name : string)
    (initialSize : Z) (d d' : Disk) (parent filename : string) (dirFile : OpenFile)
    (freeMap0 : Bitmap) :
  0 ≤ initialSize < 2147483648 →
  sized d →
  SplitPath name = Done (parent, filename) →
  OpenDir fs parent d = Done (Some dirFile) →
  PersistentBitmap_new (freeMapFile fs) NumSectors d = Done freeMap0 →
  direct dirFile → direct (freeMapFile fs) →
  FreeMapFileSize ≤ FileLength (hdr (freeMapFile fs)) →
  marked freeMap0 dirFile → marked freeMap0 (freeMapFile fs) →
  Create fs name initialSize d = Done (true, d') →
  ∃ sector owned freeMap',
    first_clear freeMap0 0 = Some sector
    ∧ file_sectors sector d' = Done owned
    ∧ PersistentBitmap_new (freeMapFile fs) NumSectors d' = Done freeMap'
    ∧ taken freeMap0 freeMap' owned.
Proof.
  intros Hsize Hd Hsplit Hopen Hmap Hdirect Hdirectmap Hlong Hmarked Hmarkedmap Hrun.
  destruct (Create_success_disk fs name initialSize d d' parent filename dirFile freeMap0
              Hsize Hsplit Hopen Hmap Hdirect Hdirectmap Hmarked Hmarkedmap Hrun)
    as (sector & level1 & hdr & batches & freeMap3 & d3 & Hfirst & Hlen & Hhdr & Hb & Hn
        & Hl & Hlisted & Hnb & Hheaders & Htaken & Hsized & Hw).
  exists sector, (sector :: level1 ++ concat batches), freeMap3.
  split; [exact Hfirst |]. split; [| split; [| exact Htaken]].
  - unfold file_sectors. rewrite Hhdr. cbn [mbind Outcome_bind].
    rewrite Hlisted. cbn [mbind Outcome_bind]. rewrite Hl. cbn [Z.eqb].
    rewrite (listed_children_batches d' level1 batches).
    + reflexivity.
    + congruence.
    + intros k s batch Hs Hbatch.
      destruct (Hheaders k s batch Hs Hbatch) as (h & Hh & _ & _ & _ & Hlh). eauto.
  - apply (PersistentBitmap_readback _ _ d3); auto.
    rewrite (taken_length _ _ _ Htaken). exact (PersistentBitmap_new_length _ _ _ Hmap).
Qed.

Lemma Create_gives_distinct_sectors_witness :
  let d := disk world0 in
  let d' := disk (after [OpCreate "/big" 7424]) in
  let dirFile := handle (OpenDir fs0 "/" d) in
  let freeMap0 := returned [] (PersistentBitmap_new (freeMapFile fs0) NumSectors d) in
  0 ≤ 7424 < 2147483648
  ∧ sized d
  ∧ direct dirFile ∧ direct (freeMapFile fs0)
  ∧ FreeMapFileSize ≤ FileLength (hdr (freeMapFile fs0))
  ∧ marked freeMap0 dirFile ∧ marked freeMap0 (freeMapFile fs0)
  ∧ Create fs0 "/big" 7424 d = Done (true, d')
  ∧ ∃ sector owned freeMap',
      first_clear freeMap0 0 = Some sector
      ∧ file_sectors sector d' = Done owned
      ∧ PersistentBitmap_new (freeMapFile fs0) NumSectors d' = Done freeMap'
      ∧ taken freeMap0 freeMap' owned.
Proof.
  intros d d' dirFile freeMap0.
  assert (sized d) as H0 by (apply sized_check; vm_compute; reflexivity).
  assert (direct dirFile) as H1 by (vm_compute; congruence).
  assert (direct (freeMapFile fs0)) as H2 by (vm_compute; congruence).
  assert (marked freeMap0 dirFile) as H3 by (apply marked_check; vm_compute; reflexivity).
  assert (marked freeMap0 (freeMapFile fs0)) as H4
    by (apply marked_check; vm_compute; reflexivity).
  assert (Create fs0 "/big" 7424 d = Done (true, d')) as H5 by (vm_compute; reflexivity).
  assert (FreeMapFileSize ≤ FileLength (hdr (freeMapFile fs0))) as H6
    by (vm_compute; congruence).
  split; [lia |]. split; [exact H0 |]. split; [exact H1 |]. split; [exact H2 |].
  split; [exact H6 |]. split; [exact H3 |]. split; [exact H4 |]. split; [exact H5 |].
  apply (Create_gives_distinct_sectors fs0 "/big" 7424 d d' "/" "big" dirFile freeMap0);
    first [assumption | lia | vm_compute; reflexivity].
Defined.

(** ** What [Remove] leaves in the bitmap file *)

Lemma freed_nil (freeMap : list bool) : freed freeMap freeMap [].
Proof.
  split; [| split; [| reflexivity]].
  - intros s Hs. apply elem_of_nil in Hs. contradiction.
  - reflexivity.
Qed.

Lemma freed_app (fm fm1 fm2 : list bool) (l1 l2 : list Z) :
  freed fm fm1 l1 → freed fm1 fm2 l2 → freed fm fm2 (l1 ++ l2).
Proof.
  intros (Hs1 & Hm1 & Hl1) (Hs2 & Hm2 & Hl2).
  split; [| split; [| congruence]].
  - intros s Hin. apply elem_of_app in Hin as [Hin | Hin].
    + destruct (Hs1 s Hin) as (H0 & Hclear). split; [exact H0 |].
      destruct (decide (s ∈ l2)) as [Hin2 | Hout]; [apply Hs2; exact Hin2 |].
      rewrite Hm2 by (rewrite Z2Nat.id by lia; exact Hout). exact Hclear.
    + apply Hs2. exact Hin.
  - intros j Hj. rewrite elem_of_app in Hj. rewrite Hm2, Hm1 by tauto. reflexivity.
Qed.

Lemma Clear_call_freed (which : Z) (freeMap : Bitmap) (w : World) (freeMap' : Bitmap)
    (w' : World) :
  Clear_call which freeMap w = Done (freeMap', w') →
  freed freeMap freeMap' [which]
  ∧ disk w' = disk w ∧ cout w' = cout w ∧ clears w' = clears w ++ [which].
Proof.
  unfold Clear_call, Clear. intros H. apply bind_Done in H as (fm & Hstore & H).
  injection H as <- <-. apply store_Done in Hstore as (Hrange & ->).
  split; [| auto]. unfold Bitmap in *. split; [| split].
  - intros s Hs. apply list_elem_of_singleton in Hs as ->. split; [lia |].
    apply list_lookup_insert_eq. lia.
  - intros j Hj. apply list_lookup_insert_ne. intros <-. apply Hj.
    rewrite Z2Nat.id by lia. apply list_elem_of_singleton. reflexivity.
  - apply length_insert.
Qed.

Lemma Clear_all_freed (sectors : list Z) :
  ∀ (freeMap : Bitmap) (w : World) (freeMap' : Bitmap) (w' : World),
    Clear_all sectors freeMap w = Done (freeMap', w') →
    freed freeMap freeMap' sectors.
Proof.
  induction sectors as [| s rest IH]; intros freeMap w freeMap' w' H; cbn [Clear_all] in H.
  - injection H as <- _. apply freed_nil.
  - apply bind_Done in H as ([fm1 w1] & Hcall & H).
    apply Clear_call_freed in Hcall as (Hfreed & _). apply IH in H.
    exact (freed_app _ _ _ [s] rest Hfreed H).
Qed.

Lemma Deallocate_freed (h : FileHeader) (freeMap : Bitmap) (w : World)
    (freeMap' : Bitmap) (w' : World) :
  Deallocate h freeMap w = Done (freeMap', w') →
  ∃ sectors, listed h = Done sectors ∧ freed freeMap freeMap' sectors
             ∧ disk w' = disk w ∧ cout w' = cout w ∧ clears w' = clears w ++ sectors.
Proof.
  intros H. pose proof (Deallocate_spec _ _ _ _ _ H) as (sectors & Hl & Hrest).
  exists sectors. split; [exact Hl |]. split; [| exact Hrest].
  unfold Deallocate in H. rewrite Hl in H. cbn [mbind Outcome_bind] in H.
  exact (Clear_all_freed _ _ _ _ _ H).
Qed.

Lemma Remove_level1_freed (fileHdr : FileHeader) (n : nat) :
  ∀ (i : Z) (freeMap : Bitmap) (w : World) (freeMap' : Bitmap) (w' : World),
    Remove_level1 n i fileHdr freeMap w = Done (freeMap', w') →
    ∃ level1 data,
      listed_from fileHdr n i = Done level1
      ∧ listed_children level1 (disk w) = Done data
      ∧ freed freeMap freeMap' data
      ∧ disk w' = disk w ∧ cout w' = cout w ∧ clears w' = clears w ++ data.
Proof.
  induction n as [| n IH]; intros i freeMap w freeMap' w' H; cbn [Remove_level1] in H.
  - injection H as <- <-. exists [], []. rewrite app_nil_r.
    split; [reflexivity |]. split; [reflexivity |]. split; [apply freed_nil | auto].
  - apply bind_Done in H as (s & Hs & H).
    apply bind_Done in H as (level1Hdr & Hfetch & H).
    apply bind_Done in H as ([fm1 w1] & Hdealloc & H).
    apply Deallocate_freed in Hdealloc as (own & Hown & Hfreed1 & Hd1 & Hc1 & Hl1).
    apply IH in H as (level1 & data & Hlevel1 & Hdata & Hfreed & Hd & Hc & Hl).
    exists (s :: level1), (own ++ data).
    cbn [listed_from listed_children]. rewrite Hs. cbn [mbind Outcome_bind].
    rewrite Hlevel1. cbn [mbind Outcome_bind].
    rewrite Hfetch. cbn [mbind Outcome_bind]. rewrite Hown. cbn [mbind Outcome_bind].
    rewrite <- Hd1, Hdata. cbn [mbind Outcome_bind].
    split; [reflexivity |]. split; [reflexivity |].
    split; [exact (freed_app _ _ _ _ _ Hfreed1 Hfreed) |].
    rewrite Hd, Hc, Hl, Hd1, Hc1, Hl1, <- app_assoc. auto.
Qed.

(** Lines 498-514, on the disk: the bits of the sectors of the file are
    cleared, those its level-1 headers list first, then those its header
    lists, then the header's own, and the bitmap file then holds the result. *)
Lemma Remove_finish_disk (fs : FileSystem) (filename : string) (sector : Z)
    (fileHdr : FileHeader) (freeMap : Bitmap) (directory : Directory)
    (dirFile : OpenFile) (w : World) (r : bool) (w' : World) :
  direct dirFile → direct (freeMapFile fs) → apart (freeMapFile fs) dirFile →
  sized (disk w) → length freeMap = Z.to_nat NumSectors →
  FreeMapFileSize ≤ FileLength (hdr (freeMapFile fs)) →
  Remove_finish fs filename sector fileHdr freeMap directory dirFile w = Done (r, w') →
  ∃ own below freeMap',
    listed fileHdr = Done own
    ∧ (if level fileHdr =? 0 then listed_children own (disk w) else Done []) = Done below
    ∧ clears w' = clears w ++ below ++ own ++ [sector]
    ∧ cout w' = cout w
    ∧ freed freeMap freeMap' (below ++ own ++ [sector])
    ∧ PersistentBitmap_new (freeMapFile fs) NumSectors (disk w') = Done freeMap'.
Proof.
  intros Hdirect Hdirectmap Hapart Hsized Hlen Hlong H. unfold Remove_finish in H.
  apply bind_Done in H as ([fm1 w1] & Hloop & H).
  apply bind_Done in H as ([fm2 w2] & Hroot & H).
  apply bind_Done in H as ([fm3 w3] & Hown & H).
  destruct (Directory_Remove directory filename) as [removed directory'].
  apply bind_Done in H as (d1 & Hw1 & H). apply bind_Done in H as (d2 & Hw2 & H).
  injection H as _ <-.
  apply Deallocate_freed in Hroot as (own & Hlisted & Hfreed2 & Hd2 & Hc2 & Hl2).
  apply Clear_call_freed in Hown as (Hfreed3 & Hd3 & Hc3 & Hl3).
  assert (∃ below, (if level fileHdr =? 0 then listed_children own (disk w) else Done [])
                   = Done below
                   ∧ freed freeMap fm1 below
                   ∧ disk w1 = disk w ∧ cout w1 = cout w ∧ clears w1 = clears w ++ below)
    as (below & Hbelow & Hfreed1 & Hd1 & Hc1 & Hl1).
  { destruct (level fileHdr =? 0).
    - apply Remove_level1_freed in Hloop
        as (level1 & data & Hlevel1 & Hdata & Hfreed & Hrest).
      unfold listed in Hlisted. rewrite Hlevel1 in Hlisted. injection Hlisted as <-.
      exists data. auto.
    - injection Hloop as <- <-. exists []. rewrite app_nil_r.
      split; [reflexivity |]. split; [apply freed_nil | auto]. }
  pose proof (freed_app _ _ _ _ _ Hfreed1 (freed_app _ _ _ _ _ Hfreed2 Hfreed3)) as Hfreed.
  exists own, below, fm3.
  split; [exact Hlisted |]. split; [exact Hbelow |].
  cbn [set_disk clears cout disk].
  split; [rewrite Hl3, Hl2, Hl1, <- !app_assoc; reflexivity |].
  split; [congruence |]. split; [exact Hfreed |].
  pose proof (Directory_WriteBack_frame _ _ _ _ Hdirect Hw2) as (_ & _ & Hframe).
  rewrite (PersistentBitmap_new_same _ d2 d1 Hdirectmap).
  - apply (PersistentBitmap_readback _ _ (disk w3)); auto.
    + rewrite Hd3, Hd2, Hd1. exact Hsized.
    + destruct Hfreed as (_ & _ & Hlen'). unfold Bitmap in *. congruence.
  - intros s Hs H0. apply Hframe. rewrite Z2Nat.id by lia. exact (Hapart s H0 Hs).
Qed.

(** ** Directory tables, read back from the disk *)

Lemma char_of_byte_of_char (c : ascii) : char_of_byte (byte_of_char c) = c.
Proof. unfold char_of_byte, byte_of_char. rewrite N2Z.id. apply ascii_N_embedding. Qed.

Lemma truncate_chars (s : string) :
  chars (truncate s) = take FileNameMaxLen (until_nul (chars s)).
Proof. unfold truncate. apply chars_string. Qed.

Lemma truncate_without (s : string) : without NUL (chars (truncate s)).
Proof. rewrite truncate_chars. apply without_take, until_nul_without. Qed.

Lemma truncate_length (s : string) : (length (chars (truncate s)) ≤ FileNameMaxLen)%nat.
Proof. rewrite truncate_chars, length_take. lia. Qed.

Lemma truncate_idem (s : string) : truncate (truncate s) = truncate s.
Proof.
  unfold truncate at 1. rewrite (until_nul_id _ (truncate_without s)).
  rewrite take_ge by apply truncate_length.
  unfold chars. apply string_of_list_ascii_of_string.
Qed.

Lemma encode_entry_length (e : DirectoryEntry) :
  length (encode_entry e) = Z.to_nat sizeof_DirectoryEntry.
Proof.
  unfold encode_entry. pose proof (truncate_length (name e)) as Hn.
  change FileNameMaxLen with 9%nat in Hn.
  change (Z.to_nat sizeof_DirectoryEntry) with 20%nat.
  rewrite !length_app, length_replicate, length_map. cbn [length encode_int]. lia.
Qed.

Lemma map_replicate {A B} (f : A → B) (n : nat) (x : A) :
  map f (replicate n x) = replicate n (f x).
Proof. induction n as [| n IH]; [reflexivity |]. cbn [replicate map]. rewrite IH. reflexivity. Qed.

Lemma until_nul_padded (p : list ascii) (n : nat) :
  without NUL p → until_nul (p ++ replicate n NUL) = p.
Proof.
  intros Hp. destruct n as [| n].
  - rewrite app_nil_r. apply until_nul_id. exact Hp.
  - apply until_nul_app. exact Hp.
Qed.

(** What is read back of an entry: the flags, the name as the table
    compares it, and the sector when it is an [int]. *)
Lemma stored_spec (e : DirectoryEntry) :
  inUse (stored e) = inUse e ∧ type (stored e) = type e
  ∧ name (stored e) = truncate (name e)
  ∧ (int_range (sector e) → sector (stored e) = sector e).
Proof.
  unfold stored, decode_entry, encode_entry.
  set (nm := map byte_of_char (chars (truncate (name e)))).
  set (pad := replicate (Z.to_nat sizeof_DirectoryEntry - 8 - length nm) 0).
  cbn [inUse type name sector].
  assert (length nm ≤ 9)%nat as Hn
    by (subst nm; rewrite length_map; apply truncate_length).
  change (take 4 (drop 4 ([Z.b2z (inUse e); Z.b2z (type e); 0; 0]
                            ++ encode_int (sector e) ++ nm ++ pad)))
    with (encode_int (sector e)).
  change (drop 8 ([Z.b2z (inUse e); Z.b2z (type e); 0; 0]
                    ++ encode_int (sector e) ++ nm ++ pad))
    with (nm ++ pad).
  cbn [app nth].
  split; [destruct (inUse e); reflexivity |].
  split; [destruct (type e); reflexivity |].
  split; [| apply decode_encode_int].
  assert (take FileNameMaxLen (nm ++ pad) = nm ++ replicate (9 - length nm) 0) as ->.
  { change FileNameMaxLen with 9%nat. rewrite take_app. subst pad.
    rewrite (take_ge nm) by lia. rewrite take_replicate. do 2 f_equal.
    change (Z.to_nat sizeof_DirectoryEntry) with 20%nat. lia. }
  rewrite map_app, map_replicate. subst nm. rewrite map_map.
  rewrite (map_ext _ id) by apply char_of_byte_of_char. rewrite map_id.
  change (char_of_byte 0) with NUL.
  rewrite until_nul_padded by apply truncate_without.
  unfold chars. apply string_of_list_ascii_of_string.
Qed.

Lemma encode_directory_length (table : Directory) :
  length (encode_directory table) = (20 * length table)%nat.
Proof.
  unfold encode_directory. induction table as [| e table IH]; [reflexivity |].
  cbn [flat_map]. rewrite length_app, IH, encode_entry_length.
  change (Z.to_nat sizeof_DirectoryEntry) with 20%nat. cbn [length]. lia.
Qed.

Lemma decode_entries_encode (table : Directory) :
  ∀ rest, decode_entries (length table) (encode_directory table ++ rest) = map stored table.
Proof.
  unfold encode_directory.
  induction table as [| e table IH]; intros rest; [reflexivity |].
  cbn [length decode_entries flat_map map]. rewrite <- app_assoc.
  rewrite take_app_length' by (symmetry; apply encode_entry_length).
  rewrite drop_app_length' by (symmetry; apply encode_entry_length).
  rewrite IH. reflexivity.
Qed.

Lemma name_matches_stored (e : DirectoryEntry) (nm : string) :
  name_matches (stored e) nm = name_matches e nm.
Proof.
  destruct (stored_spec e) as (Hu & _ & Hn & _).
  unfold name_matches. rewrite Hu, Hn, truncate_idem. reflexivity.
Qed.

Lemma FindIndex_from_stored (table : Directory) (nm : string) :
  ∀ i, FindIndex_from (map stored table) nm i = FindIndex_from table nm i.
Proof.
  induction table as [| e table IH]; intros i; [reflexivity |].
  cbn [map FindIndex_from]. rewrite name_matches_stored, IH. reflexivity.
Qed.

(** The table written to a directory file is, entry by entry, the table
    then read from it. *)
Lemma Directory_readback (table : Directory) (f : OpenFile) (d d' : Disk) :
  direct f → sized d →
  length table = Z.to_nat NumDirEntries →
  DirectoryFileSize ≤ FileLength (hdr f) →
  NoDup (take 10 (dataSectors (hdr f))) →
  Directory_WriteBack table f d = Done d' →
  Directory_FetchFrom (Directory_new NumDirEntries) f d' = Done (map stored table).
Proof.
  intros Hf Hd Hlen Hsize Hnodup H. unfold Directory_WriteBack in H.
  apply bind_Done in H as ([k d1] & Hw & H). injection H as <-.
  unfold Directory_FetchFrom.
  change (Z.of_nat (length (Directory_new NumDirEntries)) * sizeof_DirectoryEntry)
    with 1280.
  change (length (Directory_new NumDirEntries)) with (Z.to_nat NumDirEntries).
  rewrite Hlen in Hw.
  change (Z.of_nat (Z.to_nat NumDirEntries) * sizeof_DirectoryEntry) with 1280 in Hw.
  pose proof (encode_directory_length table) as Hbytes. rewrite Hlen in Hbytes.
  change (20 * Z.to_nat NumDirEntries)%nat with 1280%nat in Hbytes.
  rewrite (ReadAt_WriteAt f (encode_directory table) 1280 k d d1 Hf Hd);
    [| | | exact Hnodup | exact Hw].
  - cbn [mbind Outcome_bind]. f_equal.
    rewrite take_ge by lia. unfold overlay. rewrite <- Hlen.
    apply decode_entries_encode.
  - unfold DirectoryFileSize in Hsize. lia.
  - lia.
Qed.

Lemma Directory_FetchFrom_same (table : Directory) (file : OpenFile) (d1 d2 : Disk) :
  direct file →
  (∀ s, s ∈ dataSectors (hdr file) → 0 ≤ s → d1 !! Z.to_nat s = d2 !! Z.to_nat s) →
  Directory_FetchFrom table file d1 = Directory_FetchFrom table file d2.
Proof.
  intros Hf Hsame. unfold Directory_FetchFrom.
  rewrite (ReadAt_same file _ _ d1 d2 Hf Hsame). reflexivity.
Qed.

Lemma Directory_FetchFrom_length (table table' : Directory) (file : OpenFile) (d : Disk) :
  Directory_FetchFrom table file d = Done table' → length table' = length table.
Proof.
  unfold Directory_FetchFrom. intros H. apply bind_Done in H as (bs & _ & H).
  injection H as <-. generalize (overlay bs (encode_directory table)).
  generalize (length table). intros n. induction n as [| n IH]; intros l; [reflexivity |].
  cbn [decode_entries length]. rewrite IH. reflexivity.
Qed.

(** ** The entry that [Add] has put in the table *)

Lemma FindIndex_from_range (table : Directory) (nm : string) :
  ∀ i, 0 ≤ i → FindIndex_from table nm i = -1 ∨ i ≤ FindIndex_from table nm i.
Proof.
  induction table as [| e table IH]; intros i Hi; cbn [FindIndex_from]; [auto |].
  destruct (name_matches e nm); [right; lia |].
  destruct (IH (i + 1) ltac:(lia)); [auto | right; lia].
Qed.

Lemma FindIndex_from_none (table : Directory) (nm : string) :
  ∀ i, 0 ≤ i → FindIndex_from table nm i = -1 →
       Forall (λ e, name_matches e nm = false) table.
Proof.
  induction table as [| e table IH]; intros i Hi H; [constructor |].
  cbn [FindIndex_from] in H. destruct (name_matches e nm) eqn:E; [lia |].
  constructor; [exact E | exact (IH (i + 1) ltac:(lia) H)].
Qed.

Lemma FindIndex_from_insert (table : Directory) (nm : string) (new : DirectoryEntry) :
  Forall (λ e, name_matches e nm = false) table →
  name_matches new nm = true →
  ∀ (n : nat) i, (n < length table)%nat →
                 FindIndex_from (<[n := new]> table) nm i = i + Z.of_nat n.
Proof.
  intros Hnone Hnew. induction Hnone as [| e table He _ IH]; intros n i Hn.
  - cbn [length] in Hn. lia.
  - destruct n as [| n].
    + cbn [FindIndex_from]. change (<[0%nat := new]> (e :: table)) with (new :: table).
      cbn [FindIndex_from]. rewrite Hnew. lia.
    + change (<[S n := new]> (e :: table)) with (e :: <[n := new]> table).
      cbn [FindIndex_from]. rewrite He. cbn [length] in Hn.
      rewrite IH by lia. lia.
Qed.

Lemma first_free_lt (table : Directory) :
  ∀ i j, first_free table i = Some j → (i ≤ j < i + length table)%nat.
Proof.
  induction table as [| e table IH]; intros i j H; [discriminate |].
  cbn [first_free length] in *. destruct (inUse e).
  - apply IH in H. lia.
  - injection H as <-. lia.
Qed.

(** After [Add] or [AddDir] the table finds the name, in the slot of the new
    entry. *)
Lemma add_entry_found (table table' : Directory) (nm : string) (newSector : Z) (ty : bool) :
  add_entry table nm newSector ty = (true, table') →
  ∃ i : nat,
    FindIndex table' nm = Z.of_nat i
    ∧ table' !! i = Some (mkDirectoryEntry true ty newSector (truncate nm))
    ∧ length table' = length table.
Proof.
  unfold add_entry. intros H.
  destruct (Z.eqb_spec (FindIndex table nm) (-1)) as [Hnone |]; [| discriminate].
  cbn [negb] in H. destruct (first_free table 0) as [i |] eqn:Hfree; [| discriminate].
  injection H as <-. apply first_free_lt in Hfree. exists i.
  unfold FindIndex in *.
  apply FindIndex_from_none in Hnone; [| lia].
  rewrite (FindIndex_from_insert table nm _ Hnone) by
    (try lia; unfold name_matches; cbn [inUse name andb];
     rewrite truncate_idem; apply String.eqb_refl).
  split; [lia |]. split; [| apply length_insert].
  apply list_lookup_insert_eq. lia.
Qed.

(** What [Find] and [FindIndex] give in the table read back after an [Add]. *)
Lemma stored_entry_found (table : Directory) (nm : string) (i : nat) (e : DirectoryEntry) :
  FindIndex table nm = Z.of_nat i → table !! i = Some e → int_range (sector e) →
  FindIndex (map stored table) nm = Z.of_nat i
  ∧ Find (map stored table) nm = sector e
  ∧ ∃ e', index (map stored table) (Z.of_nat i) = Done e' ∧ type e' = type e
          ∧ sector e' = sector e.
Proof.
  intros Hi He Hrange. destruct (stored_spec e) as (_ & Hty & _ & Hsec).
  assert (FindIndex (map stored table) nm = Z.of_nat i) as Hi'
    by (unfold FindIndex in *; rewrite FindIndex_from_stored; exact Hi).
  assert (map stored table !! i = Some (stored e)) as He'
    by (change (map stored table) with (stored <$> table); plain;
        rewrite list_lookup_fmap, He; reflexivity).
  split; [exact Hi' |]. split.
  - unfold Find. rewrite Hi'. destruct (Z.eqb_spec (Z.of_nat i) (-1)); [lia |].
    plain. rewrite Nat2Z.id, He'. auto.
  - exists (stored e). split; [| auto].
    apply index_lookup; [lia |]. rewrite Nat2Z.id. exact He'.
Qed.

(** ** [CreateDirectory], read back from the disk *)

Lemma Allocate_loop_rest (n : nat) :
  ∀ (i : nat) (h : FileHeader) (freeMap : Bitmap) ok h' freeMap',
    Allocate_loop n i h freeMap = (ok, h', freeMap') →
    drop (i + n) (dataSectors h') = drop (i + n) (dataSectors h).
Proof.
  induction n as [| n IH]; intros i h freeMap ok h' freeMap' H; cbn [Allocate_loop] in H.
  - injection H as _ <- _. reflexivity.
  - destruct (FindAndSet freeMap) as [s freeMap1].
    destruct (s =? -1).
    + injection H as _ <- _. reflexivity.
    + apply IH in H. cbn [set_dataSectors dataSectors] in H.
      replace (i + S n)%nat with (S i + n)%nat by lia. rewrite H.
      apply drop_insert_lt. lia.
Qed.

(** What the table of a header holds after [Allocate]: the sectors taken,
    then what it held. *)
Lemma Allocate_table (h : FileHeader) (freeMap : Bitmap) (fileSize : Z) h' freeMap' l :
  Allocate h freeMap fileSize = (true, h', freeMap') →
  length (dataSectors h) = Z.to_nat NumDirect →
  listed h' = Done l →
  dataSectors h' = l ++ drop (length l) (dataSectors h).
Proof.
  intros H Hlen Hl. pose proof (Allocate_fields _ _ _ _ _ _ H) as (_ & Hsectors & _).
  unfold Allocate in H.
  destruct (Z.ltb_spec NumDirect (divRoundUp fileSize SectorSize)); [discriminate |].
  pose proof (Allocate_loop_rest _ _ _ _ _ _ _ H) as Hrest.
  rewrite Nat.add_0_l in Hrest.
  apply Allocate_loop_taken in H as (l' & _ & Hsame & _ & Hlisted);
    cbn [set_numSectors set_numBytes dataSectors] in *; [| lia].
  unfold listed in Hl. rewrite Hsectors in Hl.
  pose proof (listed_from_take h' (Z.to_nat (divRoundUp fileSize SectorSize)) 0%nat) as Htake.
  change (Z.of_nat 0) with 0 in Htake. rewrite Htake in Hl by lia.
  injection Hl as Hl. rewrite drop_0 in Hl, Hlisted.
  assert (length l = Z.to_nat (divRoundUp fileSize SectorSize)) as Hcount
    by (rewrite <- Hl, length_take; lia).
  rewrite Hcount, <- Hrest, <- Hl. symmetry. apply take_drop.
Qed.

(** An empty table written to a file of that size is the table read from
    it. *)
Lemma Directory_new_readback (f : OpenFile) (d d' : Disk) :
  direct f → sized d →
  DirectoryFileSize ≤ FileLength (hdr f) →
  NoDup (take 10 (dataSectors (hdr f))) →
  Directory_WriteBack (Directory_new NumDirEntries) f d = Done d' →
  Directory_FetchFrom (Directory_new NumDirEntries) f d' = Done (Directory_new NumDirEntries).
Proof.
  intros Hf Hd Hsize Hnodup H. unfold Directory_WriteBack in H.
  apply bind_Done in H as ([k d1] & Hw & H). injection H as <-.
  unfold Directory_FetchFrom.
  change (Z.of_nat (length (Directory_new NumDirEntries)) * sizeof_DirectoryEntry)
    with 1280 in *.
  rewrite (ReadAt_WriteAt f (encode_directory (Directory_new NumDirEntries)) 1280 k d d1
             Hf Hd); [| | | exact Hnodup | exact Hw].
  - cbn [mbind Outcome_bind]. vm_compute. reflexivity.
  - unfold DirectoryFileSize in Hsize. lia.
  - vm_compute. discriminate.
Qed.

(** X23.  A [CreateDirectory] that returns TRUE, on a disk whose sectors
    hold [SectorSize] bytes and where the parent directory and the bitmap are
    files with a direct header that share no sector, whose sectors are marked
    in the bitmap, the sectors of the parent's table being pairwise distinct,
    leaves this on the disk.  The sector of the new directory's header is
    the first that was clear in the bitmap; the header read from it is a
    level-1 header of [DirectoryFileSize] = 1280 bytes that lists ten
    sectors.  These eleven sectors are pairwise distinct, each was clear in
    the bitmap file before the call and is set in it after the call, and no
    other bit of the bitmap file has changed.  The table read from the new
    directory has no entry in use, and the table read from the parent finds
    the name, at the sector of the new header, as a directory. *)
Theorem CreateDirectory_takes_free_sectors (fs : FileSystem) (name parent : string)
    (d d' : Disk) (dirFile : OpenFile) (freeMap0 : Bitmap) :
  sized d →
  OpenDir fs parent d = Done (Some dirFile) →
  PersistentBitmap_new (freeMapFile fs) NumSectors d = Done freeMap0 →
  direct dirFile → direct (freeMapFile fs) →
  apart (freeMapFile fs) dirFile →
  FreeMapFileSize ≤ FileLength (hdr (freeMapFile fs)) →
  DirectoryFileSize ≤ FileLength (hdr dirFile) →
  NoDup (take 10 (dataSectors (hdr dirFile))) →
  marked freeMap0 dirFile → marked freeMap0 (freeMapFile fs) →
  CreateDirectory fs name parent d = Done (true, d') →
  ∃ sector dirHdr data freeMap' newDirFile table entry,
    first_clear freeMap0 0 = Some sector
    ∧ FileHeader_FetchFrom sector d' = Done dirHdr
    ∧ level dirHdr = 1 ∧ numBytes dirHdr = 1280 ∧ numSectors dirHdr = 10
    ∧ listed dirHdr = Done data ∧ length data = 10%nat
    ∧ PersistentBitmap_new (freeMapFile fs) NumSectors d' = Done freeMap'
    ∧ taken freeMap0 freeMap' (sector :: data)
    ∧ OpenFile_new sector d' = Done newDirFile
    ∧ Directory_FetchFrom (Directory_new NumDirEntries) newDirFile d'
      = Done (Directory_new NumDirEntries)
    ∧ Directory_FetchFrom (Directory_new NumDirEntries) dirFile d' = Done table
    ∧ Find table name = sector
    ∧ index table (FindIndex table name) = Done entry
    ∧ type entry = true.
Proof.
  intros Hd Hopen Hmap Hdirect Hdirectmap Hapart Hlong Hlongdir Hnodupdir Hmarked
    Hmarkedmap H.
  unfold CreateDirectory in H. rewrite Hopen in H. cbn [mbind Outcome_bind] in H.
  apply bind_Done in H as (directory & Hdir & H).
  destruct (Z.eqb_spec (Find directory name) (-1)) as [Hfind | _]; [| discriminate].
  cbn [negb] in H. rewrite Hmap in H. cbn [mbind Outcome_bind] in H.
  destruct (FindAndSet freeMap0) as [sector freeMap1] eqn:Hsector.
  destruct (Z.eqb_spec sector (-1)) as [| Hne]; [discriminate |].
  destruct (Directory_AddDir directory name sector) as [[|] directory'] eqn:Hadd;
    [| discriminate].
  cbn [negb] in H.
  destruct (Allocate (set_level 1 FileHeader_new) freeMap1 DirectoryFileSize)
    as [[[|] dirHdr] freeMap'] eqn:Halloc; [| discriminate].
  cbn [negb] in H.
  apply bind_Done in H as (d1 & Hw1 & H). apply bind_Done in H as (d2 & Hw2 & H).
  apply bind_Done in H as (d3 & Hw3 & H). apply bind_Done in H as (newDirFile & Hnew & H).
  apply bind_Done in H as (d4 & Hw4 & H). injection H as <-.
  pose proof (FindAndSet_first _ _ _ Hsector Hne) as Hfirst.
  pose proof (FindAndSet_range _ _ _ Hsector) as [_ Hlen1].
  apply FindAndSet_taken in Hsector as [[? _] | [_ Htaken1]]; [contradiction |].
  pose proof (PersistentBitmap_new_length _ _ _ Hmap) as Hlen0.
  change (Z.to_nat NumSectors) with 128%nat in Hlen0.
  pose proof (Allocate_fields _ _ _ _ _ _ Halloc) as (Hbytes & Hsectors & Hlevel).
  change (divRoundUp DirectoryFileSize SectorSize) with 10 in Hsectors.
  change DirectoryFileSize with 1280 in Hbytes. cbn [set_level level] in Hlevel.
  assert (Forall int_range (dataSectors dirHdr)
          ∧ length (dataSectors dirHdr) = length (dataSectors (set_level 1 FileHeader_new)))
    as [Hints Hlenh].
  { apply (Allocate_range _ _ _ _ _ _ Halloc).
    - unfold Bitmap in *. lia.
    - apply Forall_replicate. unfold int_range. lia. }
  cbn [set_level dataSectors FileHeader_new] in Hlenh. rewrite length_replicate in Hlenh.
  change (Z.to_nat NumDirect) with 29%nat in Hlenh.
  destruct (Allocate_taken _ _ _ _ _ Halloc ltac:(apply length_replicate))
    as (data & Hlisted & Htaken2 & _).
  pose proof (Allocate_table _ _ _ _ _ _ Halloc ltac:(apply length_replicate) Hlisted)
    as Htable.
  cbn [set_level dataSectors FileHeader_new] in Htable.
  assert (length data = 10%nat) as Hcount.
  { unfold listed in Hlisted. rewrite Hsectors in Hlisted.
    pose proof (listed_from_take dirHdr (Z.to_nat 10) 0%nat) as Htake.
    change (Z.of_nat 0) with 0 in Htake. rewrite Htake in Hlisted by lia.
    injection Hlisted as <-. rewrite length_take, length_drop. lia. }
  pose proof (taken_app _ _ _ _ _ Htaken1 Htaken2) as Htaken.
  change ([sector] ++ data) with (sector :: data) in Htaken.
  pose proof Htaken as (Hnodup & Hwere & _ & Hlen').
  assert (∀ s, s ∈ sector :: data → 0 ≤ s < 128) as Hrange.
  { intros s Hs. pose proof (taken_range _ _ _ s Htaken Hs). unfold Bitmap in *. lia. }
  (* the table of the new header: the ten sectors, then -1 *)
  assert (∀ s, s ∈ dataSectors dirHdr → 0 ≤ s → s ∈ data) as Hheld.
  { intros s Hs H0. rewrite Htable in Hs. apply elem_of_app in Hs as [Hs | Hs]; [exact Hs |].
    apply subseteq_drop in Hs. apply elem_of_replicate in Hs as [-> _]. lia. }
  assert (header_ok dirHdr) as Hok.
  { unfold header_ok, int_range. rewrite Hbytes, Hsectors, Hlevel.
    auto with lia. }
  (* the sectors that the writes after the first leave alone *)
  pose proof (WriteBack_frame _ _ _ _ Hw1) as (Hs0 & _ & Hsized1 & Hf1).
  pose proof (Directory_WriteBack_frame _ _ _ _ Hdirect Hw2) as (_ & Hsized2 & Hf2).
  pose proof (PersistentBitmap_WriteBack_frame _ _ _ _ Hdirectmap Hw3)
    as (_ & Hsized3 & Hf3).
  assert (∀ s, s ∈ sector :: data → d3 !! Z.to_nat s = d1 !! Z.to_nat s) as Hmid.
  { intros s Hs. destruct (Hwere s Hs) as (H0 & Hclear & _).
    rewrite Hf3, Hf2; [reflexivity | |]; rewrite Z2Nat.id by lia; intros Hin.
    - specialize (Hmarked s Hin H0). congruence.
    - specialize (Hmarkedmap s Hin H0). congruence. }
  assert (sector ∈ sector :: data) as Hinroot by (apply elem_of_cons; left; reflexivity).
  assert (FileHeader_FetchFrom sector d3 = Done dirHdr) as Hhdr3.
  { rewrite <- (FetchFrom_WriteBack dirHdr sector d d1 Hok Hw1).
    apply FetchFrom_same. apply Hmid. exact Hinroot. }
  unfold OpenFile_new in Hnew. rewrite Hhdr3 in Hnew. cbn [mbind Outcome_bind] in Hnew.
  injection Hnew as <-.
  assert (direct (mkOpenFile dirHdr 0)) as Hdirectnew
    by (unfold direct; cbn [hdr]; rewrite Hlevel; discriminate).
  pose proof (Directory_WriteBack_frame _ _ _ _ Hdirectnew Hw4) as (_ & Hsized4 & Hf4).
  cbn [hdr] in Hf4.
  assert (sector ∉ dataSectors dirHdr) as Hfresh.
  { intros Hin. apply NoDup_cons in Hnodup as [Hnot _]. apply Hnot.
    apply Hheld; [exact Hin |]. apply Hrange. exact Hinroot. }
  assert (FileHeader_FetchFrom sector d4 = Done dirHdr) as Hhdr4.
  { rewrite <- Hhdr3. apply FetchFrom_same. apply Hf4.
    rewrite Z2Nat.id by (apply Hrange; exact Hinroot). exact Hfresh. }
  (* the entry of the new directory in the table of its parent *)
  unfold Directory_AddDir in Hadd.
  destruct (add_entry_found _ _ _ _ _ Hadd) as (i & Hi & He & Hlenadd).
  pose proof (Directory_FetchFrom_length _ _ _ _ Hdir) as Hlendir.
  change (length (Directory_new NumDirEntries)) with (Z.to_nat NumDirEntries) in Hlendir.
  destruct (stored_entry_found directory' name i _ Hi He)
    as (Hindex & Hfound & entry & Hentry & Htype & _).
  { unfold int_range. cbn. pose proof (Hrange sector Hinroot). lia. }
  assert (Directory_FetchFrom (Directory_new NumDirEntries) dirFile d4
          = Done (map stored directory')) as Hparent.
  { rewrite (Directory_FetchFrom_same _ dirFile d4 d3 Hdirect).
    - rewrite (Directory_FetchFrom_same _ dirFile d3 d2 Hdirect).
      + apply (Directory_readback _ _ d1); auto. congruence.
      + intros s Hs H0. apply Hf3. rewrite Z2Nat.id by lia.
        intros Hin. exact (Hapart s H0 Hin Hs).
    - intros s Hs H0. apply Hf4. rewrite Z2Nat.id by lia. intros Hin.
      specialize (Hheld s Hin H0).
      destruct (Hwere s ltac:(apply elem_of_cons; right; exact Hheld)) as (_ & Hclear & _).
      specialize (Hmarked s Hs H0). congruence. }
  exists sector, dirHdr, data, freeMap', (mkOpenFile dirHdr 0), (map stored directory'),
    entry.
  split; [exact Hfirst |]. split; [exact Hhdr4 |].
  split; [exact Hlevel |]. split; [exact Hbytes |]. split; [exact Hsectors |].
  split; [exact Hlisted |]. split; [exact Hcount |]. split; [| split; [exact Htaken |]].
  - rewrite (PersistentBitmap_new_same _ d4 d3 Hdirectmap).
    + apply (PersistentBitmap_readback _ _ d2); auto.
      unfold Bitmap in *. change (Z.to_nat NumSectors) with 128%nat. congruence.
    + intros s Hs H0. apply Hf4. rewrite Z2Nat.id by lia. intros Hin.
      specialize (Hheld s Hin H0).
      destruct (Hwere s ltac:(apply elem_of_cons; right; exact Hheld)) as (_ & Hclear & _).
      specialize (Hmarkedmap s Hs H0). congruence.
  - split; [unfold OpenFile_new; rewrite Hhdr4; reflexivity |].
    split.
    + apply (Directory_new_readback _ d3); auto.
      * cbn [hdr]. unfold FileLength. rewrite Hbytes. unfold DirectoryFileSize. lia.
      * cbn [hdr]. rewrite Htable, take_app_length' by (symmetry; exact Hcount).
        apply NoDup_cons in Hnodup as [_ Hnodup]. exact Hnodup.
    + split; [exact Hparent |]. split; [exact Hfound |]. rewrite Hindex. auto.
Qed.

Lemma CreateDirectory_takes_free_sectors_witness :
  let d := disk world0 in
  let d' := disk (after [OpCreateDirectory "d" "/"]) in
  let dirFile := handle (OpenDir fs0 "/" d) in
  let freeMap0 := returned [] (PersistentBitmap_new (freeMapFile fs0) NumSectors d) in
  sized d
  ∧ direct dirFile ∧ direct (freeMapFile fs0)
  ∧ apart (freeMapFile fs0) dirFile
  ∧ FreeMapFileSize ≤ FileLength (hdr (freeMapFile fs0))
  ∧ DirectoryFileSize ≤ FileLength (hdr dirFile)
  ∧ NoDup (take 10 (dataSectors (hdr dirFile)))
  ∧ marked freeMap0 dirFile ∧ marked freeMap0 (freeMapFile fs0)
  ∧ CreateDirectory fs0 "d" "/" d = Done (true, d')
  ∧ ∃ sector dirHdr data freeMap' newDirFile table entry,
      first_clear freeMap0 0 = Some sector
      ∧ FileHeader_FetchFrom sector d' = Done dirHdr
      ∧ level dirHdr = 1 ∧ numBytes dirHdr = 1280 ∧ numSectors dirHdr = 10
      ∧ listed dirHdr = Done data ∧ length data = 10%nat
      ∧ PersistentBitmap_new (freeMapFile fs0) NumSectors d' = Done freeMap'
      ∧ taken freeMap0 freeMap' (sector :: data)
      ∧ OpenFile_new sector d' = Done newDirFile
      ∧ Directory_FetchFrom (Directory_new NumDirEntries) newDirFile d'
        = Done (Directory_new NumDirEntries)
      ∧ Directory_FetchFrom (Directory_new NumDirEntries) dirFile d' = Done table
      ∧ Find table "d" = sector
      ∧ index table (FindIndex table "d") = Done entry
      ∧ type entry = true.
Proof.
  intros d d' dirFile freeMap0.
  assert (sized d) as H0 by (apply sized_check; vm_compute; reflexivity).
  assert (direct dirFile) as H1 by (vm_compute; congruence).
  assert (direct (freeMapFile fs0)) as H2 by (vm_compute; congruence).
  assert (marked freeMap0 dirFile) as H3 by (apply marked_check; vm_compute; reflexivity).
  assert (marked freeMap0 (freeMapFile fs0)) as H4
    by (apply marked_check; vm_compute; reflexivity).
  assert (CreateDirectory fs0 "d" "/" d = Done (true, d')) as H5
    by (vm_compute; reflexivity).
  assert (FreeMapFileSize ≤ FileLength (hdr (freeMapFile fs0))) as H6
    by (vm_compute; congruence).
  assert (apart (freeMapFile fs0) dirFile) as H7
    by (apply apart_check; vm_compute; reflexivity).
  assert (DirectoryFileSize ≤ FileLength (hdr dirFile)) as H8
    by (vm_compute; congruence).
  assert (NoDup (take 10 (dataSectors (hdr dirFile)))) as H9
    by (apply (bool_decide_unpack _); vm_compute; reflexivity).
  split; [exact H0 |]. split; [exact H1 |]. split; [exact H2 |]. split; [exact H7 |].
  split; [exact H6 |]. split; [exact H8 |]. split; [exact H9 |].
  split; [exact H3 |]. split; [exact H4 |]. split; [exact H5 |].
  apply (CreateDirectory_takes_free_sectors fs0 "d" "/" d d' dirFile freeMap0);
    first [assumption | vm_compute; reflexivity].
Defined.

(** ** A file that [Create] has made, removed again *)





(** Lines 511-514, on the disk: the parent's table, with the entry out of
    use, is the table its file then holds. *)
Lemma Remove_finish_table (fs : FileSystem) (filename : string) (sector : Z)
    (fileHdr : FileHeader) (freeMap : Bitmap) (directory : Directory)
    (dirFile : OpenFile) (w : World) (r : bool) (w' : World) :
  direct dirFile → direct (freeMapFile fs) → sized (disk w) →
  length directory = Z.to_nat NumDirEntries →
  DirectoryFileSize ≤ FileLength (hdr dirFile) →
  NoDup (take 10 (dataSectors (hdr dirFile))) →
  Remove_finish fs filename sector fileHdr freeMap directory dirFile w = Done (r, w') →
  Directory_FetchFrom (Directory_new NumDirEntries) dirFile (disk w')
  = Done (map stored (snd (Directory_Remove directory filename))).
Proof.
  intros Hdirect Hdirectmap Hsized Hlen Hlong Hnodup H. unfold Remove_finish in H.
  apply bind_Done in H as ([fm1 w1] & Hloop & H).
  apply bind_Done in H as ([fm2 w2] & Hroot & H).
  apply bind_Done in H as ([fm3 w3] & Hown & H).
  destruct (Directory_Remove directory filename) as [removed directory'] eqn:Hremove.
  apply bind_Done in H as (d1 & Hw1 & H). apply bind_Done in H as (d2 & Hw2 & H).
  injection H as _ <-. cbn [set_disk disk snd].
  apply Deallocate_spec in Hroot as (own & _ & Hd2 & _).
  apply Clear_call_freed in Hown as (_ & Hd3 & _).
  assert (disk w1 = disk w) as Hd1.
  { destruct (level fileHdr =? 0).
    - apply Remove_level1_spec in Hloop as (? & ? & _ & _ & Hd1 & _). exact Hd1.
    - injection Hloop as _ <-. reflexivity. }
  pose proof (PersistentBitmap_WriteBack_frame _ _ _ _ Hdirectmap Hw1) as (_ & Hs1 & _).
  apply (Directory_readback _ _ d1); auto.
  - apply Hs1. rewrite Hd3, Hd2, Hd1. exact Hsized.
  - unfold Directory_Remove in Hremove.
    destruct (FindIndex directory filename =? -1); injection Hremove as _ <-;
      [exact Hlen |].
    plain. rewrite length_alter. exact Hlen.
Qed.

(** X15.  [name] resolves to a directory with no entry in use, whose header
    is a level-1 header, on a disk whose sectors hold [SectorSize] bytes and
    where the bitmap and the parent directory are files with a direct header
    that share no sector, the sectors of the parent's table being pairwise
    distinct.  A [Remove] of it that returns TRUE, with [recur] or without,
    has printed one line and has called [Clear] for the sectors the header
    lists, in order, and then for the header's sector.  In the bitmap file
    that it leaves on the disk these bits are clear and no other bit has
    changed, and in the table that the parent's file then holds the slot of
    the entry is not in use. *)
Theorem Remove_empty_directory_clears (fuel : nat) (fs : FileSystem) (name : string)
    (recur : bool) (w w' : World) (parent filename : string)
    (dirFile nextDirFile : OpenFile) (directory nextDir : Directory)
    (entry : DirectoryEntry) (fileHdr : FileHeader) (freeMap : Bitmap) :
  sized (disk w) →
  SplitPath name = Done (parent, filename) →
  OpenDir fs parent (disk w) = Done (Some dirFile) →
  direct dirFile → direct (freeMapFile fs) → apart (freeMapFile fs) dirFile →
  FreeMapFileSize ≤ FileLength (hdr (freeMapFile fs)) →
  DirectoryFileSize ≤ FileLength (hdr dirFile) →
  NoDup (take 10 (dataSectors (hdr dirFile))) →
  Directory_FetchFrom (Directory_new NumDirEntries) dirFile (disk w) = Done directory →
  Find directory filename ≠ -1 →
  index directory (FindIndex directory filename) = Done entry →
  type entry = true →
  FileHeader_FetchFrom (Find directory filename) (disk w) = Done fileHdr →
  level fileHdr ≠ 0 →
  PersistentBitmap_new (freeMapFile fs) NumSectors (disk w) = Done freeMap →
  OpenDir fs name (disk w) = Done (Some nextDirFile) →
  Directory_FetchFrom (Directory_new NumDirEntries) nextDirFile (disk w) = Done nextDir →
  count_inUse nextDir = 0 →
  Remove (S fuel) fs name recur w = Done (true, w') →
  ∃ sectors freeMap' table' entry',
    listed fileHdr = Done sectors
    ∧ cout w' = cout w ++ [("Remove " ++ name)%string]
    ∧ clears w' = clears w ++ sectors ++ [Find directory filename]
    ∧ PersistentBitmap_new (freeMapFile fs) NumSectors (disk w') = Done freeMap'
    ∧ (∀ s, s ∈ sectors ++ [Find directory filename] →
            0 ≤ s ∧ freeMap' !! Z.to_nat s = Some false)
    ∧ (∀ j : nat, Z.of_nat j ∉ sectors ++ [Find directory filename] →
                  freeMap' !! j = freeMap !! j)
    ∧ Directory_FetchFrom (Directory_new NumDirEntries) dirFile (disk w') = Done table'
    ∧ index table' (FindIndex directory filename) = Done entry'
    ∧ inUse entry' = false.
Proof.
  intros Hsized Hsplit Hparent Hdirect Hdirectmap Hapart Hlong Hlongdir Hnodup Hdir Hfound
    Hentry Htype Hhdr Hlevel Hmap Hnext Hnextdir Hcount Hrun.
  set (found := Find directory filename) in *.
  cbn [Remove] in Hrun. rewrite Hsplit in Hrun. cbn [mbind Outcome_bind print disk] in Hrun.
  rewrite Hparent in Hrun. cbn [mbind Outcome_bind] in Hrun.
  rewrite Hdir in Hrun. cbn [mbind Outcome_bind] in Hrun. fold found in Hrun.
  destruct (Z.eqb_spec found (-1)) as [? | _]; [contradiction |].
  rewrite Hhdr in Hrun. cbn [mbind Outcome_bind] in Hrun.
  rewrite Hmap in Hrun. cbn [mbind Outcome_bind] in Hrun.
  rewrite Hentry in Hrun. cbn [mbind Outcome_bind] in Hrun. rewrite Htype in Hrun.
  rewrite Hnext in Hrun. cbn [mbind Outcome_bind] in Hrun.
  rewrite Hnextdir in Hrun. cbn [mbind Outcome_bind] in Hrun.
  rewrite Hcount in Hrun. cbn [Z.eqb negb] in Hrun. rewrite andb_false_r in Hrun.
  rewrite Remove_children_none in Hrun by exact Hcount. cbn [mbind Outcome_bind] in Hrun.
  pose proof (PersistentBitmap_new_length _ _ _ Hmap) as Hlen0.
  pose proof (Directory_FetchFrom_length _ _ _ _ Hdir) as Hlend.
  change (length (Directory_new NumDirEntries)) with (Z.to_nat NumDirEntries) in Hlend.
  pose proof (Remove_finish_table _ _ _ _ _ _ _ (print _ w) _ _ Hdirect Hdirectmap Hsized
                Hlend Hlongdir Hnodup Hrun) as Htable.
  apply Remove_finish_disk in Hrun
      as (sectors & below & freeMap' & Hlisted & Hbelow & Hclears & Hcout & Hfreed & Hmap');
    [| assumption | assumption | assumption | exact Hsized | exact Hlen0 | exact Hlong].
  destruct (Z.eqb_spec (level fileHdr) 0) as [? | _]; [contradiction |].
  injection Hbelow as <-. cbn [app print cout clears] in Hclears, Hcout, Hfreed.
  destruct Hfreed as (Hclear & Hframe & _).
  (* the slot of the entry in the table written back *)
  apply index_Done in Hentry as [Hi Hslot].
  assert (FindIndex directory filename ≠ -1) as Hindex by lia.
  unfold Directory_Remove in Htable.
  destruct (Z.eqb_spec (FindIndex directory filename) (-1)) as [? | _]; [contradiction |].
  cbn [snd] in Htable.
  match type of Htable with context [alter ?f _ _] => set (out := f) in Htable end.
  exists sectors, freeMap', (map stored (alter out (Z.to_nat (FindIndex directory filename))
                                           directory)), (stored (out entry)).
  split; [exact Hlisted |]. split; [exact Hcout |]. split; [exact Hclears |].
  split; [exact Hmap' |]. split; [exact Hclear |]. split; [exact Hframe |].
  split; [exact Htable |]. split.
  - apply index_lookup; [exact Hi |].
    change (map stored ?l) with (stored <$> l). plain.
    rewrite list_lookup_fmap, list_lookup_alter, decide_True, Hslot by reflexivity.
    reflexivity.
  - destruct (stored_spec (out entry)) as (Hu & _). rewrite Hu. reflexivity.
Qed.

Lemma Remove_empty_directory_clears_witness :
  let w := after [OpCreateDirectory "d" "/"] in
  let w' := returned w ('(_, w') ← Remove 1 fs0 "/d" false w; Done w') in
  let dirFile := handle (OpenDir fs0 "/" (disk w)) in
  let root := table_of fs0 "/" (disk w) in
  let fileHdr := returned FileHeader_new (FileHeader_FetchFrom (Find root "d") (disk w)) in
  let freeMap := returned [] (PersistentBitmap_new (freeMapFile fs0) NumSectors (disk w)) in
  sized (disk w)
  ∧ direct dirFile ∧ direct (freeMapFile fs0) ∧ apart (freeMapFile fs0) dirFile
  ∧ FreeMapFileSize ≤ FileLength (hdr (freeMapFile fs0))
  ∧ DirectoryFileSize ≤ FileLength (hdr dirFile)
  ∧ NoDup (take 10 (dataSectors (hdr dirFile)))
  ∧ Find root "d" = 13
  ∧ level fileHdr = 1
  ∧ count_inUse (table_of fs0 "/d" (disk w)) = 0
  ∧ Remove 1 fs0 "/d" false w = Done (true, w')
  ∧ ∃ sectors freeMap' table' entry',
      listed fileHdr = Done sectors
      ∧ cout w' = cout w ++ ["Remove /d"%string]
      ∧ clears w' = clears w ++ sectors ++ [Find root "d"]
      ∧ PersistentBitmap_new (freeMapFile fs0) NumSectors (disk w') = Done freeMap'
      ∧ (∀ s, s ∈ sectors ++ [Find root "d"] →
              0 ≤ s ∧ freeMap' !! Z.to_nat s = Some false)
      ∧ (∀ j : nat, Z.of_nat j ∉ sectors ++ [Find root "d"] →
                    freeMap' !! j = freeMap !! j)
      ∧ Directory_FetchFrom (Directory_new NumDirEntries) dirFile (disk w') = Done table'
      ∧ index table' (FindIndex root "d") = Done entry'
      ∧ inUse entry' = false.
Proof.
  intros w w' dirFile root fileHdr freeMap.
  assert (sized (disk w)) as H0 by (apply sized_check; vm_compute; reflexivity).
  assert (direct dirFile) as H1 by (vm_compute; congruence).
  assert (direct (freeMapFile fs0)) as H2 by (vm_compute; congruence).
  assert (apart (freeMapFile fs0) dirFile) as H3
    by (apply apart_check; vm_compute; reflexivity).
  assert (FreeMapFileSize ≤ FileLength (hdr (freeMapFile fs0))) as H4
    by (vm_compute; congruence).
  assert (DirectoryFileSize ≤ FileLength (hdr dirFile)) as H5
    by (vm_compute; congruence).
  assert (NoDup (take 10 (dataSectors (hdr dirFile)))) as H6
    by (apply (bool_decide_unpack _); vm_compute; reflexivity).
  assert (Remove 1 fs0 "/d" false w = Done (true, w')) as H7 by (vm_compute; reflexivity).
  split; [exact H0 |]. split; [exact H1 |]. split; [exact H2 |]. split; [exact H3 |].
  split; [exact H4 |]. split; [exact H5 |]. split; [exact H6 |].
  split; [vm_compute; reflexivity |]. split; [vm_compute; reflexivity |].
  split; [vm_compute; reflexivity |]. split; [exact H7 |].
  apply (Remove_empty_directory_clears 0 fs0 "/d" false w w' "/" "d" dirFile
           (handle (OpenDir fs0 "/d" (disk w))) root (table_of fs0 "/d" (disk w))
           (returned (mkDirectoryEntry false false 0 "")
              (index root (FindIndex root "d"))) fileHdr freeMap);
    first [assumption | vm_compute; reflexivity | vm_compute; congruence].
Defined.

(** ** [Remove] of a file, on any disk *)

(** X25.  [name] resolves to an entry of its parent that is a file, on a
    disk whose sectors hold [SectorSize] bytes and where the bitmap and the
    parent directory are files with a direct header that share no sector.
    [owned] are the sectors of the file as the disk has them: the sector of
    its header, those the header lists and, for a header of level 0, those
    its level-1 headers list.  A [Remove] that returns TRUE has printed one
    line and has called [Clear] as many times as [owned] has sectors, once
    for each occurrence.  In the bitmap file that it leaves on the disk the
    bits of [owned] are clear and no other bit has changed. *)
Theorem Remove_file_frees_sectors (fuel : nat) (fs : FileSystem) (name : string)
    (recur : bool) (w w' : World) (parent filename : string) (dirFile : OpenFile)
    (directory : Directory) (entry : DirectoryEntry) (freeMap : Bitmap) (owned : list Z) :
  sized (disk w) →
  SplitPath name = Done (parent, filename) →
  OpenDir fs parent (disk w) = Done (Some dirFile) →
  direct dirFile → direct (freeMapFile fs) → apart (freeMapFile fs) dirFile →
  FreeMapFileSize ≤ FileLength (hdr (freeMapFile fs)) →
  Directory_FetchFrom (Directory_new NumDirEntries) dirFile (disk w) = Done directory →
  Find directory filename ≠ -1 →
  index directory (FindIndex directory filename) = Done entry →
  type entry = false →
  PersistentBitmap_new (freeMapFile fs) NumSectors (disk w) = Done freeMap →
  file_sectors (Find directory filename) (disk w) = Done owned →
  Remove (S fuel) fs name recur w = Done (true, w') →
  ∃ cleared freeMap',
    clears w' = clears w ++ cleared
    ∧ cleared ≡ₚ owned
    ∧ cout w' = cout w ++ [("Remove " ++ name)%string]
    ∧ PersistentBitmap_new (freeMapFile fs) NumSectors (disk w') = Done freeMap'
    ∧ (∀ s, s ∈ owned → 0 ≤ s ∧ freeMap' !! Z.to_nat s = Some false)
    ∧ (∀ j : nat, Z.of_nat j ∉ owned → freeMap' !! j = freeMap !! j).
Proof.
  intros Hsized Hsplit Hparent Hdirect Hdirectmap Hapart Hlong Hdir Hfound Hentry Htype
    Hmap Howned Hrun.
  set (found := Find directory filename) in *.
  unfold file_sectors in Howned.
  apply bind_Done in Howned as (fileHdr & Hhdr & Howned).
  apply bind_Done in Howned as (own & Hown & Howned).
  apply bind_Done in Howned as (below & Hbelow & Howned). injection Howned as <-.
  cbn [Remove] in Hrun. rewrite Hsplit in Hrun. cbn [mbind Outcome_bind print disk] in Hrun.
  rewrite Hparent in Hrun. cbn [mbind Outcome_bind] in Hrun.
  rewrite Hdir in Hrun. cbn [mbind Outcome_bind] in Hrun. fold found in Hrun.
  destruct (Z.eqb_spec found (-1)) as [? | _]; [contradiction |].
  rewrite Hhdr in Hrun. cbn [mbind Outcome_bind] in Hrun.
  rewrite Hmap in Hrun. cbn [mbind Outcome_bind] in Hrun.
  rewrite Hentry in Hrun. cbn [mbind Outcome_bind] in Hrun. rewrite Htype in Hrun.
  pose proof (PersistentBitmap_new_length _ _ _ Hmap) as Hlen0.
  apply Remove_finish_disk in Hrun
      as (own' & below' & freeMap' & Hown' & Hbelow' & Hclears & Hcout & Hfreed & Hmap');
    [| assumption | assumption | assumption | exact Hsized | exact Hlen0 | exact Hlong].
  cbn [print disk cout clears] in Hbelow', Hclears, Hcout.
  rewrite Hown in Hown'. injection Hown' as <-.
  rewrite Hbelow in Hbelow'. injection Hbelow' as <-.
  assert (below ++ own ++ [found] ≡ₚ found :: own ++ below) as Hperm.
  { rewrite (Permutation_app_comm own below), app_assoc.
    rewrite <- (Permutation_app_comm [found]). reflexivity. }
  destruct Hfreed as (Hclear & Hframe & _).
  exists (below ++ own ++ [found]), freeMap'.
  split; [exact Hclears |]. split; [exact Hperm |]. split; [exact Hcout |].
  split; [exact Hmap' |]. split.
  - intros s Hs. apply Hclear. rewrite Hperm. exact Hs.
  - intros j Hj. apply Hframe. rewrite Hperm. exact Hj.
Qed.

(** [/a], of 300 bytes, next to [/b]: a root header, one level-1 header and
    three data sectors. *)
Lemma Remove_file_frees_sectors_witness :
  let w := after [OpCreate "/a" 300; OpCreate "/b" 5000] in
  let w' := returned w ('(_, w') ← Remove 1 fs0 "/a" false w; Done w') in
  let dirFile := handle (OpenDir fs0 "/" (disk w)) in
  let root := table_of fs0 "/" (disk w) in
  let freeMap := returned [] (PersistentBitmap_new (freeMapFile fs0) NumSectors (disk w)) in
  let owned := returned [] (file_sectors (Find root "a") (disk w)) in
  sized (disk w)
  ∧ direct dirFile ∧ direct (freeMapFile fs0) ∧ apart (freeMapFile fs0) dirFile
  ∧ FreeMapFileSize ≤ FileLength (hdr (freeMapFile fs0))
  ∧ Find root "a" = 13
  ∧ owned = [13; 14; 15; 16; 17]
  ∧ Remove 1 fs0 "/a" false w = Done (true, w')
  ∧ ∃ cleared freeMap',
      clears w' = clears w ++ cleared
      ∧ cleared ≡ₚ owned
      ∧ cout w' = cout w ++ ["Remove /a"%string]
      ∧ PersistentBitmap_new (freeMapFile fs0) NumSectors (disk w') = Done freeMap'
      ∧ (∀ s, s ∈ owned → 0 ≤ s ∧ freeMap' !! Z.to_nat s = Some false)
      ∧ (∀ j : nat, Z.of_nat j ∉ owned → freeMap' !! j = freeMap !! j).
Proof.
  intros w w' dirFile root freeMap owned.
  assert (sized (disk w)) as H0 by (apply sized_check; vm_compute; reflexivity).
  assert (direct dirFile) as H1 by (vm_compute; congruence).
  assert (direct (freeMapFile fs0)) as H2 by (vm_compute; congruence).
  assert (apart (freeMapFile fs0) dirFile) as H3
    by (apply apart_check; vm_compute; reflexivity).
  assert (FreeMapFileSize ≤ FileLength (hdr (freeMapFile fs0))) as H4
    by (vm_compute; congruence).
  assert (Remove 1 fs0 "/a" false w = Done (true, w')) as H5 by (vm_compute; reflexivity).
  split; [exact H0 |]. split; [exact H1 |]. split; [exact H2 |]. split; [exact H3 |].
  split; [exact H4 |]. split; [vm_compute; reflexivity |].
  split; [vm_compute; reflexivity |]. split; [exact H5 |].
  apply (Remove_file_frees_sectors 0 fs0 "/a" false w w' "/" "a" dirFile root
           (returned (mkDirectoryEntry false false 0 "") (index root (FindIndex root "a")))
           freeMap owned);
    first [assumption | vm_compute; reflexivity | vm_compute; congruence].
Defined.

(** ** When the writes of [Remove] are defined *)

Lemma read_sectors_defined (f : OpenFile) (d : Disk) (n : nat) :
  direct f →
  ∀ i : nat,
    (∀ k : nat, (i ≤ k < i + n)%nat →
       ∃ s, dataSectors (hdr f) !! k = Some s
            ∧ 0 ≤ s < NumSectors ∧ s < Z.of_nat (length d)) →
    ∃ buf, read_sectors f n (Z.of_nat i) d = Done buf.
Proof.
  intros Hf. induction n as [| n IH]; intros i Hall; cbn [read_sectors]; [eauto |].
  rewrite ByteToSector_direct by exact Hf.
  destruct (Hall i ltac:(lia)) as (s & Hs & Hrange & Hlen).
  rewrite (index_lookup _ _ s) by (try lia; rewrite Nat2Z.id; exact Hs).
  cbn [mbind Outcome_bind].
  destruct (lookup_lt_is_Some_2 d (Z.to_nat s) ltac:(lia)) as [data Hdata].
  rewrite (ReadSector_lookup _ _ data Hrange Hdata). cbn [mbind Outcome_bind].
  replace (Z.of_nat i + 1) with (Z.of_nat (S i)) by lia.
  destruct (IH (S i)) as [rest Hrest]; [intros k Hk; apply Hall; lia |].
  rewrite Hrest. cbn [mbind Outcome_bind]. eauto.
Qed.

Lemma write_sectors_defined (f : OpenFile) (n : nat) :
  direct f →
  ∀ (i : nat) (buf : list Z) (d : Disk),
    (∀ k : nat, (i ≤ k < i + n)%nat →
       ∃ s, dataSectors (hdr f) !! k = Some s
            ∧ 0 ≤ s < NumSectors ∧ s < Z.of_nat (length d)) →
    ∃ d', write_sectors f n (Z.of_nat i) buf d = Done d'.
Proof.
  intros Hf. induction n as [| n IH]; intros i buf d Hall; cbn [write_sectors]; [eauto |].
  rewrite ByteToSector_direct by exact Hf.
  destruct (Hall i ltac:(lia)) as (s & Hs & Hrange & Hlen).
  rewrite (index_lookup _ _ s) by (try lia; rewrite Nat2Z.id; exact Hs).
  cbn [mbind Outcome_bind]. unfold WriteSector, ASSERT, store.
  destruct (Z.leb_spec 0 s); [| lia]. destruct (Z.ltb_spec s NumSectors); [| lia].
  cbn [andb mbind Outcome_bind].
  destruct (Z.ltb_spec s (Z.of_nat (length d))); [| lia]. cbn [mbind Outcome_bind].
  replace (Z.of_nat i + 1) with (Z.of_nat (S i)) by lia.
  apply IH. intros k Hk. plain. rewrite length_insert. apply Hall. lia.
Qed.

Lemma WriteAt_defined (f : OpenFile) (from : list Z) (numBytes : Z) (d : Disk) :
  direct f → on_disk f d → ∃ k d', WriteAt f from numBytes 0 d = Done (k, d').
Proof.
  intros Hf Hon. unfold WriteAt.
  destruct (Z.leb_spec numBytes 0); [cbn [orb]; eauto |].
  destruct (Z.leb_spec (FileLength (hdr f)) 0); cbn [orb]; [eauto |].
  change (0 / SectorSize) with (Z.of_nat 0).
  set (count := if FileLength (hdr f) <? 0 + numBytes then FileLength (hdr f) - 0
                else numBytes).
  assert (0 < count ≤ FileLength (hdr f)) as Hcount
    by (subst count; destruct (Z.ltb_spec (FileLength (hdr f)) (0 + numBytes)); lia).
  assert (∀ k : nat, (0 ≤ k < 0 + Z.to_nat (1 + (0 + count - 1) / SectorSize - Z.of_nat 0))%nat →
            ∃ s, dataSectors (hdr f) !! k = Some s
                 ∧ 0 ≤ s < NumSectors ∧ s < Z.of_nat (length d)) as Hall.
  { intros k Hk. apply Hon. unfold SectorSize in *.
    assert (Z.of_nat k ≤ (0 + count - 1) / 128) as Hle by lia.
    pose proof (Z.mul_div_le (0 + count - 1) 128 ltac:(lia)). lia. }
  destruct (read_sectors_defined f d _ Hf 0%nat Hall) as [buf ->].
  cbn [mbind Outcome_bind].
  match goal with
  | |- context [write_sectors f ?n _ ?b d] =>
      destruct (write_sectors_defined f n Hf 0%nat b d Hall) as [d' ->]
  end.
  cbn [mbind Outcome_bind]. eauto.
Qed.

Lemma on_disk_length (f : OpenFile) (d d' : Disk) :
  length d' = length d → on_disk f d → on_disk f d'.
Proof. intros Hlen Hon k Hk. rewrite Hlen. exact (Hon k Hk). Qed.

Lemma on_disk_check (f : OpenFile) (d : Disk) :
  forallb (λ k, match dataSectors (hdr f) !! k with
                | Some s => (0 <=? s) && (s <? NumSectors) && (s <? Z.of_nat (length d))
                | None => false
                end)
          (seq 0 (Z.to_nat (divRoundUp (FileLength (hdr f)) SectorSize))) = true →
  on_disk f d.
Proof.
  intros H k Hk. rewrite forallb_forall in H.
  assert (In k (seq 0 (Z.to_nat (divRoundUp (FileLength (hdr f)) SectorSize)))) as Hin.
  { apply in_seq. rewrite divRoundUp_ceil by (unfold SectorSize in *; lia).
    unfold SectorSize in *.
    assert (Z.of_nat k + 1 ≤ (FileLength (hdr f) + 128 - 1) / 128); [| lia].
    apply Z.div_le_lower_bound; lia. }
  specialize (H k Hin). destruct (dataSectors (hdr f) !! k) as [s |]; [| discriminate].
  exists s. split; [reflexivity |]. lia.
Qed.

Lemma Clear_all_defined (sectors : list Z) :
  ∀ (freeMap : Bitmap) (w : World),
    Forall (λ s, 0 ≤ s < Z.of_nat (length freeMap)) sectors →
    ∃ freeMap' w', Clear_all sectors freeMap w = Done (freeMap', w').
Proof.
  induction sectors as [| s rest IH]; intros freeMap w Hall; cbn [Clear_all]; [eauto |].
  apply Forall_cons in Hall as [Hs Hrest].
  unfold Clear_call, Clear, store at 1.
  destruct (Z.leb_spec 0 s); [| lia].
  destruct (Z.ltb_spec s (Z.of_nat (length freeMap))); [| lia].
  cbn [andb mbind Outcome_bind]. apply IH.
  unfold Bitmap in *. rewrite length_insert. exact Hrest.
Qed.

(** Lines 498-519 for a directory: with the sectors of its header in the
    bitmap's range and the two files on the disk, the frees and the
    write-backs are defined, and TRUE is returned. *)
Lemma Remove_finish_defined (fs : FileSystem) (filename : string) (sector : Z)
    (fileHdr : FileHeader) (freeMap : Bitmap) (directory : Directory)
    (dirFile : OpenFile) (w : World) (own : list Z) :
  level fileHdr ≠ 0 →
  listed fileHdr = Done own → Forall (λ s, 0 ≤ s < NumSectors) own →
  0 ≤ sector < NumSectors →
  length freeMap = Z.to_nat NumSectors →
  direct (freeMapFile fs) → direct dirFile →
  on_disk (freeMapFile fs) (disk w) → on_disk dirFile (disk w) →
  ∃ w', Remove_finish fs filename sector fileHdr freeMap directory dirFile w
        = Done (true, w')
        ∧ cout w' = cout w ∧ clears w' = clears w ++ own ++ [sector].
Proof.
  intros Hlevel Hown Hrange Hsector Hlen Hdirectmap Hdirect Honmap Hondir.
  unfold Remove_finish.
  destruct (Z.eqb_spec (level fileHdr) 0) as [? | _]; [contradiction |].
  cbn [mbind Outcome_bind]. unfold Deallocate. rewrite Hown. cbn [mbind Outcome_bind].
  destruct (Clear_all_defined own freeMap w) as (fm1 & w1 & Hclear).
  { rewrite Hlen. change (Z.of_nat (Z.to_nat NumSectors)) with NumSectors. exact Hrange. }
  rewrite Hclear. cbn [mbind Outcome_bind].
  pose proof (Clear_all_freed _ _ _ _ _ Hclear) as (_ & _ & Hlen1).
  apply Clear_all_spec in Hclear as (Hd1 & Hc1 & Hl1).
  unfold Clear_call, Clear, store.
  destruct (Z.leb_spec 0 sector); [| lia].
  destruct (Z.ltb_spec sector (Z.of_nat (length fm1))) as [_ | Hge];
    [| unfold Bitmap in *; rewrite Hlen1, Hlen in Hge;
       change (Z.of_nat (Z.to_nat NumSectors)) with NumSectors in Hge; lia].
  cbn [andb mbind Outcome_bind disk].
  destruct (Directory_Remove directory filename) as [removed directory'].
  unfold PersistentBitmap_WriteBack.
  match goal with
  | |- context [WriteAt (freeMapFile fs) ?from ?n 0 ?dd] =>
      destruct (WriteAt_defined (freeMapFile fs) from n dd Hdirectmap
                  ltac:(cbn [disk]; rewrite Hd1; exact Honmap)) as (k1 & d1 & Hw1)
  end.
  rewrite Hw1. cbn [mbind Outcome_bind].
  apply WriteAt_frame in Hw1 as (Hlend1 & _); [| exact Hdirectmap].
  cbn [disk] in Hlend1. rewrite Hd1 in Hlend1.
  unfold Directory_WriteBack.
  match goal with
  | |- context [WriteAt dirFile ?from ?n 0 d1] =>
      destruct (WriteAt_defined dirFile from n d1 Hdirect
                  ltac:(apply (on_disk_length _ (disk w)); [exact Hlend1 | exact Hondir]))
        as (k2 & d2 & Hw2)
  end.
  rewrite Hw2. cbn [mbind Outcome_bind].
  eexists. split; [reflexivity |]. cbn [set_disk cout clears].
  rewrite Hc1, Hl1, <- app_assoc. auto.
Qed.

(** ** C9: what [Remove] returns for a directory *)

(** C9.  [name] resolves to an entry of its parent that is a directory, one
    whose header is not of level 0 ([CreateDirectory] gives level 1) and
    lists sectors of the disk; the bitmap file and the parent's file are on
    the disk.  [recur] is set, or the
    directory has no entry in use.  Whenever the calls of [Remove] for the
    entries of the directory return, with whatever results, and leave the
    world [w1], the [Remove] of the directory returns TRUE, after the frees
    of lines 509-510. *)
Theorem Remove_directory_returns_true (fuel : nat) (fs : FileSystem) (name : string)
    (recur : bool) (w w1 : World) (parent filename : string)
    (dirFile nextDirFile : OpenFile) (directory nextDir : Directory)
    (entry : DirectoryEntry) (fileHdr : FileHeader) (freeMap : Bitmap) (own : list Z) :
  SplitPath name = Done (parent, filename) →
  OpenDir fs parent (disk w) = Done (Some dirFile) →
  Directory_FetchFrom (Directory_new NumDirEntries) dirFile (disk w) = Done directory →
  0 ≤ Find directory filename < NumSectors →
  index directory (FindIndex directory filename) = Done entry →
  type entry = true →
  FileHeader_FetchFrom (Find directory filename) (disk w) = Done fileHdr →
  level fileHdr ≠ 0 →
  listed fileHdr = Done own → Forall (λ s, 0 ≤ s < NumSectors) own →
  PersistentBitmap_new (freeMapFile fs) NumSectors (disk w) = Done freeMap →
  OpenDir fs name (disk w) = Done (Some nextDirFile) →
  Directory_FetchFrom (Directory_new NumDirEntries) nextDirFile (disk w) = Done nextDir →
  recur = true ∨ count_inUse nextDir = 0 →
  Remove_children (λ n, Remove fuel fs n recur) name nextDir
                  (print ("Remove " ++ name) w) = Done w1 →
  direct (freeMapFile fs) → direct dirFile →
  on_disk (freeMapFile fs) (disk w1) → on_disk dirFile (disk w1) →
  ∃ w', Remove (S fuel) fs name recur w = Done (true, w')
        ∧ cout w' = cout w1
        ∧ clears w' = clears w1 ++ own ++ [Find directory filename].
Proof.
  intros Hsplit Hparent Hdir Hfound Hentry Htype Hhdr Hlevel Hown Hrange Hmap Hnext Hnextdir
    Hguard Hchildren Hdirectmap Hdirect Honmap Hondir.
  cbn [Remove]. rewrite Hsplit. cbn [mbind Outcome_bind print disk].
  rewrite Hparent. cbn [mbind Outcome_bind]. rewrite Hdir. cbn [mbind Outcome_bind].
  destruct (Z.eqb_spec (Find directory filename) (-1)) as [? | _]; [lia |].
  rewrite Hhdr. cbn [mbind Outcome_bind]. rewrite Hmap. cbn [mbind Outcome_bind].
  rewrite Hentry. cbn [mbind Outcome_bind]. rewrite Htype.
  rewrite Hnext. cbn [mbind Outcome_bind]. rewrite Hnextdir. cbn [mbind Outcome_bind].
  assert (negb recur && negb (count_inUse nextDir =? 0) = false) as ->.
  { destruct Hguard as [-> | ->]; [reflexivity |]. apply andb_false_r. }
  change (mkWorld (disk w) (cout w ++ [("Remove " ++ name)%string]) (clears w))
    with (print ("Remove " ++ name) w).
  rewrite Hchildren. cbn [mbind Outcome_bind].
  apply (Remove_finish_defined fs filename _ fileHdr freeMap directory dirFile w1 own);
    auto.
  exact (PersistentBitmap_new_length _ _ _ Hmap).
Qed.

(** [/d] holds one entry, a directory with the name [x/y].  The call for it,
    [Remove("/d/x/y")], looks for a directory [/d/x], finds none and returns
    FALSE; the [Remove] of [/d] returns TRUE. *)
Lemma Remove_directory_returns_true_witness :
  let w := after [OpCreateDirectory "d" "/"; OpCreateDirectory "x/y" "/d"] in
  let w1 := returned w ('(_, w1) ← Remove 1 fs0 "/d/x/y" true (print "Remove /d" w);
                        Done w1) in
  let dirFile := handle (OpenDir fs0 "/" (disk w)) in
  let root := table_of fs0 "/" (disk w) in
  let fileHdr := returned FileHeader_new (FileHeader_FetchFrom (Find root "d") (disk w)) in
  let own := returned [] (listed fileHdr) in
  count_inUse (table_of fs0 "/d" (disk w)) = 1
  ∧ Remove 1 fs0 "/d/x/y" true (print "Remove /d" w) = Done (false, w1)
  ∧ Find root "d" = 13
  ∧ level fileHdr = 1
  ∧ Forall (λ s, 0 ≤ s < NumSectors) own
  ∧ direct (freeMapFile fs0) ∧ direct dirFile
  ∧ on_disk (freeMapFile fs0) (disk w1) ∧ on_disk dirFile (disk w1)
  ∧ ∃ w', Remove 2 fs0 "/d" true w = Done (true, w')
          ∧ cout w' = cout w1
          ∧ clears w' = clears w1 ++ own ++ [Find root "d"].
Proof.
  intros w w1 dirFile root fileHdr own.
  assert (Forall (λ s, 0 ≤ s < NumSectors) own) as H0
    by (apply Forall_forall; intros s Hs; apply (bool_decide_unpack _);
        revert s Hs; apply Forall_forall; apply (bool_decide_unpack _);
        vm_compute; reflexivity).
  assert (direct (freeMapFile fs0)) as H1 by (vm_compute; congruence).
  assert (direct dirFile) as H2 by (vm_compute; congruence).
  assert (on_disk (freeMapFile fs0) (disk w1)) as H3
    by (apply on_disk_check; vm_compute; reflexivity).
  assert (on_disk dirFile (disk w1)) as H4
    by (apply on_disk_check; vm_compute; reflexivity).
  split; [vm_compute; reflexivity |]. split; [vm_compute; reflexivity |].
  split; [vm_compute; reflexivity |]. split; [vm_compute; reflexivity |].
  split; [exact H0 |]. split; [exact H1 |]. split; [exact H2 |].
  split; [exact H3 |]. split; [exact H4 |].
  apply (Remove_directory_returns_true 1 fs0 "/d" true w w1 "/" "d" dirFile
           (handle (OpenDir fs0 "/d" (disk w))) root (table_of fs0 "/d" (disk w))
           (returned (mkDirectoryEntry false false 0 "") (index root (FindIndex root "d")))
           fileHdr
           (returned [] (PersistentBitmap_new (freeMapFile fs0) NumSectors (disk w)))
           own);
    first [assumption | left; reflexivity | vm_compute; reflexivity
           | vm_compute; split; [discriminate | reflexivity] | vm_compute; congruence].
Defined.

(** A [Remove] with [recur] of a directory whose first entry in use leads,
    through [JoinPath], to a path on which [Remove] does not return, does not
    return either. *)
Lemma Remove_into_child (fs : FileSystem) (d : Disk) (path child parent filename : string)
    (dirFile nextDirFile : OpenFile) (directory nextDir : Directory)
    (entry first : DirectoryEntry) (fileHdr : FileHeader) (freeMap : Bitmap) (fuel : nat) :
  SplitPath path = Done (parent, filename) →
  OpenDir fs parent d = Done (Some dirFile) →
  Directory_FetchFrom (Directory_new NumDirEntries) dirFile d = Done directory →
  Find directory filename ≠ -1 →
  index directory (FindIndex directory filename) = Done entry →
  type entry = true →
  FileHeader_FetchFrom (Find directory filename) d = Done fileHdr →
  PersistentBitmap_new (freeMapFile fs) NumSectors d = Done freeMap →
  OpenDir fs path d = Done (Some nextDirFile) →
  Directory_FetchFrom (Directory_new NumDirEntries) nextDirFile d = Done nextDir →
  head nextDir = Some first → inUse first = true →
  JoinPath path (name first) = Done child →
  (∀ w, disk w = d → Remove fuel fs child true w = OutOfFuel) →
  ∀ w, disk w = d → Remove (S fuel) fs path true w = OutOfFuel.
Proof.
  intros Hsplit Hparent Hdir Hfound Hentry Htype Hhdr Hmap Hnext Hnextdir Hhead Hfirst
    Hjoin Hchild w <-.
  cbn [Remove]. rewrite Hsplit. cbn [mbind Outcome_bind print disk].
  rewrite Hparent. cbn [mbind Outcome_bind]. rewrite Hdir. cbn [mbind Outcome_bind].
  destruct (Z.eqb_spec (Find directory filename) (-1)) as [? | _]; [contradiction |].
  rewrite Hhdr. cbn [mbind Outcome_bind]. rewrite Hmap. cbn [mbind Outcome_bind].
  rewrite Hentry. cbn [mbind Outcome_bind]. rewrite Htype.
  rewrite Hnext. cbn [mbind Outcome_bind]. rewrite Hnextdir. cbn [mbind Outcome_bind].
  cbn [negb andb].
  destruct nextDir as [| e rest]; [discriminate |]. injection Hhead as ->.
  cbn [Remove_children]. rewrite Hfirst, Hjoin. cbn [mbind Outcome_bind].
  rewrite Hchild by reflexivity. reflexivity.
Qed.

(** C9, as the claim has it, fails, and in two ways.  [/d] is found in its
    parent and is a directory that holds the file [x]: the [Remove] of it
    without [recur] returns FALSE (the guard of line 478).  [/x] is found in
    its parent and is a directory whose one entry is a directory with the
    empty name: the [Remove] of it with [recur] calls itself for the path
    [/x/], which [SplitPath] and [OpenDir] resolve to that entry of [/x]
    again, and for which [JoinPath] gives [/x/] once more; the call does not
    return, whatever its budget. *)
Lemma Remove_found_directory_returns_false :
  let w := after [OpCreateDirectory "d" "/"; OpCreate "/d/x" 10] in
  let root := table_of fs0 "/" (disk w) in
  let wx := after [OpCreateDirectory "x" "/"; OpCreateDirectory "" "/x"] in
  let rootx := table_of fs0 "/" (disk wx) in
  (SplitPath "/d" = Done ("/"%string, "d"%string)
   ∧ Find root "d" = 13
   ∧ index root (FindIndex root "d") = Done (mkDirectoryEntry true true 13 "d")
   ∧ Remove 8 fs0 "/d" false w
     = Done (false, print "d: directory not empty!" (print "Remove /d" w)))
  ∧ (SplitPath "/x" = Done ("/"%string, "x"%string)
     ∧ Find rootx "x" = 13
     ∧ index rootx (FindIndex rootx "x") = Done (mkDirectoryEntry true true 13 "x")
     ∧ JoinPath "/x" "" = Done "/x/"%string
     ∧ JoinPath "/x/" "" = Done "/x/"%string
     ∧ ∀ fuel, Remove fuel fs0 "/x" true wx = OutOfFuel).
Proof.
  intros w root wx rootx. split.
  - split; [vm_compute; reflexivity |]. split; [vm_compute; reflexivity |].
    split; vm_compute; reflexivity.
  - split; [vm_compute; reflexivity |]. split; [vm_compute; reflexivity |].
    split; [vm_compute; reflexivity |]. split; [vm_compute; reflexivity |].
    split; [vm_compute; reflexivity |].
    assert (∀ fuel w, disk w = disk wx → Remove fuel fs0 "/x/" true w = OutOfFuel)
      as Hloop.
    { induction fuel as [| fuel IH]; [reflexivity |].
      eapply (Remove_into_child fs0 (disk wx) "/x/" "/x/" "/x" "");
        [vm_compute; reflexivity | vm_compute; reflexivity | vm_compute; reflexivity
        | vm_compute; discriminate | vm_compute; reflexivity | reflexivity
        | vm_compute; reflexivity | vm_compute; reflexivity | vm_compute; reflexivity
        | vm_compute; reflexivity | reflexivity | reflexivity | vm_compute; reflexivity
        | exact IH]. }
    intros [| fuel]; [reflexivity |].
    eapply (Remove_into_child fs0 (disk wx) "/x" "/x/" "/" "x");
      [vm_compute; reflexivity | vm_compute; reflexivity | vm_compute; reflexivity
      | vm_compute; discriminate | vm_compute; reflexivity | reflexivity
      | vm_compute; reflexivity | vm_compute; reflexivity | vm_compute; reflexivity
      | vm_compute; reflexivity | reflexivity | reflexivity | vm_compute; reflexivity
      | exact (Hloop fuel) | reflexivity].
Qed.

(** ** Examples *)

Example SplitPath_nested : SplitPath "/d/x" = Done ("/d"%string, "x"%string).
Proof. vm_compute. reflexivity. Qed.

Example SplitPath_root : SplitPath "/a" = Done ("/"%string, "a"%string).
Proof. vm_compute. reflexivity. Qed.

Example JoinPath_dir : JoinPath "/d" "x" = Done "/d/x"%string.
Proof. vm_compute. reflexivity. Qed.

Example JoinPath_root : JoinPath "/" "x" = Done "/x"%string.
Proof. vm_compute. reflexivity. Qed.

(** After formatting, the bitmap file has the two header sectors, its own
    data sector and the ten data sectors of the root directory. *)
Example format_allocates :
  allocated fs0 (disk world0) = Done [0; 1; 2; 3; 4; 5; 6; 7; 8; 9; 10; 11; 12].
Proof. vm_compute. reflexivity. Qed.

(** Two descriptors for the same file are distinct; a closed one is used
    again. *)
Example descriptors_reused :
  let d := disk (after [OpCreate "/a" 100]) in
  ('(id1, fs) ← Open_fd fs0 "/a" d;
   '(id2, fs) ← Open_fd fs "/a" d;
   '(_, fs, _) ← Close fs id1;
   '(id3, _) ← Open_fd fs "/a" d;
   Done (id1, id2, id3)) = Done (1, 2, 1).
Proof. vm_compute. reflexivity. Qed.
